(** * GoWiki: pages, slugs, revisions and share links

    A shallow embedding of the page/slug management code of the wiki
    ([services.WikiService], [database.DB], [services.slugify]) and of the
    share-link validation ([middleware.validateShareLink]), together with
    the properties the specification states about them.

    Conventions of the embedding.
    - A Go [string] is a sequence of bytes: [String.string].
    - [int64] row ids and [int] counters are [Z]; no arithmetic in this code
      gets near the 64-bit bounds (ids and counters only grow by one).
    - A nullable column or a Go pointer ([*int64], [*string], [*int]) is an
      [option].
    - The SQLite database is a record of tables, each table a list of rows
      in insertion order, threaded explicitly through every operation.
      Constraint violations ([UNIQUE], primary keys) are modelled; failures
      of the storage medium itself are not.
    - Columns that no operation below consults (timestamps, page tags, the
      joined author name) are left out of the rows. *)

From Stdlib Require Import String Ascii List ZArith Lia Bool Arith Permutation.
Import ListNotations.

Open Scope string_scope.
Open Scope list_scope.

(* ================================================================== *)
(** ** Go's [strings] package, as far as the wiki uses it *)
(* ================================================================== *)

Module Strings.

Definition byte_in (lo hi c : ascii) : bool :=
  (nat_of_ascii lo <=? nat_of_ascii c)%nat && (nat_of_ascii c <=? nat_of_ascii hi)%nat.

Definition is_upper (c : ascii) : bool := byte_in "A" "Z" c.
Definition is_lower (c : ascii) : bool := byte_in "a" "z" c.
Definition is_digit (c : ascii) : bool := byte_in "0" "9" c.

Definition lower_byte (c : ascii) : ascii :=
  if is_upper c then ascii_of_nat (nat_of_ascii c + 32) else c.

Definition upper_byte (c : ascii) : ascii :=
  if is_lower c then ascii_of_nat (nat_of_ascii c - 32) else c.

Definition byte (n : nat) : ascii := ascii_of_nat n.

Fixpoint map (f : ascii -> ascii) (s : string) : string :=
  match s with
  | EmptyString => EmptyString
  | String c s' => String (f c) (map f s')
  end.

Fixpoint filter (f : ascii -> bool) (s : string) : string :=
  match s with
  | EmptyString => EmptyString
  | String c s' => if f c then String c (filter f s') else filter f s'
  end.

Fixpoint forallb (f : ascii -> bool) (s : string) : bool :=
  match s with
  | EmptyString => true
  | String c s' => f c && forallb f s'
  end.

Fixpoint rev (s : string) : string :=
  match s with
  | EmptyString => EmptyString
  | String c s' => rev s' ++ String c EmptyString
  end.

Fixpoint drop (n : nat) (s : string) : string :=
  match n, s with
  | O, _ => s
  | S _, EmptyString => EmptyString
  | S n', String _ s' => drop n' s'
  end.

Definition head (s : string) : option ascii :=
  match s with
  | EmptyString => None
  | String c _ => Some c
  end.

Fixpoint last (s : string) : option ascii :=
  match s with
  | EmptyString => None
  | String c EmptyString => Some c
  | String _ s' => last s'
  end.

(** [strings.ToLower].  ASCII capitals are lowered byte by byte.  Of the
    runes outside ASCII, exactly two have an ASCII lower case: U+0130
    (bytes C4 B0, lowered to [i]) and U+212A (bytes E2 84 AA, lowered to
    [k]); a lead byte never occurs inside another rune, so matching the
    byte sequences is matching the runes.  Every other rune outside ASCII
    is lowered by Go to a rune outside ASCII again; its bytes are kept as
    they are here, which no caller below can tell apart, because the only
    caller ([slugify]) deletes every byte outside ASCII afterwards. *)
Fixpoint ToLower (s : string) : string :=
  match s with
  | EmptyString => EmptyString
  | String c1 s1 =>
      match s1 with
      | String c2 s2 =>
          if Ascii.eqb c1 (byte 196) && Ascii.eqb c2 (byte 176)
          then String "i" (ToLower s2)
          else
            match s2 with
            | String c3 s3 =>
                if Ascii.eqb c1 (byte 226) && Ascii.eqb c2 (byte 132)
                   && Ascii.eqb c3 (byte 170)
                then String "k" (ToLower s3)
                else String (lower_byte c1) (ToLower s1)
            | EmptyString => String (lower_byte c1) (ToLower s1)
            end
      | EmptyString => String (lower_byte c1) (ToLower s1)
      end
  end.

(** [strings.ReplaceAll s old new] for one-byte [old] and [new], the only
    way the wiki calls it. *)
Definition ReplaceAll (s : string) (old new : ascii) : string :=
  map (fun c => if Ascii.eqb c old then new else c) s.

Fixpoint mem (c : ascii) (cutset : string) : bool :=
  match cutset with
  | EmptyString => false
  | String d r => Ascii.eqb c d || mem c r
  end.

Fixpoint TrimLeft (s cutset : string) : string :=
  match s with
  | EmptyString => EmptyString
  | String c s' => if mem c cutset then TrimLeft s' cutset else s
  end.

Definition TrimRight (s cutset : string) : string :=
  rev (TrimLeft (rev s) cutset).

(** [strings.Trim], for a cutset of ASCII bytes. *)
Definition Trim (s cutset : string) : string :=
  TrimRight (TrimLeft s cutset) cutset.

(** The encodings of the runes for which [unicode.IsSpace] holds: tab,
    newline, vertical tab, form feed, carriage return, space, U+0085,
    U+00A0, U+1680, U+2000..U+200A, U+2028, U+2029, U+202F, U+205F,
    U+3000. *)
Definition bytes (l : list nat) : string :=
  string_of_list_ascii (List.map byte l).

Definition space_runes : list string :=
  List.map bytes
    ([[9]; [10]; [11]; [12]; [13]; [32]; [194; 133]; [194; 160];
      [225; 154; 128]]
     ++ List.map (fun k => [226; 128; 128 + k]) (seq 0 11)
     ++ [[226; 128; 168]; [226; 128; 169]; [226; 128; 175];
         [226; 129; 159]; [227; 128; 128]]).

Definition HasPrefix (s p : string) : bool := String.prefix p s.

Definition TrimPrefix (s p : string) : string :=
  if HasPrefix s p then drop (String.length p) s else s.

(** Length of the space rune [s] starts with, if any. *)
Definition space_at (runes : list string) (s : string) : option nat :=
  match List.find (fun r => HasPrefix s r) runes with
  | Some r => Some (String.length r)
  | None => None
  end.

(** Dropping leading space runes; [skip] counts the bytes of the current
    rune that are still to be dropped. *)
Fixpoint trim_runes (runes : list string) (skip : nat) (s : string) : string :=
  match s with
  | EmptyString => EmptyString
  | String _ s' =>
      match skip with
      | S k => trim_runes runes k s'
      | O =>
          match space_at runes s with
          | Some (S k) => trim_runes runes k s'
          | _ => s
          end
      end
  end.

(** [strings.TrimSpace]: the trailing spaces are found as Go finds them,
    decoding backwards, which on the reversed string is matching the
    reversed encodings. *)
Definition TrimSpace (s : string) : string :=
  let l := trim_runes space_runes 0 s in
  rev (trim_runes (List.map rev space_runes) 0 (rev l)).

Fixpoint Contains (s : string) (c : ascii) : bool :=
  match s with
  | EmptyString => false
  | String d s' => Ascii.eqb d c || Contains s' c
  end.

(** [strings.Split s sep] for a one-byte separator: never empty. *)
Fixpoint Split (s : string) (sep : ascii) : list string :=
  match s with
  | EmptyString => [EmptyString]
  | String c s' =>
      if Ascii.eqb c sep then EmptyString :: Split s' sep
      else
        match Split s' sep with
        | h :: t => String c h :: t
        | [] => [String c EmptyString]
        end
  end.

Definition Join (parts : list string) (sep : string) : string :=
  String.concat sep parts.

(** [isSeparator] of [strings.Title] on a byte: ASCII letters, digits and
    the underscore are not separators, every other ASCII byte is.  Bytes
    outside ASCII are taken as parts of letters (the only caller applies
    [Title] to segments of slugs). *)
Definition isSeparator (c : ascii) : bool :=
  if (nat_of_ascii c <? 128)%nat
  then negb (is_lower c || is_upper c || is_digit c || Ascii.eqb c "_")
  else false.

Fixpoint title_from (prev : ascii) (s : string) : string :=
  match s with
  | EmptyString => EmptyString
  | String c s' =>
      String (if isSeparator prev then upper_byte c else c) (title_from c s')
  end.

(** [strings.Title]: the first letter of every word in upper case. *)
Definition Title (s : string) : string := title_from " " s.

(** Equality under SQLite's [NOCASE] collation, which folds the 26 ASCII
    capitals and nothing else. *)
Definition nocase_eqb (a b : string) : bool :=
  String.eqb (map lower_byte a) (map lower_byte b).

End Strings.

(* ================================================================== *)
(** ** Formatting integers: the verb [%d] of [fmt] *)
(* ================================================================== *)

Module Strconv.

(** The decimal digits of [n > 0], most significant first, in front of
    [acc].  A number has no more decimal digits than binary ones, which
    bounds the recursion. *)
Fixpoint digits (fuel : nat) (n : Z) (acc : string) : string :=
  match fuel with
  | O => acc
  | S fuel' =>
      let acc := String (ascii_of_nat (48 + Z.to_nat (n mod 10))) acc in
      if (n / 10 =? 0)%Z then acc else digits fuel' (n / 10)%Z acc
  end.

Definition Itoa (n : Z) : string :=
  if (n =? 0)%Z then "0"
  else if (n <? 0)%Z
       then String "-" (digits (S (Z.to_nat (Z.log2 (- n)))) (- n)%Z "")
       else digits (S (Z.to_nat (Z.log2 n))) n "".

End Strconv.

(* ================================================================== *)
(** ** The fragment of Go's [regexp] that [slugify] uses *)
(* ================================================================== *)

Module Regexp.

Import Strings.

(** A pattern is a concatenation of character classes, each taken once,
    zero or more times, or one or more times.  All four patterns of
    [slugify] have this shape, and in each of them neighbouring classes
    are disjoint, so that the leftmost-first match of Go's engine takes
    every run whole and never backtracks. *)
Inductive quant := One | Star | Plus.

Definition item : Type := (ascii -> bool) * quant.
Definition regexp : Type := list item.

(** Number of leading bytes of [s] in the class [f]. *)
Fixpoint span (f : ascii -> bool) (s : string) : nat :=
  match s with
  | EmptyString => 0
  | String c s' => if f c then S (span f s') else 0
  end.

(** Length of the match of [re] that starts at the first byte of [s]. *)
Fixpoint match_at (re : regexp) (s : string) : option nat :=
  match re with
  | [] => Some 0
  | (f, One) :: re' =>
      match s with
      | String c s' => if f c then option_map S (match_at re' s') else None
      | EmptyString => None
      end
  | (f, Star) :: re' =>
      let n := span f s in option_map (Nat.add n) (match_at re' (drop n s))
  | (f, Plus) :: re' =>
      let n := span f s in
      if (n =? 0)%nat then None
      else option_map (Nat.add n) (match_at re' (drop n s))
  end.

(** Scanning left to right; [skip] counts the bytes of the current match
    that are still to be passed over.  At a byte where a match starts the
    replacement is written and the match is passed over; any other byte is
    copied. *)
Fixpoint replace_from (re : regexp) (repl : string) (skip : nat) (s : string)
  : string :=
  match s with
  | EmptyString => EmptyString
  | String c s' =>
      match skip with
      | S k => replace_from re repl k s'
      | O =>
          match match_at re s with
          | Some (S k) => repl ++ replace_from re repl k s'
          | _ => String c (replace_from re repl 0 s')
          end
      end
  end.

(** [Regexp.ReplaceAllString] of Go for a pattern that matches no empty
    string and a replacement without [$]. *)
Definition ReplaceAllString (re : regexp) (s repl : string) : string :=
  replace_from re repl 0 s.

End Regexp.

(* ================================================================== *)
(** ** [services.slugify] *)
(* ================================================================== *)

Module Markdown.

Import Strings Regexp.

Definition is_hyphen (c : ascii) : bool := Ascii.eqb c "-".
Definition is_slash (c : ascii) : bool := Ascii.eqb c "/".
Definition is_alnum (c : ascii) : bool := is_lower c || is_digit c.

(** The class [[a-z0-9/-]]. *)
Definition slug_byte (c : ascii) : bool :=
  is_alnum c || is_slash c || is_hyphen c.

(** [[^a-z0-9/-]] *)
Definition re_unsafe : regexp := [(fun c => negb (slug_byte c), One)].
(** [-+] *)
Definition re_hyphens : regexp := [(is_hyphen, Plus)].
(** [/+] *)
Definition re_slashes : regexp := [(is_slash, Plus)].
(** [-*/+-*] *)
Definition re_around_slash : regexp :=
  [(is_hyphen, Star); (is_slash, Plus); (is_hyphen, Star)].

Definition slugify (name : string) : string :=
  (* Convert to lowercase *)
  let slug := ToLower name in
  (* Replace spaces and underscores with hyphens *)
  let slug := ReplaceAll slug " " "-" in
  let slug := ReplaceAll slug "_" "-" in
  (* Remove non-alphanumeric characters except hyphens and forward slashes *)
  let slug := ReplaceAllString re_unsafe slug "" in
  (* Remove multiple consecutive hyphens *)
  let slug := ReplaceAllString re_hyphens slug "-" in
  (* Remove multiple consecutive slashes *)
  let slug := ReplaceAllString re_slashes slug "/" in
  (* Trim hyphens and slashes from ends and around slashes *)
  let slug := Trim slug "-/" in
  (* Clean up hyphens around slashes *)
  let slug := ReplaceAllString re_around_slash slug "/" in
  slug.

Definition Slugify (name : string) : string := slugify name.

(** generateHeadingID creates a URL-safe ID from heading text. *)
Definition generateHeadingID (text : string) : string :=
  let id := slugify text in
  if String.eqb id "" then "heading" else id.

End Markdown.

(* ================================================================== *)
(** ** [models]: the rows *)
(* ================================================================== *)

Module Page.
Record t := mk {
  ID : Z;
  Slug : string;
  Title : string;
  Content : string;      (* raw markdown *)
  ContentHTML : string;  (* rendered HTML *)
  AuthorID : Z;
  ParentID : option Z;
  IsPublished : bool
}.
Definition with_Slug (p : t) (s : string) : t :=
  mk (ID p) s (Title p) (Content p) (ContentHTML p) (AuthorID p) (ParentID p)
     (IsPublished p).
Definition with_ParentID (p : t) (x : option Z) : t :=
  mk (ID p) (Slug p) (Title p) (Content p) (ContentHTML p) (AuthorID p) x
     (IsPublished p).
Definition with_Title (p : t) (s : string) : t :=
  mk (ID p) (Slug p) s (Content p) (ContentHTML p) (AuthorID p) (ParentID p)
     (IsPublished p).
Definition with_Content (p : t) (c html : string) : t :=
  mk (ID p) (Slug p) (Title p) c html (AuthorID p) (ParentID p)
     (IsPublished p).
Definition with_IsPublished (p : t) (b : bool) : t :=
  mk (ID p) (Slug p) (Title p) (Content p) (ContentHTML p) (AuthorID p)
     (ParentID p) b.
Definition with_ID (p : t) (i : Z) : t :=
  mk i (Slug p) (Title p) (Content p) (ContentHTML p) (AuthorID p)
     (ParentID p) (IsPublished p).
End Page.

Module PageCreate.
Record t := mk {
  Slug : string;
  Title : string;
  Content : string
}.
End PageCreate.

Module PageUpdate.
Record t := mk {
  Slug : option string;
  Title : option string;
  Content : option string;
  IsPublished : option bool
}.
End PageUpdate.

Module Revision.
Record t := mk {
  ID : Z;
  PageID : Z;
  Content : string;
  AuthorID : Z;
  Comment : string
}.
End Revision.

Module ShareLink.
Record t := mk {
  ID : Z;
  TokenHash : string;
  PageID : Z;
  CreatedBy : Z;
  IncludeChildren : bool;
  MaxViews : option Z;   (* nil = unlimited *)
  MaxIPs : option Z;     (* nil = unlimited *)
  ExpiresAt : option Z;  (* nil = never expires; an instant, as a number *)
  IsRevoked : bool;
  ViewCount : Z
}.
Definition with_ViewCount (l : t) (n : Z) : t :=
  mk (ID l) (TokenHash l) (PageID l) (CreatedBy l) (IncludeChildren l)
     (MaxViews l) (MaxIPs l) (ExpiresAt l) (IsRevoked l) n.
Definition with_IsRevoked (l : t) (b : bool) : t :=
  mk (ID l) (TokenHash l) (PageID l) (CreatedBy l) (IncludeChildren l)
     (MaxViews l) (MaxIPs l) (ExpiresAt l) b (ViewCount l).

(** The receiver methods of [models.ShareLink]; [now] is [time.Now()]. *)
Definition IsExpired (now : Z) (s : t) : bool :=
  match ExpiresAt s with
  | Some e => (e <? now)%Z   (* time.Now().After( *s.ExpiresAt ) *)
  | None => false
  end.

Definition IsViewLimitReached (s : t) : bool :=
  match MaxViews s with
  | Some m => (m <=? ViewCount s)%Z
  | None => false
  end.

Definition IsIPLimitReached (s : t) (currentUniqueIPs : Z) : bool :=
  match MaxIPs s with
  | Some m => (m <=? currentUniqueIPs)%Z
  | None => false
  end.

Definition IsValid (now : Z) (s : t) : bool :=
  if IsRevoked s then false
  else if IsExpired now s then false
  else if IsViewLimitReached s then false
  else true.
End ShareLink.

Module ShareLinkAccess.
Record t := mk {
  ID : Z;
  ShareLinkID : Z;
  IPAddress : string;
  UserAgent : string
}.
End ShareLinkAccess.

(** The columns of [models.PageSummary] that [GetPagePath] fills. *)
Module PageSummary.
Record t := mk {
  ID : Z;
  Slug : string;
  Title : string
}.
End PageSummary.

(* ================================================================== *)
(** ** Errors and the monad of database programs *)
(* ================================================================== *)

Inductive error : Type :=
| ErrPageNotFound        (* "page not found" *)
| ErrPageExists          (* "page with this slug already exists" *)
| ErrInvalidSlug         (* "invalid page slug" *)
| ErrInvalidTitle        (* "page title is required" *)
| ErrRevisionNotFound    (* "revision not found" *)
| ErrUniqueSlug          (* SQLite: UNIQUE constraint failed: pages.slug *)
| ErrRender              (* the markdown renderer failed *)
| ErrWrap (context : string) (cause : error).  (* fmt.Errorf("...: %w", err) *)

Inductive result (A : Type) : Type :=
| Ok (a : A)
| Err (e : error).
Arguments Ok {A} a.
Arguments Err {A} e.

Module Database.

(** The tables.  [AUTOINCREMENT] hands out the successor of the largest id
    ever used, kept here in the [next_*] counters. *)
Record DB := mkDB {
  pages : list Page.t;
  next_page_id : Z;
  revisions : list Revision.t;
  next_revision_id : Z;
  share_links : list ShareLink.t;
  share_link_access : list ShareLinkAccess.t;
  next_access_id : Z
}.

Definition with_pages (db : DB) (ps : list Page.t) (n : Z) : DB :=
  mkDB ps n (revisions db) (next_revision_id db) (share_links db)
       (share_link_access db) (next_access_id db).
Definition with_revisions (db : DB) (rs : list Revision.t) (n : Z) : DB :=
  mkDB (pages db) (next_page_id db) rs n (share_links db)
       (share_link_access db) (next_access_id db).
Definition with_share_links (db : DB) (ls : list ShareLink.t) : DB :=
  mkDB (pages db) (next_page_id db) (revisions db) (next_revision_id db) ls
       (share_link_access db) (next_access_id db).
Definition with_share_link_access (db : DB) (l : list ShareLinkAccess.t)
  (n : Z) : DB :=
  mkDB (pages db) (next_page_id db) (revisions db) (next_revision_id db)
       (share_links db) l n.

(** A program run against the database: it may not come back (a query
    that runs out of the fuel it was given), and when it does it leaves a
    database and either a value or an error.  What was written before an
    error stays written: no transaction is open unless a program opens one. *)
Definition M (A : Type) : Type := DB -> option (DB * result A).

Definition ret {A} (a : A) : M A := fun db => Some (db, Ok a).
Definition fail {A} (e : error) : M A := fun db => Some (db, Err e).
Definition bind {A B} (c : M A) (k : A -> M B) : M B :=
  fun db =>
    match c db with
    | None => None
    | Some (db', Err e) => Some (db', Err e)
    | Some (db', Ok a) => k a db'
    end.
Definition gets {A} (f : DB -> A) : M A := fun db => Some (db, Ok (f db)).

(** [if err != nil { return nil, fmt.Errorf("context: %w", err) }] *)
Definition wrap {A} (context : string) (c : M A) : M A :=
  fun db =>
    match c db with
    | Some (db', Err e) => Some (db', Err (ErrWrap context e))
    | r => r
    end.

(** [if err != nil { fmt.Printf("Warning: ...") }]: the error is logged
    and the caller goes on. *)
Definition logged {A} (c : M A) : M unit :=
  fun db =>
    match c db with
    | Some (db', _) => Some (db', Ok tt)
    | None => None
    end.

End Database.

Declare Scope db_scope.
Delimit Scope db_scope with db.
Notation "x <- c ;; k" := (Database.bind c (fun x => k))
  (at level 61, c at next level, right associativity) : db_scope.
Notation "c ;;; k" := (Database.bind c (fun _ => k))
  (at level 61, right associativity) : db_scope.

Module Queries.

Import Strings Database.
Open Scope Z_scope.
Open Scope db_scope.

(** [slug TEXT UNIQUE NOT NULL COLLATE NOCASE]: is the slug held by a row
    other than [self]? *)
Definition slug_taken (ps : list Page.t) (self : Z) (slug : string) : bool :=
  existsb (fun p => negb (Page.ID p =? self) && nocase_eqb (Page.Slug p) slug) ps.

(** [CreatePage]: INSERT INTO pages; returns the id written to [page.ID]. *)
Definition CreatePage (page : Page.t) : M Z :=
  fun db =>
    if existsb (fun p => nocase_eqb (Page.Slug p) (Page.Slug page)) (pages db)
    then Some (db, Err (ErrWrap "failed to create page" ErrUniqueSlug))
    else
      let id := next_page_id db in
      Some (with_pages db (pages db ++ [Page.with_ID page id]) (id + 1), Ok id).

(** [GetPageByID]: SELECT ... WHERE p.id = ?; [nil, nil] when absent. *)
Definition GetPageByID (id : Z) : M (option Page.t) :=
  gets (fun db => find (fun p => Page.ID p =? id) (pages db)).

(** [GetPageBySlug]: SELECT ... WHERE p.slug = ? COLLATE NOCASE. *)
Definition GetPageBySlug (slug : string) : M (option Page.t) :=
  gets (fun db => find (fun p => nocase_eqb (Page.Slug p) slug) (pages db)).

Definition update_rows (id : Z) (f : Page.t -> Page.t) (ps : list Page.t)
  : list Page.t :=
  List.map (fun p => if Page.ID p =? id then f p else p) ps.

(** [UpdatePage]: UPDATE pages SET slug = ?, title = ?, content = ?,
    content_html = ?, parent_id = ?, is_published = ? WHERE id = ?. *)
Definition UpdatePage (page : Page.t) : M unit :=
  fun db =>
    let id := Page.ID page in
    if existsb (fun p => Page.ID p =? id) (pages db)
       && slug_taken (pages db) id (Page.Slug page)
    then Some (db, Err ErrUniqueSlug)
    else
      Some (with_pages db
              (update_rows id (fun _ => page) (pages db))
              (next_page_id db), Ok tt).

(** [UpdatePageSlug]: UPDATE pages SET slug = ? WHERE id = ?. *)
Definition UpdatePageSlug (pageID : Z) (newSlug : string) : M unit :=
  fun db =>
    if existsb (fun p => Page.ID p =? pageID) (pages db)
       && slug_taken (pages db) pageID newSlug
    then Some (db, Err ErrUniqueSlug)
    else
      Some (with_pages db
              (update_rows pageID (fun p => Page.with_Slug p newSlug) (pages db))
              (next_page_id db), Ok tt).

(** The rows [SELECT id, slug FROM pages WHERE parent_id = ?] yields. *)
Definition children (ps : list Page.t) (parentID : Z) : list (Z * string) :=
  List.map (fun p => (Page.ID p, Page.Slug p))
    (List.filter (fun p => match Page.ParentID p with
                           | Some q => q =? parentID
                           | None => false
                           end) ps).

(** The recursive common table expression of [GetAllDescendants], run the
    way SQLite runs [WITH RECURSIVE ... UNION ALL]: the rows of the initial
    select are put in a queue; then, as long as the queue is not empty, one
    row is taken from it, added to the result, and the rows the recursive
    select yields for that one row are added to the queue.  Nothing is
    ever removed as a duplicate.  [fuel] bounds the number of rounds: the
    query itself has no bound. *)
Fixpoint descendants_cte (fuel : nat) (ps : list Page.t)
  (queue acc : list (Z * string)) : option (list (Z * string)) :=
  match fuel with
  | O => None
  | S fuel' =>
      match queue with
      | [] => Some (List.rev acc)
      | row :: queue' =>
          descendants_cte fuel' ps (queue' ++ children ps (fst row)) (row :: acc)
      end
  end.

(** [GetAllDescendants]. *)
Definition GetAllDescendants (fuel : nat) (parentID : Z) : M (list (Z * string)) :=
  fun db =>
    match descendants_cte fuel (pages db) (children (pages db) parentID) [] with
    | Some rows => Some (db, Ok rows)
    | None => None
    end.

(** [DB.Transaction]: the function runs inside a transaction, which is
    rolled back when the function returns an error and committed
    otherwise. *)
Definition Transaction {A} (fn : M A) : M A :=
  fun db =>
    match fn db with
    | Some (_, Err e) => Some (db, Err e)
    | r => r
    end.

(** DELETE FROM pages WHERE id = ?, with the actions the schema attaches
    to the references to a page: revisions and share links go with it
    ([ON DELETE CASCADE], and the access rows with their link), children
    lose their parent ([ON DELETE SET NULL]). *)
Definition delete_row (id : Z) (db : DB) : DB :=
  let gone := List.filter (fun l => ShareLink.PageID l =? id) (share_links db) in
  mkDB
    (List.map (fun p => match Page.ParentID p with
                        | Some q => if q =? id then Page.with_ParentID p None else p
                        | None => p
                        end)
       (List.filter (fun p => negb (Page.ID p =? id)) (pages db)))
    (next_page_id db)
    (List.filter (fun r => negb (Revision.PageID r =? id)) (revisions db))
    (next_revision_id db)
    (List.filter (fun l => negb (ShareLink.PageID l =? id)) (share_links db))
    (List.filter
       (fun a => negb (existsb (fun l => ShareLink.ID l =? ShareLinkAccess.ShareLinkID a)
                         gone))
       (share_link_access db))
    (next_access_id db).

(** [DeletePage] removes a page by ID. *)
Definition DeletePage (id : Z) : M unit :=
  fun db => Some (delete_row id db, Ok tt).

Fixpoint delete_each (ids : list Z) : M unit :=
  match ids with
  | [] => ret tt
  | id :: rest =>
      wrap "failed to delete page" (DeletePage id) ;;; delete_each rest
  end.

(** [DeletePages] removes multiple pages by ID within a transaction. *)
Definition DeletePages (ids : list Z) : M unit :=
  match ids with
  | [] => ret tt
  | _ :: _ => Transaction (delete_each ids)
  end.

(** [CreateRevision]: INSERT INTO revisions. *)
Definition CreateRevision (rev : Revision.t) : M Z :=
  fun db =>
    let id := next_revision_id db in
    let row := Revision.mk id (Revision.PageID rev) (Revision.Content rev)
                 (Revision.AuthorID rev) (Revision.Comment rev) in
    Some (with_revisions db (revisions db ++ [row]) (id + 1), Ok id).

(** [GetRevision]: SELECT ... FROM revisions r WHERE r.id = ?; [nil, nil]
    when absent. *)
Definition GetRevision (id : Z) : M (option Revision.t) :=
  gets (fun db => find (fun r => Revision.ID r =? id) (revisions db)).

(** [IsPageDescendant]: the recursive query of [GetAllDescendants], and of
    its rows the number of those with [slug = ? COLLATE NOCASE], compared
    with 0. *)
Definition IsPageDescendant (fuel : nat) (parentID : Z) (childSlug : string)
  : M bool :=
  fun db =>
    match descendants_cte fuel (pages db) (children (pages db) parentID) [] with
    | Some rows =>
        Some (db, Ok (0 <? Z.of_nat
                             (length (List.filter
                                        (fun d => nocase_eqb (snd d) childSlug)
                                        rows))))
    | None => None
    end.

(** The rows [SELECT ... FROM pages p JOIN ancestors a ON p.id = a.parent_id]
    yields for the one row [a] of [ancestors]. *)
Definition parents_of (ps : list Page.t) (a : Page.t) : list Page.t :=
  match Page.ParentID a with
  | Some q => List.filter (fun p => Page.ID p =? q) ps
  | None => []
  end.

(** The recursive common table expression [ancestors] of [GetPagePath],
    run like the one of [GetAllDescendants]; a row carries its [depth]. *)
Fixpoint ancestors_cte (fuel : nat) (ps : list Page.t)
  (queue acc : list (Page.t * nat)) : option (list (Page.t * nat)) :=
  match fuel with
  | O => None
  | S fuel' =>
      match queue with
      | [] => Some (List.rev acc)
      | row :: queue' =>
          ancestors_cte fuel' ps
            (queue' ++ List.map (fun p => (p, S (snd row))) (parents_of ps (fst row)))
            (row :: acc)
      end
  end.

(** [ORDER BY depth DESC], as an insertion sort. *)
Fixpoint insert_desc (r : Page.t * nat) (l : list (Page.t * nat))
  : list (Page.t * nat) :=
  match l with
  | [] => [r]
  | x :: l' => if (snd x <? snd r)%nat then r :: l else x :: insert_desc r l'
  end.

Definition order_by_depth_desc (l : list (Page.t * nat)) : list (Page.t * nat) :=
  fold_right insert_desc [] l.

(** [GetPagePath] retrieves the full path (breadcrumb) for a page. *)
Definition GetPagePath (fuel : nat) (pageID : Z) : M (list PageSummary.t) :=
  fun db =>
    match ancestors_cte fuel (pages db)
            (List.map (fun p => (p, 0%nat))
               (List.filter (fun p => Page.ID p =? pageID) (pages db))) [] with
    | Some rows =>
        Some (db, Ok (List.map
                        (fun r => PageSummary.mk (Page.ID (fst r)) (Page.Slug (fst r))
                                    (Page.Title (fst r)))
                        (order_by_depth_desc rows)))
    | None => None
    end.

End Queries.

(* ================================================================== *)
(** ** [services.WikiService] *)
(* ================================================================== *)

Module Wiki.

Import Strings Markdown Database Queries.
Open Scope Z_scope.
Open Scope db_scope.

(** SlugChange represents a slug that was changed during an update. *)
Record SlugChange := mkSlugChange {
  OldSlug : string;
  NewSlug : string
}.

(** UpdateResult contains the result of an update operation including any
    cascaded changes. *)
Record UpdateResult := mkUpdateResult {
  Page : Page.t;
  SlugChanges : list SlugChange
}.

Section WithRenderer.

(** [MarkdownService.Render]: an external collaborator; [None] is its
    error. *)
Variable Render : string -> option string.

(** The body of the loop of [ensureParentPages], for the indices [idx]. *)
Fixpoint ensure_loop (authorID : Z) (parts : list string) (idx : list nat)
  (parentID : option Z) : M (option Z) :=
  match idx with
  | [] => ret parentID
  | i :: idx' =>
      let parentSlug := Join (firstn (i + 1) parts) "/" in
      (* Check if parent exists *)
      existing <- GetPageBySlug parentSlug ;;
      match existing with
      | Some e =>
          (* Parent exists, use its ID *)
          ensure_loop authorID parts idx' (Some (Page.ID e))
      | None =>
          (* Create parent page with title derived from slug segment *)
          let title := Title (ReplaceAll (nth i parts "") "-" " ") in
          let contentHTML := match Render "" with Some h => h | None => "" end in
          let parent := Page.mk 0 parentSlug title "" contentHTML authorID
                          parentID true in
          id <- wrap ("failed to create parent page " ++ parentSlug)%string
                  (CreatePage parent) ;;
          ensure_loop authorID parts idx' (Some id)
      end
  end.

(** ensureParentPages creates all parent pages in a hierarchical path.
    Returns the ID of the immediate parent page. *)
Definition ensureParentPages (authorID : Z) (slug : string) : M (option Z) :=
  let parts := Split slug "/" in
  if (length parts <=? 1)%nat then ret None
  else ensure_loop authorID parts (seq 0 (length parts - 1)) None.

(** CreatePage creates a new wiki page.  If the slug contains slashes,
    parent pages are auto-created. *)
Definition CreatePage (authorID : Z) (input : PageCreate.t) : M Page.t :=
  (* Validate and normalize slug *)
  let slug := TrimSpace (PageCreate.Slug input) in
  let slug := if String.eqb slug "" then Slugify (PageCreate.Title input)
              else Slugify slug in
  if String.eqb slug "" then fail ErrInvalidSlug else
  (* Validate title *)
  let title := TrimSpace (PageCreate.Title input) in
  if String.eqb title "" then fail ErrInvalidTitle else
  (* Check if slug already exists *)
  existing <- wrap "failed to check existing page" (GetPageBySlug slug) ;;
  match existing with
  | Some _ => fail ErrPageExists
  | None =>
      (* Auto-create parent pages if slug contains path separators *)
      parentID <- (if Contains slug "/"
                   then wrap "failed to create parent pages"
                          (ensureParentPages authorID slug)
                   else ret None) ;;
      (* Render markdown to HTML *)
      match Render (PageCreate.Content input) with
      | None => fail (ErrWrap "failed to render markdown" ErrRender)
      | Some contentHTML =>
          let page := Page.mk 0 slug title (PageCreate.Content input)
                        contentHTML authorID parentID true in
          id <- wrap "failed to create page" (Queries.CreatePage page) ;;
          let page := Page.with_ID page id in
          (* Save initial revision *)
          logged (CreateRevision
                    (Revision.mk 0 id (PageCreate.Content input) authorID
                       "Initial version")) ;;;
          ret page
      end
  end.

(** The cascade loop of [UpdatePage] over the descendants read before. *)
Fixpoint cascade (oldSlug newSlug : string) (descendants : list (Z * string))
  (slugChanges : list SlugChange) : M (list SlugChange) :=
  match descendants with
  | [] => ret slugChanges
  | desc :: rest =>
      (* Replace old parent slug prefix with new one *)
      if HasPrefix (snd desc) (oldSlug ++ "/")%string then
        let newChildSlug := (newSlug ++ TrimPrefix (snd desc) oldSlug)%string in
        wrap "failed to update descendant slug"
          (UpdatePageSlug (fst desc) newChildSlug) ;;;
        (* Track the change for backup updates *)
        cascade oldSlug newSlug rest
          (slugChanges ++ [mkSlugChange (snd desc) newChildSlug])
      else cascade oldSlug newSlug rest slugChanges
  end.

(** The block [// Handle slug change] of [UpdatePage]: the page as it is
    going to be written and the cascaded changes.  [fuel] is handed to the
    descendants query. *)
Definition handle_slug_change (fuel : nat) (pageID authorID : Z)
  (input : PageUpdate.t) (page : Page.t) : M (Page.t * list SlugChange) :=
  match PageUpdate.Slug input with
  | Some s =>
      let newSlug := Slugify s in
      if negb (String.eqb newSlug "")
         && negb (String.eqb newSlug (Page.Slug page))
      then
        let oldSlug := Page.Slug page in
        (* Check for collision (but allow updating self) *)
        existing <- wrap "failed to check slug" (GetPageBySlug newSlug) ;;
        match existing with
        | Some e =>
            if negb (Page.ID e =? pageID) then fail ErrPageExists else ret tt
        | None => ret tt
        end ;;;
        (* Resolve new parent from slug hierarchy *)
        newParentID <- (if Contains newSlug "/"
                        then wrap "failed to create parent pages"
                               (ensureParentPages authorID newSlug)
                        else ret None) ;;
        (* If no "/" in slug, newParentID stays nil (becomes root level) *)
        let page := Page.with_ParentID (Page.with_Slug page newSlug)
                      newParentID in
        (* Cascade update: update all descendant slugs *)
        descendants <- wrap "failed to get descendants"
                         (GetAllDescendants fuel pageID) ;;
        slugChanges <- cascade oldSlug newSlug descendants [] ;;
        ret (page, slugChanges)
      else ret (page, [])
  | None => ret (page, [])
  end.

(** The block [// Save revision before update]. *)
Definition save_revision (authorID : Z) (input : PageUpdate.t)
  (comment : string) (page : Page.t) : M unit :=
  match PageUpdate.Content input with
  | Some c =>
      if negb (String.eqb c (Page.Content page)) then
        logged (CreateRevision
                  (Revision.mk 0 (Page.ID page) (Page.Content page) (* Save the old content *)
                     authorID comment))
      else ret tt
  | None => ret tt
  end.

(** The block [// Update fields]. *)
Definition update_fields (input : PageUpdate.t) (page : Page.t) : M Page.t :=
  page <- match PageUpdate.Title input with
          | Some t =>
              let title := TrimSpace t in
              if String.eqb title "" then fail ErrInvalidTitle
              else ret (Page.with_Title page title)
          | None => ret page
          end ;;
  page <- match PageUpdate.Content input with
          | Some c =>
              match Render c with
              | Some contentHTML => ret (Page.with_Content page c contentHTML)
              | None => fail (ErrWrap "failed to render markdown" ErrRender)
              end
          | None => ret page
          end ;;
  ret (match PageUpdate.IsPublished input with
       | Some b => Page.with_IsPublished page b
       | None => page
       end).

(** UpdatePage updates an existing page.  Returns UpdateResult containing
    the page and any cascaded slug changes. *)
Definition UpdatePage (fuel : nat) (pageID authorID : Z)
  (input : PageUpdate.t) (comment : string) : M UpdateResult :=
  found <- wrap "failed to get page" (GetPageByID pageID) ;;
  match found with
  | None => fail ErrPageNotFound
  | Some page =>
      renamed <- handle_slug_change fuel pageID authorID input page ;;
      let page := fst renamed in
      let slugChanges := snd renamed in
      save_revision authorID input comment page ;;;
      page <- update_fields input page ;;
      wrap "failed to update page" (Queries.UpdatePage page) ;;;
      ret (mkUpdateResult page slugChanges)
  end.

(** GetPage retrieves a page by slug. *)
Definition GetPage (slug : string) : M Page.t :=
  found <- wrap "failed to get page" (GetPageBySlug slug) ;;
  match found with
  | None => fail ErrPageNotFound
  | Some page => ret page
  end.

(** GetPageByID retrieves a page by ID. *)
Definition GetPageByID (id : Z) : M Page.t :=
  found <- wrap "failed to get page" (Queries.GetPageByID id) ;;
  match found with
  | None => fail ErrPageNotFound
  | Some page => ret page
  end.

(** DeletePage removes a page. *)
Definition DeletePage (pageID : Z) : M unit :=
  found <- wrap "failed to get page" (Queries.GetPageByID pageID) ;;
  match found with
  | None => fail ErrPageNotFound
  | Some _ => Queries.DeletePage pageID
  end.

(** PageExists checks if a page with the given slug exists. *)
Definition PageExists (slug : string) : M bool :=
  found <- GetPageBySlug slug ;;
  ret (match found with Some _ => true | None => false end).

(** GetRevision retrieves a specific revision. *)
Definition GetRevision (revisionID : Z) : M Revision.t :=
  found <- wrap "failed to get revision" (Queries.GetRevision revisionID) ;;
  match found with
  | None => fail ErrRevisionNotFound
  | Some rev => ret rev
  end.

(** RevertToRevision reverts a page to a previous revision. *)
Definition RevertToRevision (fuel : nat) (revisionID authorID : Z) : M Page.t :=
  rev <- GetRevision revisionID ;;
  let content := Revision.Content rev in
  let comment := ("Reverted to revision " ++ Strconv.Itoa revisionID)%string in
  result <- UpdatePage fuel (Revision.PageID rev) authorID
              (PageUpdate.mk None None (Some content) None) comment ;;
  ret (Page result).

End WithRenderer.

End Wiki.

(* ================================================================== *)
(** ** Share links: [middleware.validateShareLink] and the access log *)
(* ================================================================== *)

Module Share.

Import Strings Database.
Open Scope Z_scope.
Open Scope db_scope.

(** Why a share link is refused; [InvalidReason] is the message the
    middleware stores in the share context. *)
Inductive DenialReason := Revoked | Expired | ViewLimitReached | IPLimitReached.

Definition InvalidReason (r : DenialReason) : string :=
  match r with
  | Revoked => "This share link has been revoked"
  | Expired => "This share link has expired"
  | ViewLimitReached => "This share link has reached its view limit"
  | IPLimitReached => "This share link has reached its access limit"
  end.

(** The [ip_address] column of the access rows of one link, oldest first. *)
Definition logged_ips (db : DB) (linkID : Z) : list string :=
  List.map ShareLinkAccess.IPAddress
    (List.filter (fun a => ShareLinkAccess.ShareLinkID a =? linkID)
       (share_link_access db)).

(** [GetShareLinkUniqueIPCount]:
    SELECT COUNT(DISTINCT ip_address) FROM share_link_access
    WHERE share_link_id = ?. *)
Definition GetShareLinkUniqueIPCount (db : DB) (linkID : Z) : Z :=
  Z.of_nat (length (nodup string_dec (logged_ips db linkID))).

(** [HasIPAccessedShareLink]:
    SELECT COUNT( * ) FROM share_link_access
    WHERE share_link_id = ? AND ip_address = ?, compared with 0. *)
Definition HasIPAccessedShareLink (db : DB) (linkID : Z) (ipAddress : string)
  : bool :=
  (0 <? Z.of_nat
          (length (List.filter (fun ip => String.eqb ip ipAddress)
                     (logged_ips db linkID)))).

(** [GetShareLinkByToken]: SELECT ... WHERE sl.token_hash = ?. *)
Definition GetShareLinkByToken (tokenHash : string) : M (option ShareLink.t) :=
  gets (fun db =>
          find (fun l => String.eqb (ShareLink.TokenHash l) tokenHash)
            (share_links db)).

(** [RecordShareAccess] of the database layer: INSERT INTO
    share_link_access. *)
Definition RecordShareAccess (access : ShareLinkAccess.t) : M unit :=
  fun db =>
    let id := next_access_id db in
    let row := ShareLinkAccess.mk id (ShareLinkAccess.ShareLinkID access)
                 (ShareLinkAccess.IPAddress access)
                 (ShareLinkAccess.UserAgent access) in
    Some (with_share_link_access db (share_link_access db ++ [row]) (id + 1),
          Ok tt).

(** [IncrementShareLinkViewCount]:
    UPDATE share_links SET view_count = view_count + 1 WHERE id = ?. *)
Definition IncrementShareLinkViewCount (linkID : Z) : M unit :=
  fun db =>
    Some (with_share_links db
            (List.map (fun l => if ShareLink.ID l =? linkID
                                then ShareLink.with_ViewCount l
                                       (ShareLink.ViewCount l + 1)
                                else l) (share_links db)),
          Ok tt).

(** [RevokeShareLink]: UPDATE share_links SET is_revoked = 1 WHERE id = ?. *)
Definition RevokeShareLink (linkID : Z) : M unit :=
  fun db =>
    Some (with_share_links db
            (List.map (fun l => if ShareLink.ID l =? linkID
                                then ShareLink.with_IsRevoked l true
                                else l) (share_links db)),
          Ok tt).

(** [DeleteShareLink]: DELETE FROM share_links WHERE id = ?; the access
    rows of the link go with it ([ON DELETE CASCADE]). *)
Definition DeleteShareLink (linkID : Z) : M unit :=
  fun db =>
    Some (mkDB (pages db) (next_page_id db) (revisions db) (next_revision_id db)
            (List.filter (fun l => negb (ShareLink.ID l =? linkID)) (share_links db))
            (List.filter (fun a => negb (ShareLinkAccess.ShareLinkID a =? linkID))
               (share_link_access db))
            (next_access_id db),
          Ok tt).

(** truncateUserAgent limits user agent length for storage. *)
Definition truncateUserAgent (ua : string) : string :=
  if (500 <? String.length ua)%nat then String.substring 0 500 ua else ua.

Section WithRequest.

(** [sanitizeIP], which rests on [net.ParseIP], and the clock. *)
Variable sanitizeIP : string -> string.
Variable now : Z.

(** validateShareLink checks all validity conditions for a share link;
    [None] is its [true], [Some r] is [false] with the reason it stores.
    [realIP] is [c.RealIP()]. *)
Definition validateShareLink (db : DB) (link : ShareLink.t) (realIP : string)
  : option DenialReason :=
  (* Check if revoked *)
  if ShareLink.IsRevoked link then Some Revoked
  (* Check expiration *)
  else if ShareLink.IsExpired now link then Some Expired
  (* Check view limit *)
  else if ShareLink.IsViewLimitReached link then Some ViewLimitReached
  else
    (* Check IP limit *)
    match ShareLink.MaxIPs link with
    | Some maxIPs =>
        let ipAddress := sanitizeIP realIP in
        let uniqueIPs := GetShareLinkUniqueIPCount db (ShareLink.ID link) in
        (* Check if this is a new IP and would exceed limit *)
        let hasAccessed :=
          HasIPAccessedShareLink db (ShareLink.ID link) ipAddress in
        if negb hasAccessed && (maxIPs <=? uniqueIPs) then Some IPLimitReached
        else None
    | None => None
    end.

(** [RecordShareAccess] of the middleware: the access row, then the view
    count. *)
Definition RecordShareAccess_mw (link : ShareLink.t) (realIP userAgent : string)
  : M unit :=
  RecordShareAccess
    (ShareLinkAccess.mk 0 (ShareLink.ID link) (sanitizeIP realIP)
       (truncateUserAgent userAgent)) ;;;
  IncrementShareLinkViewCount (ShareLink.ID link).

(** How one request that carries a token ends. *)
Inductive verdict := Granted | Denied (r : DenialReason) | UnknownToken.

(** One request for the shared page itself: [ShareMiddleware] looks the
    link up by the hash of the token and validates it; a valid access is
    then recorded. *)
Definition shared_request (tokenHash realIP userAgent : string) : M verdict :=
  found <- GetShareLinkByToken tokenHash ;;
  match found with
  | None => ret UnknownToken
  | Some link =>
      valid <- gets (fun db => validateShareLink db link realIP) ;;
      match valid with
      | Some r => ret (Denied r)
      | None => RecordShareAccess_mw link realIP userAgent ;;; ret Granted
      end
  end.

End WithRequest.

End Share.

(* ================================================================== *)
(** ** Share tokens: [generateSecureToken] and [isValidTokenFormat] *)
(* ================================================================== *)

Module Token.

Import Strings.
Open Scope Z_scope.

(** The alphabet of [base64.URLEncoding]. *)
Definition encodeURL : string :=
  "ABCDEFGHIJKLMNOPQRSTUVWXYZabcdefghijklmnopqrstuvwxyz0123456789-_".

(** [enc.encode[val&0x3F]] *)
Definition encode (val : Z) : ascii :=
  nth (Z.to_nat (Z.land val 63)) (list_ascii_of_string encodeURL) "A"%char.

(** [base64.RawURLEncoding.EncodeToString]: three bytes give four
    characters; a rest of two bytes gives three characters, a rest of one
    byte two, and no padding is written. *)
Fixpoint EncodeToString (src : list Z) : string :=
  match src with
  | b0 :: b1 :: b2 :: rest =>
      let val := Z.lor (Z.lor (Z.shiftl b0 16) (Z.shiftl b1 8)) b2 in
      String (encode (Z.shiftr val 18))
        (String (encode (Z.shiftr val 12))
           (String (encode (Z.shiftr val 6))
              (String (encode val) (EncodeToString rest))))
  | [b0; b1] =>
      let val := Z.lor (Z.shiftl b0 16) (Z.shiftl b1 8) in
      String (encode (Z.shiftr val 18))
        (String (encode (Z.shiftr val 12))
           (String (encode (Z.shiftr val 6)) EmptyString))
  | [b0] =>
      let val := Z.shiftl b0 16 in
      String (encode (Z.shiftr val 18))
        (String (encode (Z.shiftr val 12)) EmptyString)
  | [] => EmptyString
  end.

(** generateSecureToken generates a cryptographically secure random
    token; [random] is what [rand.Read] wrote into the 32 bytes. *)
Definition generateSecureToken (random : list Z) : string :=
  EncodeToString random.

(** The test of one rune in [isValidTokenFormat].  A byte outside ASCII
    belongs to a rune outside ASCII (or is read as U+FFFD), which fails
    the test as the byte itself does. *)
Definition token_rune (r : ascii) : bool :=
  is_upper r || is_lower r || is_digit r || Ascii.eqb r "-" || Ascii.eqb r "_".

(** isValidTokenFormat checks if a token has a valid format. *)
Definition isValidTokenFormat (token : string) : bool :=
  (* Allow some flexibility in length (40-50 chars) *)
  if (String.length token <? 40)%nat || (50 <? String.length token)%nat
  then false
  else
    (* Check for valid base64url characters *)
    Strings.forallb token_rune token.

End Token.

(* ================================================================== *)
(** ** [middleware.RateLimiter] and [middleware.LoginRateLimiter] *)
(* ================================================================== *)

Module RateLimit.

Open Scope Z_scope.

(** A Go map with string keys, as the function from a key to the value
    stored for it.  Instants ([time.Time]) and durations are numbers on
    one scale. *)
Definition table (V : Type) : Type := string -> option V.

Definition store {V} (m : table V) (k : string) (v : V) : table V :=
  fun k' => if String.eqb k' k then Some v else m k'.

Definition delete {V} (m : table V) (k : string) : table V :=
  fun k' => if String.eqb k' k then None else m k'.

Record rateLimitEntry := mkEntry {
  count : Z;
  expiresAt : Z
}.

Record RateLimiter := mkRateLimiter {
  requests : table rateLimitEntry;
  maxRequests : Z;
  window : Z
}.

(** allow checks if a request should be allowed; [now] is [time.Now()]. *)
Definition allow (now : Z) (clientID : string) (rl : RateLimiter)
  : RateLimiter * bool :=
  let fresh :=
    (mkRateLimiter
       (store (requests rl) clientID (mkEntry 1 (now + window rl)))
       (maxRequests rl) (window rl), true) in
  match requests rl clientID with
  | None => fresh
  | Some entry =>
      if expiresAt entry <? now then fresh   (* now.After(entry.expiresAt) *)
      (* Check if limit exceeded *)
      else if maxRequests rl <=? count entry then (rl, false)
      else
        (mkRateLimiter
           (store (requests rl) clientID
              (mkEntry (count entry + 1) (expiresAt entry)))
           (maxRequests rl) (window rl), true)
  end.

(** One round of the loop of [cleanup]: the expired entries are removed. *)
Definition cleanup (now : Z) (rl : RateLimiter) : RateLimiter :=
  mkRateLimiter
    (fun k => match requests rl k with
              | Some entry => if expiresAt entry <? now then None else Some entry
              | None => None
              end)
    (maxRequests rl) (window rl).

(** [lockedAt] is [None] for the zero instant [time.Time{}]. *)
Record loginAttempt := mkAttempt {
  tries : Z;              (* count *)
  lockedAt : option Z;
  lastTry : Z
}.

Record LoginRateLimiter := mkLoginRateLimiter {
  attempts : table loginAttempt;
  maxAttempts : Z;
  lockoutTime : Z
}.

Definition with_attempts (lrl : LoginRateLimiter) (m : table loginAttempt)
  : LoginRateLimiter :=
  mkLoginRateLimiter m (maxAttempts lrl) (lockoutTime lrl).

(** Check returns true if login attempt should be allowed, and the time
    that remains of a lockout otherwise. *)
Definition Check (now : Z) (identifier : string) (lrl : LoginRateLimiter)
  : LoginRateLimiter * (bool * Z) :=
  match attempts lrl identifier with
  | None =>
      (with_attempts lrl (store (attempts lrl) identifier (mkAttempt 0 None now)),
       (true, 0))
  | Some attempt =>
      (* Check if in lockout period *)
      match lockedAt attempt with
      | Some locked =>
          let remaining := locked + lockoutTime lrl - now in
          if 0 <? remaining then (lrl, (false, remaining))
          else
            (* Lockout expired, reset *)
            (with_attempts lrl
               (store (attempts lrl) identifier
                  (mkAttempt 0 None (lastTry attempt))),
             (true, 0))
      | None => (lrl, (true, 0))
      end
  end.

(** RecordFailure records a failed login attempt. *)
Definition RecordFailure (now : Z) (identifier : string) (lrl : LoginRateLimiter)
  : LoginRateLimiter :=
  match attempts lrl identifier with
  | None =>
      with_attempts lrl (store (attempts lrl) identifier (mkAttempt 1 None now))
  | Some attempt =>
      let n := tries attempt + 1 in
      with_attempts lrl
        (store (attempts lrl) identifier
           (mkAttempt n
              (if maxAttempts lrl <=? n then Some now else lockedAt attempt)
              now))
  end.

(** RecordSuccess clears failed attempts after successful login. *)
Definition RecordSuccess (identifier : string) (lrl : LoginRateLimiter)
  : LoginRateLimiter :=
  with_attempts lrl (delete (attempts lrl) identifier).

(** One round of the loop of [LoginRateLimiter.cleanup]: the entries that
    haven't been used in a while are removed. *)
Definition cleanup_logins (now : Z) (lrl : LoginRateLimiter) : LoginRateLimiter :=
  with_attempts lrl
    (fun k => match attempts lrl k with
              | Some attempt =>
                  if lockoutTime lrl * 2 <? now - lastTry attempt then None
                  else Some attempt
              | None => None
              end).

(** How [Handlers.Login] answers, as far as the limiter is concerned. *)
Inductive LoginAnswer :=
| TooManyRequests (remaining : Z)
| BadRequest
| Unauthorized
| LoggedIn.

(** The use [Handlers.Login] makes of the limiter: [blank] says that the
    username or the password is empty, [authenticated] that
    [Authenticate] accepts them. *)
Definition Login (now : Z) (clientIP : string) (blank authenticated : bool)
  (lrl : LoginRateLimiter) : LoginRateLimiter * LoginAnswer :=
  (* Rate limiting check *)
  let checked := Check now clientIP lrl in
  let lrl := fst checked in
  if negb (fst (snd checked)) then (lrl, TooManyRequests (snd (snd checked)))
  (* Validate input *)
  else if blank then (lrl, BadRequest)
  (* Authenticate *)
  else if negb authenticated then
    (* Record failed attempt *)
    (RecordFailure now clientIP lrl, Unauthorized)
  else
    (* Clear rate limit on success *)
    (RecordSuccess clientIP lrl, LoggedIn).

End RateLimit.

(* ================================================================== *)
(** ** Roles, API token scopes and backup file names *)
(* ================================================================== *)

Module Role.

(** Role represents user permission levels. *)
Definition RoleAdmin : string := "admin".
Definition RoleEditor : string := "editor".
Definition RoleViewer : string := "viewer".

(** IsValid checks if the role is a valid value. *)
Definition IsValid (r : string) : bool :=
  String.eqb r RoleAdmin || String.eqb r RoleEditor || String.eqb r RoleViewer.

(** CanEdit returns true if the role has edit permissions. *)
Definition CanEdit (r : string) : bool :=
  String.eqb r RoleAdmin || String.eqb r RoleEditor.

(** CanAdmin returns true if the role has admin permissions. *)
Definition CanAdmin (r : string) : bool := String.eqb r RoleAdmin.

(** What [RequireRole] does with a request. *)
Inductive Answer := RedirectToLogin | Forbidden | Next.

(** RequireRole middleware ensures user has at least the specified role;
    [user] is the role of the user of the request, if there is one. *)
Definition RequireRole (minRole : string) (user : option string) : Answer :=
  match user with
  | None => RedirectToLogin
  | Some role =>
      let hasPermission :=
        if String.eqb minRole RoleViewer then true
        else if String.eqb minRole RoleEditor then CanEdit role
        else if String.eqb minRole RoleAdmin then CanAdmin role
        else false in
      if negb hasPermission then Forbidden else Next
  end.

End Role.

Module APIToken.

Import Strings.

(** HasScope checks if the token has a specific scope; [scopes] is the
    field [Scopes] of the token. *)
Definition HasScope (scopes scope : string) : bool :=
  existsb (fun s => String.eqb (TrimSpace s) scope
                    || String.eqb (TrimSpace s) "admin")
    (Split scopes ",").

(** ScopeList returns the scopes as a slice. *)
Definition ScopeList (scopes : string) : list string :=
  List.filter (fun s => negb (String.eqb s ""))
    (List.map TrimSpace (Split scopes ",")).

End APIToken.

Module Backup.

Import Strings.




End Backup.

(* ================================================================== *)
(** ** Notions the statements below are written with *)
(* ================================================================== *)

Import Strings Regexp Markdown Database Queries Share.

Open Scope Z_scope.

(** What the schema guarantees of every database: page ids are a primary
    key handed out in increasing order, and a revision belongs to a page
    that was created. *)
Record db_wf (db : DB) : Prop := mk_db_wf {
  wf_nodup : NoDup (List.map Page.ID (pages db));
  wf_fresh : Forall (fun p => Page.ID p < next_page_id db) (pages db);
  wf_revs : Forall (fun r => Revision.PageID r < next_page_id db) (revisions db)
}.

(** The database after [news] were appended to the page table. *)
Definition grown (db : DB) (news : list Page.t) : DB :=
  mkDB (pages db ++ news) (next_page_id db + Z.of_nat (length news))
    (revisions db) (next_revision_id db) (share_links db)
    (share_link_access db) (next_access_id db).

(** What every placeholder looks like. *)
Definition is_placeholder (authorID : Z) (db : DB) (p : Page.t) : Prop :=
  Page.Content p = "" /\ Page.IsPublished p = true /\
  Page.AuthorID p = authorID /\ next_page_id db <= Page.ID p.

(** The placeholder [ensureParentPages] inserts for the prefix that ends
    with segment [i] of [parts]. *)
Definition placeholder (Render : string -> option string) (authorID : Z) (parts : list string) (i : nat)
  (parentID : option Z) (id : Z) : Page.t :=
  Page.mk id (Join (firstn (i + 1) parts) "/")
    (Title (ReplaceAll (nth i parts "") "-" " ")) ""
    (match Render "" with Some h => h | None => "" end)
    authorID parentID true.

(** The slug [CreatePage] settles on. *)
Definition create_slug (input : PageCreate.t) : string :=
  if String.eqb (TrimSpace (PageCreate.Slug input)) ""
  then Slugify (PageCreate.Title input)
  else Slugify (TrimSpace (PageCreate.Slug input)).

(** The validity of a link as the data model words it. *)
Definition link_valid (sanitizeIP : string -> string) (now : Z) (db : DB) (link : ShareLink.t) (realIP : string) : Prop :=
  ShareLink.IsRevoked link = false /\
  (forall e, ShareLink.ExpiresAt link = Some e -> now <= e) /\
  (forall m, ShareLink.MaxViews link = Some m -> ShareLink.ViewCount link < m) /\
  (forall m, ShareLink.MaxIPs link = Some m ->
     In (sanitizeIP realIP) (logged_ips db (ShareLink.ID link)) \/
     Z.of_nat (length (nodup string_dec (logged_ips db (ShareLink.ID link)))) < m).

(** Data for the examples: a renderer that always succeeds, an empty
    database, and the two pages of the rename example. *)
Definition render_id (markdown : string) : option string := Some markdown.

Definition empty_db : DB := mkDB [] 1 [] 1 [] [] 1.

Definition linux_db : DB :=
  mkDB [Page.mk 1 "linux" "Linux" "about linux" "about linux" 1 None true;
        Page.mk 2 "linux/ubuntu" "Ubuntu" "about ubuntu" "about ubuntu" 1
          (Some 1) true]
    3 [] 1 [] [] 1.

(** The descendants of the page [root]: the pages reached from it by
    following parent links backwards, one or more times. *)
Inductive Descendant (ps : list Page.t) (root : Z) : Page.t -> Prop :=
| Descendant_child p :
    In p ps -> Page.ParentID p = Some root -> Descendant ps root p
| Descendant_step p q :
    In p ps -> Page.ParentID p = Some (Page.ID q) -> Descendant ps root q ->
    Descendant ps root p.

(** The page table after the rename ["linux"] to ["linux/x"] of [linux_db]:
    the page has become its own parent. *)
Definition self_parent_db : DB :=
  mkDB [Page.mk 1 "linux/x" "Linux" "about linux" "about linux" 1 (Some 1) true;
        Page.mk 2 "linux/x/ubuntu" "Ubuntu" "about ubuntu" "about ubuntu" 1
          (Some 1) true]
    3 [] 1 [] [] 1.

(** Number of rows of a query result that carry the id [id]. *)
Definition cnt (id : Z) (l : list (Z * string)) : nat :=
  length (List.filter (fun d => fst d =? id) l).

Definition has_parent (p : Page.t) (x : Z) : bool :=
  match Page.ParentID p with
  | Some q => q =? x
  | None => false
  end.

(** How often the traversal from [root] must have produced the page [p],
    given the rows [l] it has taken from its queue. *)
Definition produced (root : Z) (p : Page.t) (l : list (Z * string)) : nat :=
  match Page.ParentID p with
  | Some q => (cnt q l + (if (q =? root)%Z then 1 else 0))%nat
  | None => 0%nat
  end.

(** Rounds the traversal spends below [id] when no chain of children of
    [id] is longer than [n]. *)
Fixpoint weight (ps : list Page.t) (n : nat) (id : Z) : nat :=
  match n with
  | O => 1
  | S n' => S (list_sum (List.map (fun d => weight ps n' (fst d)) (children ps id)))
  end.

(** The slug a descendant is given when [oldSlug] becomes [newSlug]. *)
Definition moved (oldSlug newSlug slug : string) : string :=
  (newSlug ++ TrimPrefix slug oldSlug)%string.

(** Does the cascade rewrite the row [(id, slug)]? *)
Definition under (oldSlug : string) (d : Z * string) : bool :=
  HasPrefix (snd d) (oldSlug ++ "/").

(** The page table after the cascade has gone through [rows]. *)
Definition cascaded (oldSlug newSlug : string) (rows : list (Z * string))
  (ps : list Page.t) : list Page.t :=
  fold_left
    (fun ps d =>
       update_rows (fst d)
         (fun p => Page.with_Slug p (moved oldSlug newSlug (snd d))) ps)
    (List.filter (under oldSlug) rows) ps.

(** Is the page [p] among the rows the cascade rewrites? *)
Definition rewritten (oldSlug : string) (rows : list (Z * string)) (p : Page.t)
  : bool :=
  existsb (fun d => fst d =? Page.ID p) (List.filter (under oldSlug) rows).

(** Does the update supply a content that differs from the page's? *)
Definition content_changes (input : PageUpdate.t) (page : Page.t) : bool :=
  match PageUpdate.Content input with
  | Some c => negb (String.eqb c (Page.Content page))
  | None => false
  end.

(** The database after the pre-change content of [page] was recorded. *)
Definition recorded (db : DB) (page : Page.t) (authorID : Z) (comment : string)
  : DB :=
  with_revisions db
    (revisions db ++
       [Revision.mk (next_revision_id db) (Page.ID page) (Page.Content page)
          authorID comment])
    (next_revision_id db + 1).

(** [p1] is the row [p] with, at most, another slug. *)
Definition same_but_slug (p p1 : Page.t) : Prop :=
  exists slug, p1 = Page.with_Slug p slug.

(** A wiki of one page with content ["A"] and no revision yet. *)
Definition one_page_db : DB :=
  mkDB [Page.mk 1 "notes" "Notes" "A" "A" 1 None true] 2 [] 1 [] [] 1.

(** An update that only supplies a content. *)
Definition set_content (c : string) : PageUpdate.t :=
  PageUpdate.mk None None (Some c) None.

(** A wiki in which ["b/y"] has lost its parent ["b"] (the parent was
    deleted alone), next to the page ["a"] with two children. *)
Definition orphan_db : DB :=
  mkDB [Page.mk 1 "a" "A" "" "" 1 None true;
        Page.mk 2 "a/x" "X" "" "" 1 (Some 1) true;
        Page.mk 3 "a/y" "Y" "" "" 1 (Some 1) true;
        Page.mk 4 "b/y" "Y" "" "" 1 None true]
    6 [] 1 [] [] 1.

(** Levels of the pages of [linux_db]: the page [1] lies above its child. *)
Definition linux_height (id : Z) : nat := if id =? 1 then 1%nat else 0%nat.

(** Does [a] occur in [s] immediately followed by [b]? *)
Fixpoint adjacent (a b : ascii) (s : string) : bool :=
  match s with
  | EmptyString => false
  | String c s' =>
      match s' with
      | EmptyString => false
      | String d _ => (Ascii.eqb c a && Ascii.eqb d b) || adjacent a b s'
      end
  end.

(** Does a match of [-*/+-*] start at the first byte of [s]? *)
Definition starts_around_slash (s : string) : bool :=
  match match_at re_around_slash s with
  | Some (S _) => true
  | _ => false
  end.


(** The ids of the pages of a database. *)
Definition ids_of (db : DB) : list Z := List.map Page.ID (pages db).

(** What [UNIQUE ... COLLATE NOCASE] compares of a slug. *)
Definition slug_key (slug : string) : string := Strings.map lower_byte slug.

Definition olist (o : option Z) : list Z :=
  match o with
  | Some q => [q]
  | None => []
  end.

(** The ids a row that was read vouches for: its own and its parent's. *)
Definition row_ids (o : option Page.t) : list Z :=
  match o with
  | Some e => Page.ID e :: olist (Page.ParentID e)
  | None => []
  end.

(** The constraints of the schema on pages and revisions: [id] is a
    primary key handed out in increasing order, in [pages] and in
    [revisions]; [slug] is unique under [NOCASE]; [parent_id] and
    [revisions.page_id] reference a page. *)
Record store_ok (db : DB) : Prop := mk_store_ok {
  ok_ids : NoDup (ids_of db);
  ok_fresh : Forall (fun p => Page.ID p < next_page_id db) (pages db);
  ok_slugs : NoDup (List.map (fun p => slug_key (Page.Slug p)) (pages db));
  ok_parents : Forall (fun p => incl (olist (Page.ParentID p)) (ids_of db)) (pages db);
  ok_revisions : Forall (fun r => In (Revision.PageID r) (ids_of db)) (revisions db);
  ok_rev_ids : NoDup (List.map Revision.ID (revisions db));
  ok_rev_fresh : Forall (fun r => Revision.ID r < next_revision_id db) (revisions db)
}.

(** The program [c], run on a store that meets its constraints and has
    the pages [need], leaves a store that meets them, whatever it returns;
    it removes no page; and the pages [out a] exist when it returns [a]. *)
Definition keeps {A} (need : list Z) (c : M A) (out : A -> list Z) : Prop :=
  forall db db' r,
    store_ok db -> incl need (ids_of db) -> c db = Some (db', r) ->
    store_ok db' /\ incl (ids_of db) (ids_of db') /\
    forall a, r = Ok a -> incl (out a) (ids_of db').

(** The page a lookup finds for the path made of the first [i + 1]
    segments of [parts], and the parent link a page at that path is given:
    none at the top, the id of the page one level up below. *)
Definition ancestor (parts : list string) (i : nat) (db : DB) : option Page.t :=
  find (fun q => nocase_eqb (Page.Slug q) (Join (firstn (i + 1) parts) "/"))
    (pages db).

Definition parent_link (parts : list string) (i : nat) (db : DB) : option Z :=
  match i with
  | O => None
  | S j => option_map Page.ID (ancestor parts j db)
  end.

(** The columns [GetPagePath] selects of a page. *)
Definition summary (p : Page.t) : PageSummary.t :=
  PageSummary.mk (Page.ID p) (Page.Slug p) (Page.Title p).

(** The pages from the top of the hierarchy down to [p], each the parent
    of the next; the first has no parent among the pages. *)
Inductive Lineage (ps : list Page.t) : list Page.t -> Page.t -> Prop :=
| Lineage_top p :
    In p ps ->
    (forall q, In q ps -> Page.ParentID p <> Some (Page.ID q)) ->
    Lineage ps [p] p
| Lineage_down l q p :
    Lineage ps l q -> In p ps -> Page.ParentID p = Some (Page.ID q) ->
    Lineage ps (l ++ [p]) p.

(** The rows of [ancestors] for the pages [l], the first at depth [d]. *)
Definition numbered (l : list Page.t) (d : nat) : list (Page.t * nat) :=
  combine l (seq d (length l)).

(** Levels of the pages of [linux_db], counted from the top. *)
Definition linux_rank (id : Z) : nat := if id =? 1 then 0%nat else 1%nat.

(** A request for a shared page: when it arrives, from where, and with
    which user agent. *)
Record Request := mkRequest {
  req_now : Z;
  req_ip : string;
  req_agent : string
}.

(** The requests [reqs], all presenting the token with the hash
    [tokenHash], served one after the other: the database they leave and
    the answers they get. *)
Fixpoint serve (sanitizeIP : string -> string) (tokenHash : string)
  (reqs : list Request) (db : DB) : DB * list verdict :=
  match reqs with
  | [] => (db, [])
  | r :: rest =>
      match shared_request sanitizeIP (req_now r) tokenHash (req_ip r)
              (req_agent r) db with
      | Some (db1, Ok v) =>
          let out := serve sanitizeIP tokenHash rest db1 in
          (fst out, v :: snd out)
      | _ => (db, [])
      end
  end.

(** How many of the answers grant access. *)
Definition grants (vs : list verdict) : Z :=
  Z.of_nat (length (List.filter (fun v => match v with Granted => true | _ => false end) vs)).

(** A link with a limit of three views and two addresses, and a database
    that holds it. *)
Definition limited_link : ShareLink.t :=
  ShareLink.mk 1 "h" 1 1 false (Some 3) (Some 2) None false 0.

Definition shared_db : DB :=
  mkDB [Page.mk 1 "linux" "Linux" "about linux" "about linux" 1 None true]
    2 [] 1 [limited_link] [] 1.

(** The requests of one client at the instants [times], put to the rate
    limiter one after the other. *)
Fixpoint allow_all (clientID : string) (times : list Z) (rl : RateLimit.RateLimiter)
  : RateLimit.RateLimiter * list bool :=
  match times with
  | [] => (rl, [])
  | t :: ts =>
      let r := RateLimit.allow t clientID rl in
      let rest := allow_all clientID ts (fst r) in
      (fst rest, snd r :: snd rest)
  end.

(** Logins with wrong credentials from one address at the instants
    [times], one after the other. *)
Fixpoint fail_all (clientIP : string) (times : list Z)
  (lrl : RateLimit.LoginRateLimiter)
  : RateLimit.LoginRateLimiter * list RateLimit.LoginAnswer :=
  match times with
  | [] => (lrl, [])
  | t :: ts =>
      let r := RateLimit.Login t clientIP false false lrl in
      let rest := fail_all clientIP ts (fst r) in
      (fst rest, snd r :: snd rest)
  end.

(** Limiters that hold no entry yet: five requests in a window of sixty,
    three attempts and a lockout of nine hundred. *)
Definition empty_limiter : RateLimit.RateLimiter :=
  RateLimit.mkRateLimiter (fun _ => None) 5 60.

Definition empty_login_limiter : RateLimit.LoginRateLimiter :=
  RateLimit.mkLoginRateLimiter (fun _ => None) 3 900.

(** The address [clientIP] is not locked out and has [c] failures on its
    count: it has no entry and [c] is 0, or an entry that says so. *)
Definition unlocked (lrl : RateLimit.LoginRateLimiter) (clientIP : string) (c : Z)
  : Prop :=
  (RateLimit.attempts lrl clientIP = None /\ c = 0) \/
  (exists last,
     RateLimit.attempts lrl clientIP = Some (RateLimit.mkAttempt c None last)).

(** The wiki of one page after its content ["A"] was replaced by ["B"]:
    the revision holds the content the page had. *)
Definition edited_db : DB :=
  mkDB [Page.mk 1 "notes" "Notes" "B" "B" 1 None true] 2
    [Revision.mk 1 1 "A" 1 "first edit"] 2 [] [] 1.

(** The parent link of a row after the page [id] was deleted. *)
Definition orphan (id : Z) (p : Page.t) : Page.t :=
  match Page.ParentID p with
  | Some q => if q =? id then Page.with_ParentID p None else p
  | None => p
  end.

(* ================================================================== *)
(** * Properties *)
(* ================================================================== *)

Import Strings Regexp Markdown Database Queries.

(** ** Running programs of the monad *)

Lemma bind_Ok {A B} (c : M A) (k : A -> M B) db db' b :
  bind c k db = Some (db', Ok b) ->
  exists db1 a, c db = Some (db1, Ok a) /\ k a db1 = Some (db', Ok b).
Proof.
  unfold bind. destruct (c db) as [[db1 [a | e]] |]; intros H; try discriminate.
  exists db1, a. split; [reflexivity | exact H].
Qed.

Lemma bind_Some {A B} (c : M A) (k : A -> M B) db db' r :
  bind c k db = Some (db', r) ->
  (exists e, c db = Some (db', Err e) /\ r = Err e) \/
  (exists db1 a, c db = Some (db1, Ok a) /\ k a db1 = Some (db', r)).
Proof.
  unfold bind. destruct (c db) as [[db1 [a | e]] |]; intros H; try discriminate.
  - right. exists db1, a. split; [reflexivity | exact H].
  - left. inversion H; subst. exists e. split; reflexivity.
Qed.

Lemma wrap_Ok {A} ctx (c : M A) db db' a :
  wrap ctx c db = Some (db', Ok a) -> c db = Some (db', Ok a).
Proof.
  unfold wrap. destruct (c db) as [[db1 [x | e]] |]; intros H;
    try discriminate; exact H.
Qed.

Lemma logged_Some {A} (c : M A) db db' r :
  logged c db = Some (db', r) -> r = Ok tt /\ exists r', c db = Some (db', r').
Proof.
  unfold logged. destruct (c db) as [[db1 x] |]; intros H; try discriminate.
  inversion H; subst. split; [reflexivity | exists x; reflexivity].
Qed.

(* ------------------------------------------------------------------ *)
(** ** Share links *)
(* ------------------------------------------------------------------ *)

Import Share.

Lemma HasIPAccessed_In db linkID ip :
  HasIPAccessedShareLink db linkID ip = true <-> In ip (logged_ips db linkID).
Proof.
  unfold HasIPAccessedShareLink.
  induction (logged_ips db linkID) as [| x l IH]; simpl.
  - split; [discriminate | tauto].
  - destruct (String.eqb_spec x ip) as [-> | Hne].
    + split; [intros _; left; reflexivity | intros _].
      apply Z.ltb_lt. simpl. lia.
    + rewrite IH. split; [tauto | intros [H | H]; [congruence | exact H]].
Qed.

Lemma find_map_preserved {A} (f : A -> bool) (g : A -> A) (l : list A) :
  (forall x, f (g x) = f x) ->
  find f (List.map g l) = option_map g (find f l).
Proof.
  intros Hg. induction l as [| x l IH]; simpl; [reflexivity |].
  rewrite Hg. destruct (f x); [reflexivity | exact IH].
Qed.

Section ShareProperties.

Open Scope Z_scope.

Variable sanitizeIP : string -> string.
Variable now : Z.

(** A valid access is recorded: the view count of the link goes up by one
    and the sanitized address is appended to its log. *)
Lemma shared_request_granted db h l ip ua :
  GetShareLinkByToken h db = Some (db, Ok (Some l)) ->
  validateShareLink sanitizeIP now db l ip = None ->
  exists db',
    shared_request sanitizeIP now h ip ua db = Some (db', Ok Granted) /\
    GetShareLinkByToken h db' =
      Some (db', Ok (Some (ShareLink.with_ViewCount l (ShareLink.ViewCount l + 1)))) /\
    logged_ips db' (ShareLink.ID l) =
      logged_ips db (ShareLink.ID l) ++ [sanitizeIP ip].
Proof.
  intros Hfind Hval.
  unfold shared_request, bind. rewrite Hfind.
  unfold gets at 1. rewrite Hval.
  unfold RecordShareAccess_mw, bind, RecordShareAccess,
    IncrementShareLinkViewCount, ret. cbn [fst snd].
  eexists. split; [reflexivity |]. split.
  - unfold GetShareLinkByToken, gets in *. cbn [share_links with_share_links
      with_share_link_access] in *.
    inversion Hfind as [Hf].
    rewrite find_map_preserved.
    + rewrite Hf. cbn [option_map]. rewrite Z.eqb_refl. reflexivity.
    + intros x. destruct (ShareLink.ID x =? ShareLink.ID l); reflexivity.
  - unfold logged_ips. cbn [share_link_access with_share_links
      with_share_link_access]. rewrite filter_app, map_app. cbn.
    rewrite Z.eqb_refl. reflexivity.
Qed.

Lemma shared_request_denied db h l ip ua r :
  GetShareLinkByToken h db = Some (db, Ok (Some l)) ->
  validateShareLink sanitizeIP now db l ip = Some r ->
  shared_request sanitizeIP now h ip ua db = Some (db, Ok (Denied r)).
Proof.
  intros Hfind Hval. unfold shared_request, bind. rewrite Hfind.
  unfold gets at 1. rewrite Hval. reflexivity.
Qed.

End ShareProperties.

Section ShareScenarios.

Open Scope Z_scope.

Variable sanitizeIP : string -> string.
Variable now : Z.



Lemma validate_iff db link ip :
  validateShareLink sanitizeIP now db link ip = None <-> link_valid sanitizeIP now db link ip.
Proof.
  unfold validateShareLink, link_valid, ShareLink.IsExpired,
    ShareLink.IsViewLimitReached, GetShareLinkUniqueIPCount.
  pose proof (HasIPAccessed_In db (ShareLink.ID link) (sanitizeIP ip)) as Hacc.
  destruct (ShareLink.IsRevoked link), (ShareLink.ExpiresAt link) as [e |],
    (ShareLink.MaxViews link) as [m |], (ShareLink.MaxIPs link) as [k |],
    (HasIPAccessedShareLink db (ShareLink.ID link) (sanitizeIP ip));
    repeat match goal with
      | |- context [Z.ltb ?a ?b] => destruct (Z.ltb_spec a b)
      | |- context [Z.leb ?a ?b] => destruct (Z.leb_spec a b)
      end; cbn [negb andb];
    (split;
     [ intros Hv; try discriminate Hv;
       repeat split; try reflexivity;
       intros x Hx; inversion Hx; subst;
       first [ lia | left; apply Hacc; reflexivity | right; lia ]
     | intros (Hrev & Hexp & Hviews & Hips); try discriminate Hrev;
       repeat match goal with
         | H : forall x, Some ?a = Some x -> _ |- _ => specialize (H a eq_refl)
         end;
       first
         [ reflexivity
         | lia
         | destruct Hips as [Hips | Hips];
           [ apply Hacc in Hips; discriminate Hips | lia ] ] ]).
Qed.

End ShareScenarios.

Section ShareOrder.

Open Scope Z_scope.

Variable sanitizeIP : string -> string.

(** The reason of a refusal is decided in the order of the checks. *)
Lemma validate_order now db link ip :
  (ShareLink.IsRevoked link = true ->
   validateShareLink sanitizeIP now db link ip = Some Revoked) /\
  (ShareLink.IsRevoked link = false -> ShareLink.IsExpired now link = true ->
   validateShareLink sanitizeIP now db link ip = Some Expired) /\
  (ShareLink.IsRevoked link = false -> ShareLink.IsExpired now link = false ->
   ShareLink.IsViewLimitReached link = true ->
   validateShareLink sanitizeIP now db link ip = Some ViewLimitReached) /\
  (ShareLink.IsRevoked link = false -> ShareLink.IsExpired now link = false ->
   ShareLink.IsViewLimitReached link = false ->
   validateShareLink sanitizeIP now db link ip <> None ->
   validateShareLink sanitizeIP now db link ip = Some IPLimitReached).
Proof.
  unfold validateShareLink.
  repeat split; intros; repeat match goal with H : _ = _ |- _ => rewrite H in * end;
    try reflexivity.
  destruct (ShareLink.MaxIPs link); [| congruence].
  match goal with |- (if ?b then _ else _) = _ => destruct b end;
    [reflexivity | congruence].
Qed.

(** With [maxViews = 2] two requests are let in and the third is refused
    for the view limit, whatever the three addresses are. *)
Lemma third_view_refused now1 now2 now3 db h l ua ip1 ip2 ip3 :
  GetShareLinkByToken h db = Some (db, Ok (Some l)) ->
  ShareLink.IsRevoked l = false ->
  ShareLink.ExpiresAt l = None ->
  ShareLink.MaxViews l = Some 2 ->
  ShareLink.ViewCount l = 0 ->
  ShareLink.MaxIPs l = None ->
  exists db1 db2,
    shared_request sanitizeIP now1 h ip1 ua db = Some (db1, Ok Granted) /\
    shared_request sanitizeIP now2 h ip2 ua db1 = Some (db2, Ok Granted) /\
    shared_request sanitizeIP now3 h ip3 ua db2 =
      Some (db2, Ok (Denied ViewLimitReached)).
Proof.
  intros Hfind Hrev Hexp Hmax Hcount Hips.
  destruct (shared_request_granted sanitizeIP now1 db h l ip1 ua Hfind)
    as (db1 & Hr1 & Hfind1 & _).
  { unfold validateShareLink, ShareLink.IsExpired, ShareLink.IsViewLimitReached.
    rewrite Hrev, Hexp, Hmax, Hcount, Hips. reflexivity. }
  destruct (shared_request_granted sanitizeIP now2 db1 h _ ip2 ua Hfind1)
    as (db2 & Hr2 & Hfind2 & _).
  { unfold validateShareLink, ShareLink.IsExpired, ShareLink.IsViewLimitReached.
    cbn. rewrite Hrev, Hexp, Hmax, Hcount, Hips. reflexivity. }
  exists db1, db2. repeat split; try assumption.
  apply (shared_request_denied sanitizeIP now3 db2 h _ ip3 ua _ Hfind2).
  unfold validateShareLink, ShareLink.IsExpired, ShareLink.IsViewLimitReached.
  cbn. rewrite Hrev, Hexp, Hmax, Hcount. reflexivity.
Qed.

(** With [maxUniqueIPs = 1] the first address is let in, a second one is
    refused for the address limit, and the first one is let in again. *)
Lemma second_address_refused now1 now2 now3 db h l ua ip1 ip2 :
  GetShareLinkByToken h db = Some (db, Ok (Some l)) ->
  ShareLink.IsRevoked l = false ->
  ShareLink.ExpiresAt l = None ->
  ShareLink.MaxViews l = None ->
  ShareLink.MaxIPs l = Some 1 ->
  logged_ips db (ShareLink.ID l) = [] ->
  sanitizeIP ip2 <> sanitizeIP ip1 ->
  exists db1 db2,
    shared_request sanitizeIP now1 h ip1 ua db = Some (db1, Ok Granted) /\
    shared_request sanitizeIP now2 h ip2 ua db1 =
      Some (db1, Ok (Denied IPLimitReached)) /\
    shared_request sanitizeIP now3 h ip1 ua db1 = Some (db2, Ok Granted).
Proof.
  intros Hfind Hrev Hexp Hmax Hips Hlog Hne.
  destruct (shared_request_granted sanitizeIP now1 db h l ip1 ua Hfind)
    as (db1 & Hr1 & Hfind1 & Hlog1).
  { unfold validateShareLink, ShareLink.IsExpired, ShareLink.IsViewLimitReached,
      GetShareLinkUniqueIPCount, HasIPAccessedShareLink.
    rewrite Hrev, Hexp, Hmax, Hips, Hlog. reflexivity. }
  rewrite Hlog in Hlog1. cbn [app] in Hlog1.
  assert (Hv1 : validateShareLink sanitizeIP now3 db1
                  (ShareLink.with_ViewCount l (ShareLink.ViewCount l + 1)) ip1 = None).
  { unfold validateShareLink, ShareLink.IsExpired, ShareLink.IsViewLimitReached,
      GetShareLinkUniqueIPCount, HasIPAccessedShareLink.
    cbn. rewrite Hrev, Hexp, Hmax, Hips, Hlog1. cbn.
    rewrite String.eqb_refl. reflexivity. }
  destruct (shared_request_granted sanitizeIP now3 db1 h _ ip1 ua Hfind1 Hv1)
    as (db2 & Hr3 & _ & _).
  exists db1, db2. repeat split; try assumption.
  apply (shared_request_denied sanitizeIP now2 db1 h _ ip2 ua _ Hfind1).
  unfold validateShareLink, ShareLink.IsExpired, ShareLink.IsViewLimitReached,
    GetShareLinkUniqueIPCount, HasIPAccessedShareLink.
  cbn. rewrite Hrev, Hexp, Hmax, Hips, Hlog1. cbn.
  destruct (String.eqb_spec (sanitizeIP ip1) (sanitizeIP ip2)) as [E | _];
    [congruence | reflexivity].
Qed.

End ShareOrder.

(** C4.  A share link admits a request exactly when it is not revoked, not
    expired, below its view cap, and - under an address cap - either the
    requesting address is already in its access log or the number of
    distinct logged addresses is below the cap; a refusal names the first
    failing check in the order Revoked, Expired, ViewLimitReached,
    IPLimitReached; with a view cap of 2 the third request is refused for
    the view limit whatever its address, and with an address cap of 1 a
    second address is refused while the first is still admitted. *)
Theorem share_link_validation :
  forall (sanitizeIP : string -> string) (now : Z) (db : DB)
         (link : ShareLink.t) (realIP : string),
    (validateShareLink sanitizeIP now db link realIP = None <->
     link_valid sanitizeIP now db link realIP) /\
    (ShareLink.IsRevoked link = true ->
     validateShareLink sanitizeIP now db link realIP = Some Revoked) /\
    (ShareLink.IsRevoked link = false -> ShareLink.IsExpired now link = true ->
     validateShareLink sanitizeIP now db link realIP = Some Expired) /\
    (ShareLink.IsRevoked link = false -> ShareLink.IsExpired now link = false ->
     ShareLink.IsViewLimitReached link = true ->
     validateShareLink sanitizeIP now db link realIP = Some ViewLimitReached) /\
    (ShareLink.IsRevoked link = false -> ShareLink.IsExpired now link = false ->
     ShareLink.IsViewLimitReached link = false ->
     validateShareLink sanitizeIP now db link realIP <> None ->
     validateShareLink sanitizeIP now db link realIP = Some IPLimitReached) /\
    (forall now2 now3 h ua ip2 ip3,
       GetShareLinkByToken h db = Some (db, Ok (Some link)) ->
       ShareLink.IsRevoked link = false ->
       ShareLink.ExpiresAt link = None ->
       ShareLink.MaxViews link = Some 2%Z ->
       ShareLink.ViewCount link = 0%Z ->
       ShareLink.MaxIPs link = None ->
       exists db1 db2,
         shared_request sanitizeIP now h realIP ua db = Some (db1, Ok Granted) /\
         shared_request sanitizeIP now2 h ip2 ua db1 = Some (db2, Ok Granted) /\
         shared_request sanitizeIP now3 h ip3 ua db2 =
           Some (db2, Ok (Denied ViewLimitReached))) /\
    (forall now2 now3 h ua ip2,
       GetShareLinkByToken h db = Some (db, Ok (Some link)) ->
       ShareLink.IsRevoked link = false ->
       ShareLink.ExpiresAt link = None ->
       ShareLink.MaxViews link = None ->
       ShareLink.MaxIPs link = Some 1%Z ->
       logged_ips db (ShareLink.ID link) = [] ->
       sanitizeIP ip2 <> sanitizeIP realIP ->
       exists db1 db2,
         shared_request sanitizeIP now h realIP ua db = Some (db1, Ok Granted) /\
         shared_request sanitizeIP now2 h ip2 ua db1 =
           Some (db1, Ok (Denied IPLimitReached)) /\
         shared_request sanitizeIP now3 h realIP ua db1 = Some (db2, Ok Granted)).
Proof.
  intros sanitizeIP now db link realIP.
  split; [apply validate_iff |].
  destruct (validate_order sanitizeIP now db link realIP) as (H1 & H2 & H3 & H4).
  repeat (split; [assumption |]).
  split.
  - intros. eapply third_view_refused; eassumption.
  - intros. eapply second_address_refused; eassumption.
Qed.

(* ------------------------------------------------------------------ *)
(** ** The page table *)
(* ------------------------------------------------------------------ *)

Open Scope Z_scope.


Lemma nocase_eqb_refl s : nocase_eqb s s = true.
Proof. unfold nocase_eqb. apply String.eqb_refl. Qed.

Lemma find_none_existsb {A} (f : A -> bool) l :
  find f l = None -> existsb f l = false.
Proof.
  induction l as [| x l IH]; simpl; [reflexivity |].
  destruct (f x); [discriminate | exact IH].
Qed.

Lemma find_app {A} (f : A -> bool) l1 l2 :
  find f (l1 ++ l2) = match find f l1 with Some x => Some x | None => find f l2 end.
Proof.
  induction l1 as [| x l1 IH]; simpl; [reflexivity |].
  destruct (f x); [reflexivity | exact IH].
Qed.

Section PageProperties.

Variable Render : string -> option string.


(** One round of the loop. *)
Lemma ensure_loop_cons authorID parts i idx parentID db :
  Wiki.ensure_loop Render authorID parts (i :: idx) parentID db =
  match find (fun p => nocase_eqb (Page.Slug p) (Join (firstn (i + 1) parts) "/"))
          (pages db) with
  | Some e => Wiki.ensure_loop Render authorID parts idx (Some (Page.ID e)) db
  | None =>
      Wiki.ensure_loop Render authorID parts idx (Some (next_page_id db))
        (with_pages db
           (pages db ++ [placeholder Render authorID parts i parentID (next_page_id db)])
           (next_page_id db + 1))
  end.
Proof.
  cbn [Wiki.ensure_loop]. unfold bind at 1. unfold GetPageBySlug, gets.
  destruct (find _ (pages db)) as [e |] eqn:Hfind; [reflexivity |].
  unfold bind, wrap, CreatePage. cbn [Page.Slug].
  rewrite (find_none_existsb _ _ Hfind). reflexivity.
Qed.

(** The loop always comes back with a parent; it only appends pages, all
    of them published, empty and freshly numbered, and touches no other
    table. *)
Lemma ensure_loop_appends authorID parts idx :
  forall parentID db,
  exists news parent,
    Wiki.ensure_loop Render authorID parts idx parentID db =
      Some (mkDB (pages db ++ news)
              (next_page_id db + Z.of_nat (length news))
              (revisions db) (next_revision_id db) (share_links db)
              (share_link_access db) (next_access_id db), Ok parent) /\
    Forall (fun p => Page.Content p = "" /\ Page.IsPublished p = true /\
                     Page.AuthorID p = authorID /\
                     next_page_id db <= Page.ID p) news /\
    NoDup (List.map Page.ID news) /\
    Forall (fun p => Page.ID p < next_page_id db + Z.of_nat (length news)) news /\
    (idx = [] -> parent = parentID).
Proof.
  induction idx as [| i idx IH]; intros parentID db.
  - exists [], parentID. cbn. rewrite app_nil_r, Z.add_0_r.
    destruct db; repeat split; constructor.
  - rewrite ensure_loop_cons.
    destruct (find _ (pages db)) as [e |].
    + destruct (IH (Some (Page.ID e)) db)
        as (news & parent & Hrun & Hnews & Hnd & Hup & _).
      exists news, parent. repeat split; try assumption. discriminate.
    + set (ph := placeholder Render authorID parts i parentID (next_page_id db)).
      destruct (IH (Some (next_page_id db))
                  (with_pages db (pages db ++ [ph]) (next_page_id db + 1)))
        as (news & parent & Hrun & Hnews & Hnd & Hup & _).
      exists (ph :: news), parent. repeat split.
      * rewrite Hrun. cbn. rewrite <- app_assoc. cbn.
        do 3 f_equal. lia.
      * constructor.
        -- cbn. repeat split; lia.
        -- eapply Forall_impl; [| exact Hnews]. cbn.
           intros p (H1 & H2 & H3 & H4). repeat split; try assumption. lia.
      * cbn. constructor; [| exact Hnd].
        intros Hin. apply in_map_iff in Hin. destruct Hin as (p & Hid & Hin).
        rewrite Forall_forall in Hnews. specialize (Hnews p Hin). cbn in Hnews.
        lia.
      * constructor.
        -- cbn [ph placeholder Page.ID length]. lia.
        -- eapply Forall_impl; [| exact Hup]. cbn [length next_page_id with_pages].
           intros p Hp. lia.
      * discriminate.
Qed.



Lemma ensureParentPages_appends authorID slug db :
  exists news parent,
    Wiki.ensureParentPages Render authorID slug db =
      Some (grown db news, Ok parent) /\
    Forall (is_placeholder authorID db) news /\
    NoDup (List.map Page.ID news) /\
    Forall (fun p => Page.ID p < next_page_id db + Z.of_nat (length news)) news.
Proof.
  unfold Wiki.ensureParentPages.
  destruct (length (Split slug "/") <=? 1)%nat.
  - exists [], None. unfold grown, ret. cbn. rewrite app_nil_r, Z.add_0_r.
    destruct db; repeat split; constructor.
  - destruct (ensure_loop_appends authorID (Split slug "/")
                (seq 0 (length (Split slug "/") - 1)) None db)
      as (news & parent & Hrun & Hnews & Hnd & Hup & _).
    exists news, parent. repeat split; assumption.
Qed.

(** A second run of the loop finds every prefix and writes nothing. *)
Lemma ensure_loop_again authorID parts idx :
  forall parentID db db' parent,
    Wiki.ensure_loop Render authorID parts idx parentID db = Some (db', Ok parent) ->
    forall parentID',
      Wiki.ensure_loop Render authorID parts idx parentID' db' =
        Some (db', Ok (match idx with [] => parentID' | _ :: _ => parent end)).
Proof.
  induction idx as [| i idx IH]; intros parentID db db' parent Hrun parentID'.
  - cbn in *. unfold ret in *. inversion Hrun; subst. reflexivity.
  - rewrite ensure_loop_cons in Hrun. rewrite ensure_loop_cons.
    destruct (find _ (pages db)) as [e |] eqn:Hfind.
    + destruct (ensure_loop_appends authorID parts idx (Some (Page.ID e)) db)
        as (news & parent' & Hrun' & _ & _ & _ & Hnil).
      rewrite Hrun' in Hrun. inversion Hrun; subst db' parent'; clear Hrun.
      cbn [pages]. rewrite find_app, Hfind.
      rewrite (IH _ _ _ _ Hrun').
      destruct idx; [rewrite (Hnil eq_refl) |]; reflexivity.
    + remember (placeholder Render authorID parts i parentID (next_page_id db)) as ph
        eqn:Hph.
      remember (with_pages db (pages db ++ [ph]) (next_page_id db + 1)) as db1
        eqn:Hdb1.
      destruct (ensure_loop_appends authorID parts idx (Some (next_page_id db)) db1)
        as (news & parent' & Hrun' & _ & _ & _ & Hnil).
      rewrite Hrun' in Hrun. inversion Hrun; subst db' parent'; clear Hrun.
      assert (Hf : find (fun p => nocase_eqb (Page.Slug p)
                                    (Join (firstn (i + 1) parts) "/"))
                     (pages db1 ++ news) = Some ph).
      { rewrite Hdb1. cbn [pages with_pages].
        rewrite <- app_assoc, find_app, Hfind. cbn [app find].
        rewrite Hph. cbn [placeholder Page.Slug]. rewrite nocase_eqb_refl.
        reflexivity. }
      cbn [pages]. rewrite Hf.
      replace (Page.ID ph) with (next_page_id db) by (rewrite Hph; reflexivity).
      rewrite (IH _ _ _ _ Hrun').
      destruct idx; [rewrite (Hnil eq_refl) |]; reflexivity.
Qed.

Lemma ensureParentPages_again authorID slug db db' parent :
  Wiki.ensureParentPages Render authorID slug db = Some (db', Ok parent) ->
  Wiki.ensureParentPages Render authorID slug db' = Some (db', Ok parent).
Proof.
  unfold Wiki.ensureParentPages.
  destruct (length (Split slug "/") <=? 1)%nat eqn:Hlen.
  - unfold ret. intros H; inversion H; subst. reflexivity.
  - intros Hrun. rewrite (ensure_loop_again _ _ _ _ _ _ _ Hrun).
    apply Nat.leb_gt in Hlen.
    destruct (length (Split slug "/") - 1)%nat eqn:E; [lia | reflexivity].
Qed.


(** The three refusals of [CreatePage], in the order of its checks; none
    of them writes. *)
Lemma CreatePage_refusals authorID input db :
  (create_slug input = "" ->
   Wiki.CreatePage Render authorID input db = Some (db, Err ErrInvalidSlug)) /\
  (create_slug input <> "" -> TrimSpace (PageCreate.Title input) = "" ->
   Wiki.CreatePage Render authorID input db = Some (db, Err ErrInvalidTitle)) /\
  (create_slug input <> "" -> TrimSpace (PageCreate.Title input) <> "" ->
   forall e,
     find (fun p => nocase_eqb (Page.Slug p) (create_slug input)) (pages db) = Some e ->
     Wiki.CreatePage Render authorID input db = Some (db, Err ErrPageExists)).
Proof.
  unfold Wiki.CreatePage, create_slug.
  destruct (String.eqb_spec
    (if String.eqb (TrimSpace (PageCreate.Slug input)) ""
     then Slugify (PageCreate.Title input)
     else Slugify (TrimSpace (PageCreate.Slug input))) "") as [Hs | Hs].
  - repeat split; intros; first [contradiction | reflexivity].
  - destruct (String.eqb_spec (TrimSpace (PageCreate.Title input)) "") as [Ht | Ht].
    + repeat split; intros; first [contradiction | reflexivity].
    + repeat split; intros; try contradiction.
      unfold bind, wrap, GetPageBySlug, gets.
      match goal with H : find _ _ = Some _ |- _ => rewrite H end. reflexivity.
Qed.

(** What a successful [CreatePage] has done. *)
Lemma CreatePage_Ok authorID input db db' page :
  Wiki.CreatePage Render authorID input db = Some (db', Ok page) ->
  let slug := create_slug input in
  let content := PageCreate.Content input in
  slug <> "" /\ TrimSpace (PageCreate.Title input) <> "" /\
  find (fun p => nocase_eqb (Page.Slug p) slug) (pages db) = None /\
  exists news parent html,
    (if Contains slug "/"
     then Wiki.ensureParentPages Render authorID slug db =
            Some (grown db news, Ok parent)
     else news = [] /\ parent = None) /\
    Forall (is_placeholder authorID db) news /\
    NoDup (List.map Page.ID news) /\
    Forall (fun p => Page.ID p < next_page_id db + Z.of_nat (length news)) news /\
    Render content = Some html /\
    page = Page.mk (next_page_id db + Z.of_nat (length news)) slug
             (TrimSpace (PageCreate.Title input)) content html authorID parent true /\
    db' = mkDB (pages db ++ news ++ [page])
            (next_page_id db + Z.of_nat (length news) + 1)
            (revisions db ++
               [Revision.mk (next_revision_id db) (Page.ID page) content authorID
                  "Initial version"])
            (next_revision_id db + 1) (share_links db) (share_link_access db)
            (next_access_id db).
Proof.
  unfold Wiki.CreatePage. fold (create_slug input).
  destruct (String.eqb_spec (create_slug input) "") as [Hs | Hs];
    [discriminate |].
  destruct (String.eqb_spec (TrimSpace (PageCreate.Title input)) "") as [Ht | Ht];
    [discriminate |].
  intros Hrun. cbn zeta. split; [exact Hs |]. split; [exact Ht |].
  apply bind_Ok in Hrun. destruct Hrun as (db0 & existing & Hget & Hrun).
  apply wrap_Ok in Hget. unfold GetPageBySlug, gets in Hget.
  inversion Hget; subst db0 existing; clear Hget.
  destruct (find _ (pages db)) as [e |] eqn:Hfind; [discriminate |].
  split; [reflexivity |].
  apply bind_Ok in Hrun. destruct Hrun as (db1 & parent & Hparent & Hrun).
  assert (Hnews : exists news,
    (if Contains (create_slug input) "/"
     then Wiki.ensureParentPages Render authorID (create_slug input) db =
            Some (grown db news, Ok parent)
     else news = [] /\ parent = None) /\
    Forall (is_placeholder authorID db) news /\
    NoDup (List.map Page.ID news) /\
    Forall (fun p => Page.ID p < next_page_id db + Z.of_nat (length news)) news /\
    db1 = grown db news).
  { destruct (Contains (create_slug input) "/").
    - apply wrap_Ok in Hparent.
      destruct (ensureParentPages_appends authorID (create_slug input) db)
        as (news & parent' & Hens & Hph & Hnd & Hup).
      rewrite Hens in Hparent. inversion Hparent; subst.
      exists news. repeat split; assumption.
    - unfold ret in Hparent. inversion Hparent; subst.
      exists []. unfold grown. cbn. rewrite app_nil_r, Z.add_0_r.
      destruct db1; repeat split; constructor. }
  destruct Hnews as (news & Hens & Hph & Hnd & Hup & ->).
  destruct (Render (PageCreate.Content input)) as [html |] eqn:Hrender;
    [| discriminate].
  exists news, parent, html.
  apply bind_Ok in Hrun. destruct Hrun as (db2 & id & Hins & Hrun).
  apply wrap_Ok in Hins. unfold CreatePage in Hins. cbn [Page.Slug] in Hins.
  destruct (existsb _ (pages (grown db news))); [discriminate |].
  inversion Hins; subst db2 id; clear Hins.
  apply bind_Ok in Hrun. destruct Hrun as (db3 & u & Hrev & Hrun).
  unfold logged, CreateRevision in Hrev. inversion Hrev; subst db3 u; clear Hrev.
  unfold ret in Hrun. inversion Hrun; subst db' page; clear Hrun.
  repeat split; try assumption.
  cbn. rewrite <- app_assoc. reflexivity.
Qed.

Lemma wrap_Err {A} ctx (c : M A) db db' e :
  wrap ctx c db = Some (db', Err e) -> exists e', e = ErrWrap ctx e'.
Proof.
  unfold wrap. destruct (c db) as [[db1 [x | e1]] |]; intros H;
    inversion H; subst. exists e1. reflexivity.
Qed.

(** An error of [CreatePage] other than its three refusals is a wrapped
    one. *)
Lemma CreatePage_Err authorID input db db' e :
  Wiki.CreatePage Render authorID input db = Some (db', Err e) ->
  (db' = db /\ (e = ErrInvalidSlug \/ e = ErrInvalidTitle \/ e = ErrPageExists)) \/
  (exists ctx e', e = ErrWrap ctx e').
Proof.
  unfold Wiki.CreatePage. fold (create_slug input).
  destruct (String.eqb (create_slug input) "").
  { unfold fail. intros H; inversion H; subst. left. tauto. }
  destruct (String.eqb (TrimSpace (PageCreate.Title input)) "").
  { unfold fail. intros H; inversion H; subst. left. tauto. }
  intros Hrun. apply bind_Some in Hrun.
  destruct Hrun as [(e0 & Hget & He) | (db0 & existing & Hget & Hrun)].
  { inversion He; subst e0. apply wrap_Err in Hget. destruct Hget as (e' & ->).
    right. eauto. }
  apply wrap_Ok in Hget. unfold GetPageBySlug, gets in Hget.
  inversion Hget; subst db0 existing; clear Hget.
  destruct (find _ (pages db)).
  { unfold fail in Hrun. inversion Hrun; subst. left. tauto. }
  right. apply bind_Some in Hrun.
  destruct Hrun as [(e0 & Hpar & He) | (db1 & parent & _ & Hrun)].
  { inversion He; subst e0. destruct (Contains (create_slug input) "/").
    - apply wrap_Err in Hpar. destruct Hpar as (e' & ->). eauto.
    - unfold ret in Hpar. discriminate Hpar. }
  destruct (Render (PageCreate.Content input)).
  2:{ unfold fail in Hrun. inversion Hrun; subst. eauto. }
  apply bind_Some in Hrun.
  destruct Hrun as [(e0 & Hins & He) | (db2 & id & _ & Hrun)].
  { inversion He; subst e0. apply wrap_Err in Hins. destruct Hins as (e' & ->). eauto. }
  apply bind_Some in Hrun.
  destruct Hrun as [(e0 & Hrev & He) | (db3 & u & _ & Hrun)].
  { apply logged_Some in Hrev. destruct Hrev as [Hrev _]. discriminate Hrev. }
  unfold ret in Hrun. discriminate Hrun.
Qed.

Lemma find_none_filter {A} (f : A -> bool) l :
  find f l = None -> List.filter f l = [].
Proof.
  induction l as [| x l IH]; simpl; [reflexivity |].
  destruct (f x); [discriminate | exact IH].
Qed.

End PageProperties.

Lemma map_length s f : String.length (Strings.map f s) = String.length s.
Proof. induction s as [| c s IH]; simpl; congruence. Qed.

Lemma nocase_eqb_length a b :
  nocase_eqb a b = true -> String.length a = String.length b.
Proof.
  unfold nocase_eqb. intros H. apply String.eqb_eq in H.
  rewrite <- (map_length a lower_byte), <- (map_length b lower_byte), H.
  reflexivity.
Qed.

Lemma append_length a b :
  String.length (a ++ b) = (String.length a + String.length b)%nat.
Proof. induction a as [| c a IH]; simpl; congruence. Qed.

Lemma Contains_append a b c :
  Contains (a ++ b) c = Contains a c || Contains b c.
Proof.
  induction a as [| d a IH]; simpl; [reflexivity |].
  rewrite IH. apply orb_assoc.
Qed.

Lemma Split_none s sep : Contains s sep = false -> Split s sep = [s].
Proof.
  induction s as [| c s IH]; simpl; [reflexivity |].
  intros H. apply orb_false_iff in H. destruct H as [Hc Hs].
  rewrite Hc, (IH Hs). reflexivity.
Qed.

Lemma Split_append a b sep :
  Contains a sep = false -> Split (a ++ String sep b) sep = a :: Split b sep.
Proof.
  induction a as [| c a IH]; simpl.
  - intros _. rewrite Ascii.eqb_refl. reflexivity.
  - intros H. apply orb_false_iff in H. destruct H as [Hc Ha].
    rewrite Hc, (IH Ha). reflexivity.
Qed.

(** C6 as stated fails: creating ["a/b"] in an empty wiki inserts two
    pages, the placeholder ["a"] and the page itself. *)
Lemma create_inserts_placeholders_too :
  exists db' page,
    Wiki.CreatePage render_id 1 (PageCreate.mk "a/b" "B" "text") empty_db =
      Some (db', Ok page) /\
    List.map Page.Slug (pages db') = ["a"; "a/b"] /\
    length (pages db') = (length (pages empty_db) + 2)%nat.
Proof. do 2 eexists. split; [vm_compute; reflexivity | split; reflexivity]. Qed.

(** C6, amended.  [CreatePage] refuses with [ErrInvalidSlug] when the
    normalized slug (derived from the title when the supplied slug is
    empty) is empty, else with [ErrInvalidTitle] when the trimmed title is
    empty, else with [ErrPageExists] when a page holds the slug under
    case-insensitive comparison; whenever one of these three errors comes
    back the database is unchanged; on success the page table grows by the
    placeholder pages [ensureParentPages] inserts for the slug (none for a
    slug without a slash) followed by the page itself, and the revision
    table grows by exactly one revision of that page, with the comment
    "Initial version" and the content of the page. *)
Theorem create_refusals_and_success :
  forall (Render : string -> option string) (authorID : Z)
         (input : PageCreate.t) (db : DB),
    (create_slug input = "" ->
     Wiki.CreatePage Render authorID input db = Some (db, Err ErrInvalidSlug)) /\
    (create_slug input <> "" -> TrimSpace (PageCreate.Title input) = "" ->
     Wiki.CreatePage Render authorID input db = Some (db, Err ErrInvalidTitle)) /\
    (create_slug input <> "" -> TrimSpace (PageCreate.Title input) <> "" ->
     forall e,
       find (fun p => nocase_eqb (Page.Slug p) (create_slug input)) (pages db) = Some e ->
       Wiki.CreatePage Render authorID input db = Some (db, Err ErrPageExists)) /\
    (forall db' e,
       Wiki.CreatePage Render authorID input db = Some (db', Err e) ->
       e = ErrInvalidSlug \/ e = ErrInvalidTitle \/ e = ErrPageExists ->
       db' = db) /\
    (forall db' page,
       Wiki.CreatePage Render authorID input db = Some (db', Ok page) ->
       exists news parent,
         (if Contains (create_slug input) "/"
          then Wiki.ensureParentPages Render authorID (create_slug input) db =
                 Some (grown db news, Ok parent)
          else news = []) /\
         Forall (is_placeholder authorID db) news /\
         pages db' = pages db ++ news ++ [page] /\
         Page.Slug page = create_slug input /\
         Page.Content page = PageCreate.Content input /\
         revisions db' =
           revisions db ++
             [Revision.mk (next_revision_id db) (Page.ID page) (Page.Content page)
                authorID "Initial version"]).
Proof.
  intros Render authorID input db.
  destruct (CreatePage_refusals Render authorID input db) as (H1 & H2 & H3).
  repeat (split; [assumption |]). split.
  - intros db' e Hrun He. apply CreatePage_Err in Hrun.
    destruct Hrun as [[Hdb _] | (ctx & e' & ->)]; [exact Hdb |].
    destruct He as [He | [He | He]]; discriminate He.
  - intros db' page Hrun. apply CreatePage_Ok in Hrun. cbn zeta in Hrun.
    destruct Hrun as (_ & _ & _ & news & parent & html & Hens & Hph & _ & _ & _
                      & Hpage & Hdb).
    exists news, parent. subst db' page. cbn.
    repeat split; try assumption; try reflexivity.
    destruct (Contains (create_slug input) "/"); [exact Hens | apply Hens].
Qed.

Lemma ensureParentPages_two Render authorID p c db :
  Contains p "/" = false -> Contains c "/" = false ->
  Wiki.ensureParentPages Render authorID (p ++ "/" ++ c) db =
  match find (fun q => nocase_eqb (Page.Slug q) p) (pages db) with
  | Some e => Some (db, Ok (Some (Page.ID e)))
  | None =>
      Some (grown db [Page.mk (next_page_id db) p (Title (ReplaceAll p "-" " ")) ""
                        (match Render "" with Some h => h | None => "" end)
                        authorID None true],
            Ok (Some (next_page_id db)))
  end.
Proof.
  intros Hp Hc. unfold Wiki.ensureParentPages.
  change (p ++ "/" ++ c)%string with (p ++ String "/" c)%string.
  rewrite (Split_append p c "/" Hp), (Split_none c "/" Hc).
  cbn [length Nat.leb Nat.sub seq]. rewrite ensure_loop_cons.
  cbn [Nat.add firstn Join String.concat nth].
  destruct (find _ (pages db)); reflexivity.
Qed.

(** C5.  When [CreatePage] succeeds for a slug [p/c] of two segments and
    no page held [p], afterwards exactly one page holds [p]: a published
    placeholder with empty content, no parent and the humanized segment as
    its title, and it is the parent of the new page [p/c]; when a page
    held [p] already, it is the parent and nothing but [p/c] is inserted;
    and running [ensureParentPages] again with the same slug writes
    nothing and returns the same parent. *)
Theorem create_under_parent :
  forall (Render : string -> option string) (authorID : Z)
         (input : PageCreate.t) (db db' : DB) (page : Page.t) (p c : string),
    create_slug input = (p ++ "/" ++ c)%string ->
    Contains p "/" = false ->
    Contains c "/" = false ->
    Wiki.CreatePage Render authorID input db = Some (db', Ok page) ->
    (find (fun q => nocase_eqb (Page.Slug q) p) (pages db) = None ->
     exists ph,
       List.filter (fun q => nocase_eqb (Page.Slug q) p) (pages db') = [ph] /\
       Page.Slug ph = p /\
       Page.IsPublished ph = true /\
       Page.Content ph = "" /\
       Page.ParentID ph = None /\
       Page.Title ph = Title (ReplaceAll p "-" " ") /\
       Page.ParentID page = Some (Page.ID ph) /\
       Page.ID page <> Page.ID ph /\
       pages db' = pages db ++ [ph; page]) /\
    (forall e,
       find (fun q => nocase_eqb (Page.Slug q) p) (pages db) = Some e ->
       Page.ParentID page = Some (Page.ID e) /\
       pages db' = pages db ++ [page]) /\
    Page.Slug page = (p ++ "/" ++ c)%string /\
    (forall slug db0 db1 parent,
       Wiki.ensureParentPages Render authorID slug db0 = Some (db1, Ok parent) ->
       Wiki.ensureParentPages Render authorID slug db1 = Some (db1, Ok parent)).
Proof.
  intros Render authorID input db db' page p c Hslug Hp Hc Hrun.
  apply CreatePage_Ok in Hrun. cbn zeta in Hrun.
  destruct Hrun as (_ & _ & _ & news & parent & html & Hens & _ & _ & _ & _
                    & Hpage & Hdb).
  rewrite Hslug in Hens, Hpage.
  assert (Hcont : Contains (p ++ "/" ++ c) "/" = true).
  { rewrite Contains_append. cbn. apply orb_true_r. }
  rewrite Hcont in Hens. rewrite (ensureParentPages_two _ _ _ _ _ Hp Hc) in Hens.
  assert (Hne : forall q : Page.t,
            Page.Slug q = (p ++ "/" ++ c)%string ->
            nocase_eqb (Page.Slug q) p = false).
  { intros q Hq. destruct (nocase_eqb (Page.Slug q) p) eqn:E; [| reflexivity].
    apply nocase_eqb_length in E. rewrite Hq, append_length in E. cbn in E. lia. }
  split; [| split; [| split]].
  - intros Hfind. rewrite Hfind in Hens.
    inversion Hens as [[Hpages Hnext Hparent]]. clear Hens.
    apply app_inv_head in Hpages. subst news parent.
    eexists. subst db'. cbn [pages].
    split; [| repeat split; try reflexivity].
    + rewrite !filter_app, (find_none_filter _ _ Hfind).
      cbn [List.filter app Page.Slug].
      rewrite nocase_eqb_refl. rewrite (Hne page); [reflexivity |].
      subst page. reflexivity.
    + subst page. reflexivity.
    + subst page. cbn. lia.
  - intros e Hfind. rewrite Hfind in Hens.
    injection Hens as Hgrown Hparent.
    apply (f_equal pages) in Hgrown. cbn [pages grown] in Hgrown.
    rewrite <- (app_nil_r (pages db)) in Hgrown at 1.
    apply app_inv_head in Hgrown. subst news db' page parent. split; reflexivity.
  - subst page. reflexivity.
  - intros slug db0 db1 parent0. apply ensureParentPages_again.
Qed.

(* ------------------------------------------------------------------ *)
(** ** The descendants query *)
(* ------------------------------------------------------------------ *)

Lemma cnt_app id l1 l2 : cnt id (l1 ++ l2) = (cnt id l1 + cnt id l2)%nat.
Proof. unfold cnt. rewrite filter_app, length_app. reflexivity. Qed.

Lemma cnt_cons id d l :
  cnt id (d :: l) = ((if (fst d =? id)%Z then 1 else 0) + cnt id l)%nat.
Proof. unfold cnt. cbn. destruct (fst d =? id); reflexivity. Qed.

Lemma cnt_rev id l : cnt id (List.rev l) = cnt id l.
Proof.
  induction l as [| d l IH]; [reflexivity |].
  cbn [List.rev]. rewrite cnt_app, IH, !cnt_cons. cbn. lia.
Qed.

Lemma cnt_pos id l : (0 < cnt id l)%nat -> exists s, In (id, s) l.
Proof.
  induction l as [| [i s] l IH]; [cbn; lia |].
  rewrite cnt_cons. cbn [fst]. destruct (Z.eqb_spec i id) as [-> | Hne].
  - intros _. exists s. left. reflexivity.
  - intros H. destruct (IH H) as (s' & Hin). exists s'. right. exact Hin.
Qed.

Lemma cnt_le1_NoDup l :
  (forall id, (cnt id l <= 1)%nat) -> NoDup (List.map fst l).
Proof.
  induction l as [| d l IH]; intros H; cbn; constructor.
  - intros Hin. apply in_map_iff in Hin. destruct Hin as (d' & Hfst & Hin).
    specialize (H (fst d)). rewrite cnt_cons, Z.eqb_refl in H.
    assert (0 < cnt (fst d) l)%nat; [| lia].
    clear - Hfst Hin. induction l as [| x l IH]; [contradiction |].
    rewrite cnt_cons. destruct Hin as [-> | Hin].
    + rewrite Hfst, Z.eqb_refl. lia.
    + specialize (IH Hin). lia.
  - apply IH. intros id. specialize (H id). rewrite cnt_cons in H. lia.
Qed.

Lemma In_children ps x d :
  In d (children ps x) <->
  exists p, In p ps /\ has_parent p x = true /\ d = (Page.ID p, Page.Slug p).
Proof.
  unfold children. rewrite in_map_iff. split.
  - intros (p & <- & Hin). apply filter_In in Hin. destruct Hin as [Hin Hpar].
    exists p. repeat split; assumption.
  - intros (p & Hin & Hpar & ->). exists p. split; [reflexivity |].
    apply filter_In. split; assumption.
Qed.

Lemma same_id_same_page ps p q :
  NoDup (List.map Page.ID ps) -> In p ps -> In q ps -> Page.ID p = Page.ID q ->
  p = q.
Proof.
  induction ps as [| h ps IH]; intros Hnd Hp Hq Hid; [contradiction |].
  inversion Hnd as [| ? ? Hnotin Hnd']; subst.
  destruct Hp as [-> | Hp], Hq as [-> | Hq].
  - reflexivity.
  - exfalso. apply Hnotin. rewrite Hid. apply in_map. exact Hq.
  - exfalso. apply Hnotin. rewrite <- Hid. apply in_map. exact Hp.
  - apply IH; assumption.
Qed.

(** Under the primary key, the children of [x] list [p] once if [x] is its
    parent and not at all otherwise. *)
Lemma cnt_children ps x p :
  NoDup (List.map Page.ID ps) -> In p ps ->
  cnt (Page.ID p) (children ps x) = if has_parent p x then 1%nat else 0%nat.
Proof.
  intros Hnd Hin.
  induction ps as [| h ps IH]; [contradiction |].
  inversion Hnd as [| ? ? Hnotin Hnd']; subst.
  unfold children. cbn [List.filter]. fold (has_parent h x).
  assert (Hrest : forall q, In q ps -> Page.ID q <> Page.ID h).
  { intros q Hq E. apply Hnotin. rewrite <- E. apply in_map. exact Hq. }
  destruct Hin as [-> | Hin].
  - assert (Hzero : cnt (Page.ID p) (children ps x) = 0%nat).
    { unfold cnt. destruct (List.filter _ (children ps x)) as [| d l] eqn:E;
        [reflexivity |].
      assert (Hd : In d (List.filter (fun d => fst d =? Page.ID p) (children ps x)))
        by (rewrite E; left; reflexivity).
      apply filter_In in Hd. destruct Hd as [Hd Hfst].
      apply In_children in Hd. destruct Hd as (q & Hq & _ & ->).
      cbn in Hfst. apply Z.eqb_eq in Hfst. exfalso. exact (Hrest q Hq Hfst). }
    destruct (has_parent p x); cbn [List.map].
    + rewrite cnt_cons. cbn [fst]. rewrite Z.eqb_refl.
      fold (children ps x). rewrite Hzero. reflexivity.
    + fold (children ps x). exact Hzero.
  - specialize (IH Hnd' Hin).
    destruct (has_parent h x); cbn [List.map].
    + rewrite cnt_cons. cbn [fst].
      destruct (Z.eqb_spec (Page.ID h) (Page.ID p)) as [E | _].
      * exfalso. exact (Hrest p Hin (eq_sym E)).
      * exact IH.
    + exact IH.
Qed.

Section Traversal.

Variable ps : list Page.t.
Variable root : Z.
Hypothesis Hkey : NoDup (List.map Page.ID ps).

(** What holds of the queue and of the rows taken from it, all along. *)
Definition traversal_inv (queue acc : list (Z * string)) : Prop :=
  (forall p, In p ps -> cnt (Page.ID p) (acc ++ queue) = produced root p acc) /\
  (forall d, In d (acc ++ queue) ->
     exists p, Descendant ps root p /\ d = (Page.ID p, Page.Slug p)).

Lemma traversal_inv_start : traversal_inv (children ps root) [].
Proof.
  split.
  - intros p Hin. cbn [app]. rewrite (cnt_children ps root p Hkey Hin).
    unfold produced, has_parent. destruct (Page.ParentID p) as [q |]; [| reflexivity].
    cbn. destruct (q =? root); reflexivity.
  - intros d Hin. cbn [app] in Hin. apply In_children in Hin.
    destruct Hin as (p & Hin & Hpar & ->). exists p. split; [| reflexivity].
    apply Descendant_child; [exact Hin |].
    unfold has_parent in Hpar. destruct (Page.ParentID p) as [q |]; [| discriminate].
    apply Z.eqb_eq in Hpar. subst q. reflexivity.
Qed.

Lemma traversal_inv_step row queue acc :
  traversal_inv (row :: queue) acc ->
  traversal_inv (queue ++ children ps (fst row)) (row :: acc).
Proof.
  intros [Hcnt Hdesc]. split.
  - intros p Hin. specialize (Hcnt p Hin).
    rewrite cnt_app, cnt_cons in Hcnt.
    cbn [app]. rewrite cnt_cons, !cnt_app, (cnt_children ps _ p Hkey Hin).
    unfold produced in *. unfold has_parent.
    destruct (Page.ParentID p) as [q |].
    + rewrite cnt_cons. rewrite (Z.eqb_sym q (fst row)).
      destruct (fst row =? q), (fst row =? Page.ID p); lia.
    + destruct (fst row =? Page.ID p); lia.
  - intros d Hin. cbn [app] in Hin.
    assert (Hrow : exists pr, Descendant ps root pr /\ row = (Page.ID pr, Page.Slug pr)).
    { apply Hdesc. apply in_or_app. right. left. reflexivity. }
    destruct Hin as [<- | Hin]; [exact Hrow |].
    apply in_app_or in Hin. destruct Hin as [Hin | Hin].
    { apply Hdesc. apply in_or_app. left. exact Hin. }
    apply in_app_or in Hin. destruct Hin as [Hin | Hin].
    { apply Hdesc. apply in_or_app. right. right. exact Hin. }
    destruct Hrow as (pr & Hpr & ->). cbn [fst] in Hin.
    apply In_children in Hin. destruct Hin as (c & Hc & Hpar & ->).
    exists c. split; [| reflexivity].
    apply (Descendant_step ps root c pr); [exact Hc | | exact Hpr].
    unfold has_parent in Hpar. destruct (Page.ParentID c) as [q |]; [| discriminate].
    apply Z.eqb_eq in Hpar. subst q. reflexivity.
Qed.

Lemma traversal_inv_end fuel :
  forall queue acc rows,
    traversal_inv queue acc ->
    descendants_cte fuel ps queue acc = Some rows ->
    traversal_inv [] rows.
Proof.
  induction fuel as [| fuel IH]; intros queue acc rows Hinv Hrun;
    [discriminate |].
  cbn in Hrun. destruct queue as [| row queue].
  - inversion Hrun; subst rows. destruct Hinv as [Hcnt Hdesc].
    rewrite app_nil_r in *. split.
    + intros p Hin. rewrite app_nil_r, cnt_rev, (Hcnt p Hin).
      unfold produced. destruct (Page.ParentID p); [| reflexivity].
      rewrite cnt_rev. reflexivity.
    + intros d Hin. rewrite app_nil_r in Hin. apply in_rev in Hin.
      apply Hdesc. exact Hin.
  - apply (IH _ _ _ (traversal_inv_step _ _ _ Hinv) Hrun).
Qed.

(** A traversal that comes back has listed every descendant exactly once
    and nothing else; the page it started from is not among them. *)
Lemma traversal_result fuel rows :
  descendants_cte fuel ps (children ps root) [] = Some rows ->
  NoDup (List.map fst rows) /\
  (forall d, In d rows <->
     exists p, Descendant ps root p /\ d = (Page.ID p, Page.Slug p)) /\
  (forall d, In d rows -> fst d <> root) /\
  (forall p, Descendant ps root p -> Page.ID p <> root).
Proof.
  intros Hrun.
  destruct (traversal_inv_end fuel _ _ _ traversal_inv_start Hrun) as [Hcnt Hdesc].
  rewrite app_nil_r in Hdesc.
  assert (Hcnt' : forall p, In p ps -> cnt (Page.ID p) rows = produced root p rows).
  { intros p Hin. specialize (Hcnt p Hin). rewrite app_nil_r in Hcnt. exact Hcnt. }
  clear Hcnt.
  assert (Hone : forall p, Descendant ps root p ->
                   cnt (Page.ID p) rows = S (cnt root rows)).
  { intros p Hp. induction Hp as [p Hin Hpar | p q Hin Hpar Hq IH].
    - rewrite (Hcnt' p Hin). unfold produced. rewrite Hpar, Z.eqb_refl. lia.
    - rewrite (Hcnt' p Hin). unfold produced. rewrite Hpar.
      destruct (Z.eqb_spec (Page.ID q) root) as [E | _]; [| lia].
      rewrite E in IH. lia. }
  assert (Hroot : cnt root rows = 0%nat).
  { destruct (cnt root rows) as [| n] eqn:E; [reflexivity |].
    destruct (cnt_pos root rows) as (s & Hin); [lia |].
    destruct (Hdesc _ Hin) as (p & Hp & Heq). inversion Heq; subst.
    specialize (Hone p Hp). lia. }
  assert (Hin_ps : forall p, Descendant ps root p -> In p ps).
  { intros p Hp. destruct Hp; assumption. }
  split; [| split; [| split]].
  - apply cnt_le1_NoDup. intros id.
    destruct (cnt id rows) as [| n] eqn:E; [lia |].
    destruct (cnt_pos id rows) as (s & Hin); [lia |].
    destruct (Hdesc _ Hin) as (p & Hp & Heq). inversion Heq; subst.
    rewrite (Hone p Hp), Hroot in E. lia.
  - intros d. split; [apply Hdesc |].
    intros (p & Hp & ->).
    destruct (cnt_pos (Page.ID p) rows) as (s & Hin).
    { rewrite (Hone p Hp). lia. }
    destruct (Hdesc _ Hin) as (p' & Hp' & Heq). injection Heq as Hid Hs.
    assert (p = p').
    { apply (same_id_same_page ps); auto. }
    subst p'. rewrite Hs in Hin. exact Hin.
  - intros d Hin E. destruct d as [i s]. cbn in E. subst i.
    assert (0 < cnt root rows)%nat; [| lia].
    clear - Hin. induction rows as [| x rows IH]; [contradiction |].
    rewrite cnt_cons. destruct Hin as [-> | Hin].
    + cbn. rewrite Z.eqb_refl. lia.
    + specialize (IH Hin). lia.
  - intros p Hp E. specialize (Hone p Hp). rewrite E in Hone. lia.
Qed.

End Traversal.

Lemma list_sum_map_le {A} (f g : A -> nat) l :
  (forall x, In x l -> (f x <= g x)%nat) ->
  (list_sum (List.map f l) <= list_sum (List.map g l))%nat.
Proof.
  induction l as [| x l IH]; intros H; [cbn; lia |].
  assert (f x <= g x)%nat by (apply H; left; reflexivity).
  assert (list_sum (List.map f l) <= list_sum (List.map g l))%nat.
  { apply IH. intros y Hy. apply H. right. exact Hy. }
  unfold list_sum in *. cbn [List.map fold_right]. lia.
Qed.

Lemma weight_mono ps n :
  forall m id, (n <= m)%nat -> (weight ps n id <= weight ps m id)%nat.
Proof.
  induction n as [| n IH]; intros m id Hle.
  - destruct m; cbn; lia.
  - destruct m as [| m]; [lia |]. cbn [weight].
    apply le_n_S. apply list_sum_map_le. intros d _. apply IH. lia.
Qed.

Section Termination.

Variable ps : list Page.t.
Variable height : Z -> nat.

(** No cycle of parent links: every page lies strictly below its parent. *)
Hypothesis Hacyclic :
  forall p q, In p ps -> Page.ParentID p = Some q ->
              (height (Page.ID p) < height q)%nat.

Definition potential (queue : list (Z * string)) : nat :=
  list_sum (List.map (fun d => weight ps (height (fst d)) (fst d)) queue).

Lemma child_below x d :
  In d (children ps x) -> (height (fst d) < height x)%nat.
Proof.
  intros Hin. apply In_children in Hin. destruct Hin as (p & Hin & Hpar & ->).
  cbn [fst]. apply Hacyclic; [exact Hin |].
  unfold has_parent in Hpar. destruct (Page.ParentID p) as [q |]; [| discriminate].
  apply Z.eqb_eq in Hpar. subst q. reflexivity.
Qed.

Lemma weight_children x :
  (S (potential (children ps x)) <= weight ps (height x) x)%nat.
Proof.
  unfold potential. destruct (height x) as [| n] eqn:Hx.
  - destruct (children ps x) as [| d l] eqn:E; [cbn; lia |].
    assert (Hd : In d (children ps x)) by (rewrite E; left; reflexivity).
    apply child_below in Hd. lia.
  - cbn [weight]. apply le_n_S. apply list_sum_map_le.
    intros d Hd. apply weight_mono. apply child_below in Hd. lia.
Qed.

Lemma potential_app q1 q2 : potential (q1 ++ q2) = (potential q1 + potential q2)%nat.
Proof. unfold potential. rewrite map_app, list_sum_app. reflexivity. Qed.

(** With enough fuel the traversal of an acyclic table comes back. *)
Lemma traversal_returns fuel :
  forall queue acc,
    (potential queue < fuel)%nat ->
    exists rows, descendants_cte fuel ps queue acc = Some rows.
Proof.
  induction fuel as [| fuel IH]; intros queue acc Hlt; [lia |].
  destruct queue as [| row queue]; cbn [descendants_cte].
  - eexists. reflexivity.
  - apply IH. rewrite potential_app.
    pose proof (weight_children (fst row)) as Hw.
    assert (Hcons : potential (row :: queue) =
                      (weight ps (height (fst row)) (fst row) + potential queue)%nat)
      by reflexivity.
    lia.
Qed.

End Termination.

Lemma self_parent_loops fuel :
  forall queue acc,
    In (1, "linux/x") queue ->
    descendants_cte fuel (pages self_parent_db) queue acc = None.
Proof.
  induction fuel as [| fuel IH]; intros queue acc Hin; [reflexivity |].
  destruct queue as [| row queue]; [contradiction |].
  cbn [descendants_cte]. apply IH. apply in_or_app.
  destruct Hin as [-> | Hin]; [right; left; reflexivity | left; exact Hin].
Qed.

(** C9 as stated fails: renaming the page ["linux"] of [linux_db] to
    ["linux/x"] makes the page its own parent, and on the resulting table
    the descendants query of that page never comes back, whatever fuel it
    is given. *)
Lemma descendants_of_self_parent_diverge :
  (exists res,
     Wiki.UpdatePage render_id 4 1 1
       (PageUpdate.mk (Some "linux/x") None None None) "" linux_db =
     Some (self_parent_db, Ok res)) /\
  ~ (exists fuel r, GetAllDescendants fuel 1 self_parent_db = Some r).
Proof.
  split.
  - eexists. vm_compute. reflexivity.
  - intros (fuel & r & Hrun). unfold GetAllDescendants in Hrun.
    rewrite self_parent_loops in Hrun; [discriminate |].
    left. reflexivity.
Qed.

(** C9, amended.  On a page table whose parent links form no cycle, the
    descendants query of any page comes back (given enough fuel), leaves
    the database as it was, and its rows are exactly the pages reached
    from the starting page through parent links, each listed once; the
    starting page is not among them. *)
Theorem descendants_of_acyclic :
  forall (db : DB) (root : Z) (height : Z -> nat),
    NoDup (List.map Page.ID (pages db)) ->
    (forall p q, In p (pages db) -> Page.ParentID p = Some q ->
                 (height (Page.ID p) < height q)%nat) ->
    exists fuel rows,
      GetAllDescendants fuel root db = Some (db, Ok rows) /\
      NoDup (List.map fst rows) /\
      (forall d, In d rows <->
         exists p, Descendant (pages db) root p /\ d = (Page.ID p, Page.Slug p)) /\
      (forall d, In d rows -> fst d <> root).
Proof.
  intros db root height Hkey Hacyclic.
  set (fuel := S (potential (pages db) height (children (pages db) root))).
  destruct (traversal_returns (pages db) height Hacyclic fuel
              (children (pages db) root) []) as (rows & Hrun); [unfold fuel; lia |].
  exists fuel, rows.
  destruct (traversal_result (pages db) root Hkey fuel rows Hrun)
    as (Hnd & Hiff & Hroot & _).
  unfold GetAllDescendants. rewrite Hrun. repeat split; try assumption.
  - apply Hiff.
  - apply Hiff.
Qed.

(* ------------------------------------------------------------------ *)
(** ** The rename cascade *)
(* ------------------------------------------------------------------ *)

Lemma with_pages_same db : with_pages db (pages db) (next_page_id db) = db.
Proof. destruct db; reflexivity. Qed.

Lemma with_pages_twice db ps n ps' n' :
  with_pages (with_pages db ps n) ps' n' = with_pages db ps' n'.
Proof. reflexivity. Qed.

(** A cascade that succeeds reports one change per row under the old
    slug, in the order of the rows, and leaves the page table rewritten
    row by row. *)
Lemma cascade_Ok oldSlug newSlug descendants :
  forall slugChanges db db' changes,
    Wiki.cascade oldSlug newSlug descendants slugChanges db = Some (db', Ok changes) ->
    changes =
      slugChanges ++
        List.map (fun d => Wiki.mkSlugChange (snd d) (moved oldSlug newSlug (snd d)))
          (List.filter (under oldSlug) descendants) /\
    db' = with_pages db (cascaded oldSlug newSlug descendants (pages db))
            (next_page_id db).
Proof.
  unfold cascaded.
  induction descendants as [| d rest IH]; intros slugChanges db db' changes Hrun.
  - cbn in Hrun. unfold ret in Hrun. inversion Hrun; subst.
    cbn. rewrite app_nil_r, with_pages_same. split; reflexivity.
  - cbn [Wiki.cascade] in Hrun. cbn [List.filter].
    change (HasPrefix (snd d) (oldSlug ++ "/")) with (under oldSlug d) in Hrun.
    destruct (under oldSlug d).
    + apply bind_Ok in Hrun. destruct Hrun as (db1 & u & Hupd & Hrun).
      apply wrap_Ok in Hupd. unfold UpdatePageSlug in Hupd.
      destruct (existsb _ (pages db) && slug_taken _ _ _); [discriminate |].
      inversion Hupd; subst db1 u; clear Hupd.
      apply IH in Hrun. destruct Hrun as [-> ->].
      cbn [List.map fold_left pages with_pages next_page_id].
      rewrite <- app_assoc. split; reflexivity.
    + apply IH in Hrun. exact Hrun.
Qed.

Lemma with_Slug_twice p a b :
  Page.with_Slug (Page.with_Slug p a) b = Page.with_Slug p b.
Proof. reflexivity. Qed.

(** Row by row: under the primary key, and when the rows are a reading of
    the table, every rewritten page is moved once, from the slug it had. *)
Lemma cascaded_rows oldSlug newSlug ps :
  NoDup (List.map Page.ID ps) ->
  forall rows done,
    (forall d, In d rows -> exists q, In q ps /\ d = (Page.ID q, Page.Slug q)) ->
    fold_left
      (fun ps d =>
         update_rows (fst d)
           (fun p => Page.with_Slug p (moved oldSlug newSlug (snd d))) ps)
      rows
      (List.map (fun p => if existsb (fun d => fst d =? Page.ID p) done
                          then Page.with_Slug p (moved oldSlug newSlug (Page.Slug p))
                          else p) ps) =
    List.map (fun p => if existsb (fun d => fst d =? Page.ID p) (done ++ rows)
                       then Page.with_Slug p (moved oldSlug newSlug (Page.Slug p))
                       else p) ps.
Proof.
  intros Hkey rows. induction rows as [| d rows IH]; intros done Hrows.
  - cbn. rewrite app_nil_r. reflexivity.
  - cbn [fold_left].
    replace (done ++ d :: rows) with ((done ++ [d]) ++ rows)
      by (rewrite <- app_assoc; reflexivity).
    rewrite <- IH by (intros d' Hd'; apply Hrows; right; exact Hd').
    f_equal. unfold update_rows. rewrite map_map. apply map_ext_in.
    intros p Hp. rewrite existsb_app. cbn [existsb]. rewrite orb_false_r.
    assert (Hid : forall b : bool,
              Page.ID (if b then Page.with_Slug p (moved oldSlug newSlug (Page.Slug p))
                       else p) = Page.ID p).
    { intros []; reflexivity. }
    rewrite Hid, (Z.eqb_sym (Page.ID p) (fst d)).
    destruct (Z.eqb_spec (fst d) (Page.ID p)) as [E | _].
    + rewrite orb_true_r.
      destruct (Hrows d (or_introl eq_refl)) as (q & Hq & ->). cbn [fst snd] in *.
      assert (q = p) by (apply (same_id_same_page ps); assumption). subst q.
      destruct (existsb _ done); reflexivity.
    + rewrite orb_false_r. reflexivity.
Qed.

Lemma cascaded_map oldSlug newSlug ps rows :
  NoDup (List.map Page.ID ps) ->
  (forall d, In d rows -> exists q, In q ps /\ d = (Page.ID q, Page.Slug q)) ->
  cascaded oldSlug newSlug rows ps =
  List.map (fun p => if rewritten oldSlug rows p
                     then Page.with_Slug p (moved oldSlug newSlug (Page.Slug p))
                     else p) ps.
Proof.
  intros Hkey Hrows. unfold cascaded, rewritten.
  pose proof (cascaded_rows oldSlug newSlug ps Hkey
                (List.filter (under oldSlug) rows) []) as H.
  cbn [existsb app] in H. rewrite <- H.
  - f_equal. symmetry. exact (map_id ps).
  - intros d Hd. apply filter_In in Hd. apply Hrows. apply Hd.
Qed.

Section UpdateProperties.

Variable Render : string -> option string.

Lemma save_revision_eq authorID input comment page db :
  Wiki.save_revision authorID input comment page db =
  Some (if content_changes input page then recorded db page authorID comment
        else db, Ok tt).
Proof.
  unfold Wiki.save_revision, content_changes.
  destruct (PageUpdate.Content input) as [c |]; [| reflexivity].
  destruct (negb (String.eqb c (Page.Content page))); reflexivity.
Qed.

(** [update_fields] does not touch the database; when it succeeds the
    page keeps its id, slug and parent and holds the supplied content. *)
Lemma update_fields_Some input page db db' r :
  Wiki.update_fields Render input page db = Some (db', r) ->
  db' = db /\
  forall pf, r = Ok pf ->
    Page.ID pf = Page.ID page /\ Page.Slug pf = Page.Slug page /\
    Page.ParentID pf = Page.ParentID page /\
    Page.Content pf = match PageUpdate.Content input with
                      | Some c => c
                      | None => Page.Content page
                      end.
Proof.
  unfold Wiki.update_fields, bind, ret, fail.
  destruct (PageUpdate.Title input) as [t |];
    [destruct (String.eqb (TrimSpace t) "") |];
    destruct (PageUpdate.Content input) as [c |];
    try destruct (Render c);
    destruct (PageUpdate.IsPublished input);
    intros H; inversion H; subst; (split; [reflexivity |]);
    intros pf Hpf; inversion Hpf; subst; repeat split; reflexivity.
Qed.

(** When the slug is not to be changed the block does nothing. *)
Lemma handle_slug_change_same fuel pageID authorID input page db :
  (forall s, PageUpdate.Slug input = Some s ->
             Slugify s = "" \/ Slugify s = Page.Slug page) ->
  Wiki.handle_slug_change Render fuel pageID authorID input page db =
    Some (db, Ok (page, [])).
Proof.
  intros H. unfold Wiki.handle_slug_change.
  destruct (PageUpdate.Slug input) as [s |]; [| reflexivity].
  destruct (H s eq_refl) as [E | E]; rewrite E.
  - reflexivity.
  - rewrite String.eqb_refl, andb_false_r. reflexivity.
Qed.

(** What a successful change of slug has done. *)
Lemma handle_slug_change_renamed fuel pageID authorID input page db db1 page1
  changes s :
  PageUpdate.Slug input = Some s ->
  Slugify s <> "" ->
  Slugify s <> Page.Slug page ->
  Wiki.handle_slug_change Render fuel pageID authorID input page db =
    Some (db1, Ok (page1, changes)) ->
  exists news parent descendants,
    (forall e, find (fun p => nocase_eqb (Page.Slug p) (Slugify s)) (pages db) = Some e ->
               Page.ID e = pageID) /\
    (if Contains (Slugify s) "/"
     then Wiki.ensureParentPages Render authorID (Slugify s) db =
            Some (grown db news, Ok parent)
     else news = [] /\ parent = None) /\
    Forall (is_placeholder authorID db) news /\
    NoDup (List.map Page.ID news) /\
    GetAllDescendants fuel pageID (grown db news) =
      Some (grown db news, Ok descendants) /\
    Wiki.cascade (Page.Slug page) (Slugify s) descendants [] (grown db news) =
      Some (db1, Ok changes) /\
    page1 = Page.with_ParentID (Page.with_Slug page (Slugify s)) parent.
Proof.
  intros Hs Hne1 Hne2. unfold Wiki.handle_slug_change. rewrite Hs.
  destruct (String.eqb_spec (Slugify s) "") as [E | _]; [contradiction |].
  destruct (String.eqb_spec (Slugify s) (Page.Slug page)) as [E | _];
    [contradiction |].
  cbn [negb andb]. intros Hrun.
  apply bind_Ok in Hrun. destruct Hrun as (db0 & existing & Hget & Hrun).
  apply wrap_Ok in Hget. unfold GetPageBySlug, gets in Hget.
  inversion Hget; subst db0 existing; clear Hget.
  apply bind_Ok in Hrun. destruct Hrun as (db0 & u & Hcheck & Hrun).
  assert (Hself : db0 = db /\
            forall e, find (fun p => nocase_eqb (Page.Slug p) (Slugify s)) (pages db)
                      = Some e -> Page.ID e = pageID).
  { destruct (find _ (pages db)) as [e |].
    - destruct (Z.eqb_spec (Page.ID e) pageID) as [E | _]; cbn [negb] in Hcheck.
      + unfold ret in Hcheck. inversion Hcheck; subst. split; [reflexivity |].
        intros e' He'. inversion He'; subst. reflexivity.
      + discriminate Hcheck.
    - unfold ret in Hcheck. inversion Hcheck; subst. split; [reflexivity |].
      discriminate. }
  destruct Hself as [-> Hself]. clear Hcheck u.
  apply bind_Ok in Hrun. destruct Hrun as (db0 & parent & Hparent & Hrun).
  assert (Hnews : exists news,
    (if Contains (Slugify s) "/"
     then Wiki.ensureParentPages Render authorID (Slugify s) db =
            Some (grown db news, Ok parent)
     else news = [] /\ parent = None) /\
    Forall (is_placeholder authorID db) news /\
    NoDup (List.map Page.ID news) /\ db0 = grown db news).
  { destruct (Contains (Slugify s) "/").
    - apply wrap_Ok in Hparent.
      destruct (ensureParentPages_appends Render authorID (Slugify s) db)
        as (news & parent' & Hens & Hph & Hnd & _).
      rewrite Hens in Hparent. inversion Hparent; subst.
      exists news. repeat split; assumption.
    - unfold ret in Hparent. inversion Hparent; subst.
      exists []. unfold grown. cbn. rewrite app_nil_r, Z.add_0_r.
      destruct db0; repeat split; constructor. }
  destruct Hnews as (news & Hens & Hph & Hnd & ->).
  apply bind_Ok in Hrun. destruct Hrun as (db2 & descendants & Hdesc & Hrun).
  apply wrap_Ok in Hdesc.
  assert (db2 = grown db news).
  { unfold GetAllDescendants in Hdesc.
    destruct (descendants_cte _ _ _ _); inversion Hdesc; reflexivity. }
  subst db2.
  apply bind_Ok in Hrun. destruct Hrun as (db3 & slugChanges & Hcas & Hrun).
  unfold ret in Hrun. inversion Hrun; subst db3 page1 slugChanges; clear Hrun.
  exists news, parent, descendants. repeat split; assumption.
Qed.

(** The stages of a successful [UpdatePage]. *)
Lemma UpdatePage_Ok fuel pageID authorID input comment db db' res :
  Wiki.UpdatePage Render fuel pageID authorID input comment db = Some (db', Ok res) ->
  exists page db1 page1,
    find (fun p => Page.ID p =? pageID) (pages db) = Some page /\
    Wiki.handle_slug_change Render fuel pageID authorID input page db =
      Some (db1, Ok (page1, Wiki.SlugChanges res)) /\
    let db2 := if content_changes input page1
               then recorded db1 page1 authorID comment else db1 in
    Wiki.update_fields Render input page1 db2 = Some (db2, Ok (Wiki.Page res)) /\
    Queries.UpdatePage (Wiki.Page res) db2 = Some (db', Ok tt).
Proof.
  unfold Wiki.UpdatePage. intros Hrun.
  apply bind_Ok in Hrun. destruct Hrun as (db0 & found & Hget & Hrun).
  apply wrap_Ok in Hget. unfold GetPageByID, gets in Hget.
  inversion Hget; subst db0 found; clear Hget.
  destruct (find _ (pages db)) as [page |] eqn:Hfind; [| discriminate].
  apply bind_Ok in Hrun. destruct Hrun as (db1 & [page1 changes] & Hslug & Hrun).
  cbn [fst snd] in Hrun.
  apply bind_Ok in Hrun. destruct Hrun as (db2 & u & Hrev & Hrun).
  rewrite save_revision_eq in Hrev. inversion Hrev; subst db2 u; clear Hrev.
  apply bind_Ok in Hrun. destruct Hrun as (db3 & pf & Hfields & Hrun).
  destruct (update_fields_Some _ _ _ _ _ Hfields) as [-> _].
  apply bind_Ok in Hrun. destruct Hrun as (db4 & u & Hupd & Hrun).
  apply wrap_Ok in Hupd. unfold ret in Hrun. inversion Hrun; subst db4 res.
  destruct u. exists page, db1, page1. cbn [Wiki.Page Wiki.SlugChanges].
  repeat split; assumption.
Qed.

End UpdateProperties.

Lemma same_but_slug_refl p : same_but_slug p p.
Proof. exists (Page.Slug p). destruct p; reflexivity. Qed.

Lemma same_but_slug_trans p q r :
  same_but_slug p q -> same_but_slug q r -> same_but_slug p r.
Proof. intros (a & ->) (b & ->). exists b. reflexivity. Qed.

Lemma Forall2_same_but_slug_refl ps : Forall2 same_but_slug ps ps.
Proof. induction ps; constructor; [apply same_but_slug_refl | assumption]. Qed.

Lemma Forall2_same_but_slug_trans ps qs rs :
  Forall2 same_but_slug ps qs -> Forall2 same_but_slug qs rs ->
  Forall2 same_but_slug ps rs.
Proof.
  intros H. revert rs. induction H as [| p q ps qs Hpq _ IH]; intros rs Hqr.
  - inversion Hqr; constructor.
  - inversion Hqr; subst. constructor.
    + eapply same_but_slug_trans; eassumption.
    + apply IH. assumption.
Qed.

Lemma update_rows_but_slug id slug ps :
  Forall2 same_but_slug ps (update_rows id (fun p => Page.with_Slug p slug) ps).
Proof.
  induction ps as [| p ps IH]; cbn; constructor; [| exact IH].
  destruct (Page.ID p =? id); [exists slug; reflexivity | apply same_but_slug_refl].
Qed.

Lemma cascaded_but_slug oldSlug newSlug rows ps :
  Forall2 same_but_slug ps (cascaded oldSlug newSlug rows ps).
Proof.
  unfold cascaded. generalize (List.filter (under oldSlug) rows) as l.
  intros l. revert ps. induction l as [| d l IH]; intros ps; cbn [fold_left].
  - apply Forall2_same_but_slug_refl.
  - eapply Forall2_same_but_slug_trans; [apply update_rows_but_slug | apply IH].
Qed.

Lemma Forall2_but_slug_ids ps qs :
  Forall2 same_but_slug ps qs -> List.map Page.ID qs = List.map Page.ID ps.
Proof.
  induction 1 as [| p q ps qs (slug & ->) _ IH]; [reflexivity |].
  cbn. rewrite IH. reflexivity.
Qed.

Lemma Forall2_but_slug_In ps qs q :
  Forall2 same_but_slug ps qs -> In q qs ->
  exists p, In p ps /\ same_but_slug p q.
Proof.
  induction 1 as [| p q' ps qs Hpq _ IH]; intros Hin; [contradiction |].
  destruct Hin as [-> | Hin].
  - exists p. split; [left; reflexivity | exact Hpq].
  - destruct (IH Hin) as (p0 & Hp0 & Hs). exists p0. split; [right |]; assumption.
Qed.

Section UpdateFrame.

Variable Render : string -> option string.

(** Whatever the slug block does, it leaves the revisions alone, keeps
    the content of the page at hand, and its page table is the old one
    followed by placeholders, row for row up to slugs. *)
Lemma handle_slug_change_frame fuel pageID authorID input page db db1 page1
  changes :
  Wiki.handle_slug_change Render fuel pageID authorID input page db =
    Some (db1, Ok (page1, changes)) ->
  exists news,
    Forall (is_placeholder authorID db) news /\
    Forall2 same_but_slug (pages db ++ news) (pages db1) /\
    revisions db1 = revisions db /\
    next_revision_id db1 = next_revision_id db /\
    next_page_id db1 = next_page_id db + Z.of_nat (length news) /\
    Page.ID page1 = Page.ID page /\
    Page.Content page1 = Page.Content page.
Proof.
  intros Hrun.
  assert (Hcases :
    (forall s, PageUpdate.Slug input = Some s ->
               Slugify s = "" \/ Slugify s = Page.Slug page) \/
    (exists s, PageUpdate.Slug input = Some s /\ Slugify s <> "" /\
               Slugify s <> Page.Slug page)).
  { destruct (PageUpdate.Slug input) as [s |]; [| left; discriminate].
    destruct (string_dec (Slugify s) ""); [left; intros ? [= <-]; tauto |].
    destruct (string_dec (Slugify s) (Page.Slug page));
      [left; intros ? [= <-]; tauto |].
    right. exists s. repeat split; assumption. }
  destruct Hcases as [Hsame | (s & Hs & Hne1 & Hne2)].
  - rewrite (handle_slug_change_same Render _ _ _ _ _ _ Hsame) in Hrun.
    inversion Hrun; subst. exists []. rewrite app_nil_r, Z.add_0_r.
    repeat split; try reflexivity; [constructor | apply Forall2_same_but_slug_refl].
  - destruct (handle_slug_change_renamed Render _ _ _ _ _ _ _ _ _ _ Hs Hne1 Hne2 Hrun)
      as (news & parent & descendants & _ & _ & Hph & _ & _ & Hcas & ->).
    apply cascade_Ok in Hcas. destruct Hcas as [_ ->].
    exists news. cbn. repeat split; try reflexivity; [exact Hph |].
    apply cascaded_but_slug.
Qed.

End UpdateFrame.

(* ------------------------------------------------------------------ *)
(** ** Revisions *)
(* ------------------------------------------------------------------ *)

Lemma find_update_rows id pf ps :
  In id (List.map Page.ID ps) -> Page.ID pf = id ->
  find (fun p => Page.ID p =? id) (update_rows id (fun _ => pf) ps) = Some pf.
Proof.
  intros Hin Hid. induction ps as [| p ps IH]; [contradiction |].
  cbn. destruct (Z.eqb_spec (Page.ID p) id) as [E | Hne].
  - rewrite Hid, Z.eqb_refl. reflexivity.
  - destruct (Z.eqb_spec (Page.ID p) id); [contradiction |].
    apply IH. destruct Hin as [E | Hin]; [contradiction | exact Hin].
Qed.

Lemma find_ID_Some id ps page :
  find (fun p => Page.ID p =? id) ps = Some page ->
  In page ps /\ Page.ID page = id.
Proof.
  intros H. apply find_some in H. destruct H as [Hin Hid].
  apply Z.eqb_eq in Hid. split; assumption.
Qed.

Lemma UpdatePage_db_Ok pf db db' :
  Queries.UpdatePage pf db = Some (db', Ok tt) ->
  db' = with_pages db (update_rows (Page.ID pf) (fun _ => pf) (pages db))
          (next_page_id db).
Proof.
  unfold Queries.UpdatePage.
  destruct (existsb _ (pages db) && slug_taken _ _ _); intros H; inversion H.
  reflexivity.
Qed.

(** The revisions after a successful update, and the row it wrote. *)
Lemma UpdatePage_revisions Render fuel pageID authorID input comment db db' res page :
  find (fun p => Page.ID p =? pageID) (pages db) = Some page ->
  Wiki.UpdatePage Render fuel pageID authorID input comment db = Some (db', Ok res) ->
  revisions db' =
    (if content_changes input page
     then revisions db ++
            [Revision.mk (next_revision_id db) pageID (Page.Content page)
               authorID comment]
     else revisions db) /\
  next_revision_id db' =
    (if content_changes input page then next_revision_id db + 1
     else next_revision_id db) /\
  find (fun p => Page.ID p =? pageID) (pages db') = Some (Wiki.Page res) /\
  Page.Content (Wiki.Page res) =
    match PageUpdate.Content input with
    | Some c => c
    | None => Page.Content page
    end.
Proof.
  intros Hfind Hrun. apply UpdatePage_Ok in Hrun.
  destruct Hrun as (page' & db1 & page1 & Hfind' & Hslug & Hfields & Hupd).
  rewrite Hfind in Hfind'. inversion Hfind'; subst page'; clear Hfind'.
  destruct (find_ID_Some _ _ _ Hfind) as [Hin Hid].
  destruct (handle_slug_change_frame Render _ _ _ _ _ _ _ _ _ Hslug)
    as (news & _ & Hrows & Hrevs & Hnext & _ & Hid1 & Hcontent).
  cbn zeta in Hfields.
  destruct (update_fields_Some Render _ _ _ _ _ Hfields) as [_ Hpf].
  destruct (Hpf _ eq_refl) as (Hidf & _ & _ & Hcf).
  apply UpdatePage_db_Ok in Hupd. subst db'.
  assert (Hcc : content_changes input page1 = content_changes input page).
  { unfold content_changes. rewrite Hcontent. reflexivity. }
  rewrite Hcc in *. cbn [revisions next_revision_id pages with_pages].
  assert (Hids : In pageID (List.map Page.ID (pages db1))).
  { rewrite (Forall2_but_slug_ids _ _ Hrows), map_app. apply in_or_app. left.
    rewrite <- Hid. apply in_map. exact Hin. }
  assert (Hidf' : Page.ID (Wiki.Page res) = pageID) by congruence.
  rewrite Hidf'.
  destruct (content_changes input page); cbn [recorded revisions next_revision_id
    pages with_revisions]; rewrite ?Hrevs, ?Hnext, ?Hid1, ?Hid, ?Hcontent;
    repeat split; try reflexivity;
    try (apply find_update_rows; assumption);
    rewrite Hcf, Hcontent; reflexivity.
Qed.



(* ------------------------------------------------------------------ *)
(** ** Placeholders *)
(* ------------------------------------------------------------------ *)

(** C10.  The placeholder pages [ensureParentPages] inserts have empty
    content and no revision: the function appends pages only and leaves
    the revision table as it is, and no revision belongs to a page it
    inserted; the same holds of every page that a successful [CreatePage]
    inserts besides the page asked for (which gets its "Initial version"
    revision) and of every page a successful [UpdatePage] inserts. *)
Theorem placeholders_have_no_revisions :
  forall (Render : string -> option string) (authorID : Z) (db : DB),
    db_wf db ->
    (forall slug,
       exists news parent,
         Wiki.ensureParentPages Render authorID slug db =
           Some (grown db news, Ok parent) /\
         revisions (grown db news) = revisions db /\
         Forall (fun p => Page.Content p = "" /\
                          forall r, In r (revisions (grown db news)) ->
                                    Revision.PageID r <> Page.ID p) news) /\
    (forall input db' page,
       Wiki.CreatePage Render authorID input db = Some (db', Ok page) ->
       forall p, In p (pages db') -> ~ In (Page.ID p) (List.map Page.ID (pages db)) ->
                 p <> page ->
                 Page.Content p = "" /\
                 forall r, In r (revisions db') -> Revision.PageID r <> Page.ID p) /\
    (forall fuel pageID input comment db' res,
       Wiki.UpdatePage Render fuel pageID authorID input comment db =
         Some (db', Ok res) ->
       forall p, In p (pages db') -> ~ In (Page.ID p) (List.map Page.ID (pages db)) ->
                 Page.Content p = "" /\
                 forall r, In r (revisions db') -> Revision.PageID r <> Page.ID p).
Proof.
  intros Render authorID db [Hkey Hfresh Hrevs].
  rewrite Forall_forall in Hfresh, Hrevs.
  split; [| split].
  - intros slug.
    destruct (ensureParentPages_appends Render authorID slug db)
      as (news & parent & Hens & Hph & _ & _).
    exists news, parent. repeat split; [exact Hens |].
    rewrite Forall_forall in *. intros p Hp.
    destruct (Hph p Hp) as (Hc & _ & _ & Hlow). split; [exact Hc |].
    intros r Hr E. cbn in Hr. specialize (Hrevs r Hr). cbn in Hrevs. lia.
  - intros input db' page Hrun p Hp Hnew Hnot.
    apply CreatePage_Ok in Hrun. cbn zeta in Hrun.
    destruct Hrun as (_ & _ & _ & news & parent & html & _ & Hph & _ & Hup & _
                      & Hpage & ->).
    cbn [pages revisions] in *. rewrite Forall_forall in Hph, Hup.
    apply in_app_or in Hp. destruct Hp as [Hp | Hp].
    { exfalso. apply Hnew. apply in_map. exact Hp. }
    apply in_app_or in Hp. destruct Hp as [Hp | [Hp | []]]; [| congruence].
    destruct (Hph p Hp) as (Hc & _ & _ & Hlow). specialize (Hup p Hp).
    split; [exact Hc |].
    intros r Hr E. apply in_app_or in Hr. destruct Hr as [Hr | [<- | []]].
    + specialize (Hrevs r Hr). cbn in Hrevs. lia.
    + cbn in E. rewrite Hpage in E. cbn in E. lia.
  - intros fuel pageID input comment db' res Hrun p Hp Hnew.
    pose proof Hrun as Hrun'. apply UpdatePage_Ok in Hrun.
    destruct Hrun as (page & db1 & page1 & Hfind & Hslug & _ & Hupd).
    destruct (UpdatePage_revisions Render _ _ _ _ _ _ _ _ _ Hfind Hrun')
      as (Hrevs' & _ & _ & _).
    destruct (find_ID_Some _ _ _ Hfind) as [Hin Hid].
    destruct (handle_slug_change_frame Render _ _ _ _ _ _ _ _ _ Hslug)
      as (news & Hph & Hrows & _ & _ & _ & _ & _).
    apply UpdatePage_db_Ok in Hupd. subst db'. cbn [pages with_pages] in Hp.
    assert (Hpages : pages (if content_changes input page1
                            then recorded db1 page1 authorID comment else db1)
                     = pages db1).
    { destruct (content_changes input page1); reflexivity. }
    rewrite Hpages in Hp. unfold update_rows in Hp. apply in_map_iff in Hp.
    destruct Hp as (q & Hq & Hqin).
    assert (Hpid : Page.ID p <> pageID).
    { intros E. apply Hnew. rewrite E, <- Hid. apply in_map. exact Hin. }
    assert (Hq' : q = p /\ Page.ID q <> Page.ID (Wiki.Page res)).
    { destruct (Z.eqb_spec (Page.ID q) (Page.ID (Wiki.Page res))) as [E | Hne].
      - subst p. exfalso. apply Hnew.
        assert (In (Page.ID q) (List.map Page.ID (pages db1)))
          by (apply in_map; exact Hqin).
        rewrite (Forall2_but_slug_ids _ _ Hrows), map_app in H.
        apply in_app_or in H. destruct H as [H | H].
        + rewrite <- E. exact H.
        + apply in_map_iff in H. destruct H as (n & Hn & Hnin).
          rewrite Forall_forall in Hph. destruct (Hph n Hnin) as (_ & _ & _ & Hlow).
          destruct (UpdatePage_revisions Render _ _ _ _ _ _ _ _ _ Hfind Hrun')
            as (_ & _ & Hf & _).
          apply find_ID_Some in Hf. destruct Hf as [_ Hf].
          specialize (Hfresh page Hin). cbn in Hfresh. lia.
      - split; [exact Hq | exact Hne]. }
    destruct Hq' as [-> _].
    destruct (Forall2_but_slug_In _ _ _ Hrows Hqin) as (p0 & Hp0 & (slug & ->)).
    apply in_app_or in Hp0. destruct Hp0 as [Hp0 | Hp0].
    { exfalso. apply Hnew. cbn. apply in_map. exact Hp0. }
    rewrite Forall_forall in Hph. destruct (Hph p0 Hp0) as (Hc & _ & _ & Hlow).
    split; [exact Hc |].
    intros r Hr E. rewrite Hrevs' in Hr. cbn in E.
    assert (Hold : forall r0, In r0 (revisions db) -> Revision.PageID r0 <> Page.ID p0).
    { intros r0 Hr0 E0. specialize (Hrevs r0 Hr0). cbn in Hrevs. lia. }
    destruct (content_changes input page).
    + apply in_app_or in Hr. destruct Hr as [Hr | [<- | []]].
      * exact (Hold r Hr E).
      * cbn in E. specialize (Hfresh page Hin). cbn in Hfresh. lia.
    + exact (Hold r Hr E).
Qed.

(* ------------------------------------------------------------------ *)
(** ** Renaming a page *)
(* ------------------------------------------------------------------ *)

Lemma grown_key authorID db news :
  db_wf db ->
  Forall (is_placeholder authorID db) news ->
  NoDup (List.map Page.ID news) ->
  NoDup (List.map Page.ID (pages db ++ news)).
Proof.
  intros [Hkey Hfresh _] Hph Hnd. rewrite map_app.
  rewrite Forall_forall in Hfresh, Hph.
  apply NoDup_app; [exact Hkey | exact Hnd |].
  intros i Hin1 Hin2.
  apply in_map_iff in Hin1. destruct Hin1 as (p & <- & Hp).
  apply in_map_iff in Hin2. destruct Hin2 as (n & E & Hn).
  specialize (Hfresh p Hp). destruct (Hph n Hn) as (_ & _ & _ & Hlow).
  cbn in Hfresh. lia.
Qed.

Lemma Descendant_In ps root p : Descendant ps root p -> In p ps.
Proof. intros H. destruct H; assumption. Qed.

Lemma rows_pages (P : Page.t -> Prop) rows :
  (forall d, In d rows -> exists p, P p /\ d = (Page.ID p, Page.Slug p)) ->
  exists l, rows = List.map (fun p => (Page.ID p, Page.Slug p)) l /\ Forall P l.
Proof.
  induction rows as [| d rows IH]; intros H.
  - exists []. split; [reflexivity | constructor].
  - destruct (H d (or_introl eq_refl)) as (p & Hp & ->).
    destruct IH as (l & -> & Hl); [intros d' Hd'; apply H; right; exact Hd' |].
    exists (p :: l). split; [reflexivity | constructor; assumption].
Qed.

Lemma filter_rows oldSlug l :
  List.filter (under oldSlug) (List.map (fun p => (Page.ID p, Page.Slug p)) l) =
  List.map (fun p => (Page.ID p, Page.Slug p))
    (List.filter (fun p => HasPrefix (Page.Slug p) (oldSlug ++ "/")) l).
Proof.
  induction l as [| p l IH]; [reflexivity |].
  cbn [List.map List.filter]. unfold under at 1. cbn [snd].
  destruct (HasPrefix (Page.Slug p) (oldSlug ++ "/")); cbn [List.map];
    rewrite IH; reflexivity.
Qed.

Lemma NoDup_map_filter {A B} (f : A -> B) (g : A -> bool) l :
  NoDup (List.map f l) -> NoDup (List.map f (List.filter g l)).
Proof.
  induction l as [| x l IH]; intros H; [constructor |].
  inversion H as [| ? ? Hnotin Hnd]; subst. cbn.
  destruct (g x); [| apply IH; exact Hnd].
  cbn. constructor; [| apply IH; exact Hnd].
  intros Hin. apply Hnotin. apply in_map_iff in Hin.
  destruct Hin as (y & Hy & Hyin). apply filter_In in Hyin.
  rewrite <- Hy. apply in_map. apply Hyin.
Qed.

(** Under the primary key, the cascade rewrites exactly the descendants
    whose slug lies under the old slug. *)
Lemma rewritten_iff ps root oldSlug rows p :
  NoDup (List.map Page.ID ps) ->
  (forall d, In d rows <->
     exists q, Descendant ps root q /\ d = (Page.ID q, Page.Slug q)) ->
  In p ps ->
  (rewritten oldSlug rows p = true <->
   Descendant ps root p /\ HasPrefix (Page.Slug p) (oldSlug ++ "/") = true).
Proof.
  intros Hkey Hrows Hp. unfold rewritten. rewrite existsb_exists. split.
  - intros (d & Hd & Hfst). apply filter_In in Hd. destruct Hd as [Hd Hu].
    apply Hrows in Hd. destruct Hd as (q & Hq & ->). cbn in Hfst.
    apply Z.eqb_eq in Hfst.
    assert (q = p).
    { apply (same_id_same_page ps); auto. eapply Descendant_In; eassumption. }
    subst q. split; assumption.
  - intros [Hd Hu]. exists (Page.ID p, Page.Slug p). split.
    + apply filter_In. split; [| exact Hu]. apply Hrows. exists p. split; auto.
    + cbn. apply Z.eqb_refl.
Qed.

Lemma In_update_rows_other id pf ps q :
  In q ps -> Page.ID q <> id -> In q (update_rows id (fun _ => pf) ps).
Proof.
  intros Hin Hne. unfold update_rows. apply in_map_iff. exists q.
  split; [| exact Hin].
  destruct (Z.eqb_spec (Page.ID q) id); [contradiction | reflexivity].
Qed.

Lemma update_rows_ids id pf ps :
  Page.ID pf = id ->
  List.map Page.ID (update_rows id (fun _ => pf) ps) = List.map Page.ID ps.
Proof.
  intros Hid. unfold update_rows. rewrite map_map. apply map_ext.
  intros p. destruct (Z.eqb_spec (Page.ID p) id); congruence.
Qed.

(** C1.  When [UpdatePage] changes the slug of a page to a new, non-empty
    normalized slug and succeeds, then - over the page table as it stands
    once the ancestors of the new slug are in place - every descendant of
    the page whose slug has the old slug followed by a slash as a literal
    prefix has that prefix replaced by the new slug, every other page but
    the renamed one is left as it was, no row is added or dropped by the
    cascade, and the reported slug changes are one pair of old and new
    slug for each rewritten descendant and nothing else.  In particular,
    renaming ["linux"] to ["commands/linux"] while ["linux/ubuntu"] exists
    leaves the slugs ["commands/linux"], ["commands/linux/ubuntu"] and
    ["commands"], and reports the single change of ["linux/ubuntu"] to
    ["commands/linux/ubuntu"]. *)
Theorem rename_cascades_to_descendants :
  forall (Render : string -> option string) (fuel : nat) (pageID authorID : Z)
         (input : PageUpdate.t) (comment : string) (db db' : DB)
         (res : Wiki.UpdateResult) (page : Page.t) (s : string),
    db_wf db ->
    find (fun p => Page.ID p =? pageID) (pages db) = Some page ->
    PageUpdate.Slug input = Some s ->
    Slugify s <> "" ->
    Slugify s <> Page.Slug page ->
    Wiki.UpdatePage Render fuel pageID authorID input comment db = Some (db', Ok res) ->
    (exists news moved_pages,
       let before := pages db ++ news in
       let oldSlug := Page.Slug page in
       let newSlug := Slugify s in
       Forall (is_placeholder authorID db) news /\
       List.map Page.ID (pages db') = List.map Page.ID before /\
       (forall p, Descendant before pageID p ->
                  HasPrefix (Page.Slug p) (oldSlug ++ "/") = true ->
                  In (Page.with_Slug p (moved oldSlug newSlug (Page.Slug p)))
                     (pages db')) /\
       (forall p, In p before -> Page.ID p <> pageID ->
                  ~ (Descendant before pageID p /\
                     HasPrefix (Page.Slug p) (oldSlug ++ "/") = true) ->
                  In p (pages db')) /\
       (In (Wiki.Page res) (pages db') /\ Page.ID (Wiki.Page res) = pageID /\
        Page.Slug (Wiki.Page res) = newSlug) /\
       NoDup (List.map Page.ID moved_pages) /\
       (forall p, In p moved_pages <->
                  Descendant before pageID p /\
                  HasPrefix (Page.Slug p) (oldSlug ++ "/") = true) /\
       Wiki.SlugChanges res =
         List.map (fun p => Wiki.mkSlugChange (Page.Slug p)
                              (moved oldSlug newSlug (Page.Slug p))) moved_pages) /\
    (exists db2 res2,
       Wiki.UpdatePage Render 4 1 1
         (PageUpdate.mk (Some "commands/linux") None None None) "" linux_db =
         Some (db2, Ok res2) /\
       List.map Page.Slug (pages db2) =
         ["commands/linux"; "commands/linux/ubuntu"; "commands"] /\
       Wiki.SlugChanges res2 =
         [Wiki.mkSlugChange "linux/ubuntu" "commands/linux/ubuntu"]).
Proof.
  intros Render fuel pageID authorID input comment db db' res page s
    Hwf Hfind Hs Hne1 Hne2 Hrun.
  split.
  2:{ do 2 eexists. split; [vm_compute; reflexivity |]. split; reflexivity. }
  pose proof Hrun as Hrun'. apply UpdatePage_Ok in Hrun.
  destruct Hrun as (page' & db1 & page1 & Hfind' & Hslug & Hfields & Hupd).
  rewrite Hfind in Hfind'. inversion Hfind'; subst page'; clear Hfind'.
  destruct (find_ID_Some _ _ _ Hfind) as [Hin Hid].
  destruct (handle_slug_change_renamed Render _ _ _ _ _ _ _ _ _ _ Hs Hne1 Hne2 Hslug)
    as (news & parent & rows & _ & _ & Hph & Hnd & Hdesc & Hcas & Hpage1).
  pose proof (grown_key authorID db news Hwf Hph Hnd) as Hkey.
  unfold GetAllDescendants in Hdesc. cbn [pages grown] in Hdesc.
  destruct (descendants_cte fuel (pages db ++ news)
              (children (pages db ++ news) pageID) []) as [rows' |] eqn:Hcte;
    [| discriminate].
  assert (rows' = rows) by (inversion Hdesc; reflexivity). subst rows'. clear Hdesc.
  destruct (traversal_result (pages db ++ news) pageID Hkey fuel rows Hcte)
    as (Hrows_nd & Hrows & _ & Hnotroot).
  apply cascade_Ok in Hcas. cbn [app] in Hcas. destruct Hcas as [Hchanges ->].
  cbn [pages grown with_pages next_page_id] in *.
  assert (Hsnap : forall d, In d rows ->
            exists q, In q (pages db ++ news) /\ d = (Page.ID q, Page.Slug q)).
  { intros d Hd. apply Hrows in Hd. destruct Hd as (q & Hq & ->).
    exists q. split; [eapply Descendant_In; eassumption | reflexivity]. }
  pose proof (cascaded_map (Page.Slug page) (Slugify s) _ rows Hkey Hsnap) as Hmap.
  cbn zeta in Hfields.
  destruct (update_fields_Some Render _ _ _ _ _ Hfields) as [_ Hpf].
  destruct (Hpf _ eq_refl) as (Hidf & Hslugf & _ & _). clear Hpf.
  rewrite Hpage1 in Hidf, Hslugf. cbn in Hidf, Hslugf. rewrite Hid in Hidf.
  apply UpdatePage_db_Ok in Hupd.
  assert (Hpages : pages db' =
            update_rows pageID (fun _ => Wiki.Page res)
              (cascaded (Page.Slug page) (Slugify s) rows (pages db ++ news))).
  { subst db'. rewrite Hidf. destruct (content_changes input page1); reflexivity. }
  clear Hupd Hfields.
  destruct (rows_pages (Descendant (pages db ++ news) pageID) rows)
    as (l & Hl & HlD).
  { intros d Hd. apply Hrows. exact Hd. }
  exists news,
    (List.filter (fun p => HasPrefix (Page.Slug p) (Page.Slug page ++ "/")) l).
  cbn zeta. rewrite Hpages.
  split; [exact Hph |]. split; [| split; [| split; [| split; [| split; [| split]]]]].
  - rewrite (update_rows_ids _ _ _ Hidf).
    apply Forall2_but_slug_ids. apply cascaded_but_slug.
  - intros p Hp Hu.
    apply In_update_rows_other; [| cbn; exact (Hnotroot p Hp)].
    rewrite Hmap. apply in_map_iff. exists p.
    pose proof (Descendant_In _ _ _ Hp) as Hpin.
    split; [| exact Hpin].
    destruct (rewritten_iff _ pageID (Page.Slug page) rows p Hkey Hrows Hpin) as [_ H].
    rewrite (H (conj Hp Hu)). reflexivity.
  - intros p Hpin Hpid Hnot.
    apply In_update_rows_other; [| exact Hpid].
    rewrite Hmap. apply in_map_iff. exists p. split; [| exact Hpin].
    destruct (rewritten (Page.Slug page) rows p) eqn:E; [| reflexivity].
    exfalso. apply Hnot.
    apply (rewritten_iff _ pageID (Page.Slug page) rows p Hkey Hrows Hpin). exact E.
  - split; [| split; assumption].
    apply find_some with (f := fun p => Page.ID p =? pageID).
    apply find_update_rows; [| exact Hidf].
    rewrite (Forall2_but_slug_ids _ _ (cascaded_but_slug _ _ _ _)), map_app.
    apply in_or_app. left. rewrite <- Hid. apply in_map. exact Hin.
  - apply NoDup_map_filter. rewrite Hl, map_map in Hrows_nd. exact Hrows_nd.
  - intros p. rewrite filter_In. rewrite Forall_forall in HlD. split.
    + intros [Hp Hu]. split; [apply HlD; exact Hp | exact Hu].
    + intros [Hp Hu]. split; [| exact Hu].
      assert (Hd : In (Page.ID p, Page.Slug p) rows)
        by (apply Hrows; exists p; split; auto).
      rewrite Hl in Hd. apply in_map_iff in Hd. destruct Hd as (q & Hq & Hqin).
      injection Hq as Hqid _.
      assert (q = p).
      { apply (same_id_same_page (pages db ++ news)); auto.
        - eapply Descendant_In. apply HlD. exact Hqin.
        - eapply Descendant_In. exact Hp. }
      subst q. exact Hqin.
  - rewrite Hchanges, Hl, filter_rows, map_map. reflexivity.
Qed.

(* ------------------------------------------------------------------ *)
(** ** Atomicity *)
(* ------------------------------------------------------------------ *)

(** What runs inside [Transaction] is all or nothing. *)
Lemma Transaction_atomic {A} (fn : M A) db db' e :
  Transaction fn db = Some (db', Err e) -> db' = db.
Proof.
  unfold Transaction. destruct (fn db) as [[db1 [a | e1]] |]; intros H;
    inversion H; reflexivity.
Qed.

Lemma DeletePages_atomic ids db db' e :
  DeletePages ids db = Some (db', Err e) -> db' = db.
Proof.
  destruct ids as [| id ids]; [discriminate |]. apply Transaction_atomic.
Qed.

(** C2: the rename cascade is not atomic.  [DeletePages] runs inside
    [Transaction]; the cascade of [UpdatePage] does not.  An update of
    ["linux"] that asks for the slug ["commands/linux"] and a blank title
    is refused with [ErrInvalidTitle] after the cascade has run: the
    child is already ["commands/linux/ubuntu"], the placeholder
    ["commands"] exists, and ["linux"] itself is where it was.  And when
    the second of two children cannot be moved because its new slug is
    taken, the first one stays moved. *)
Theorem failed_update_keeps_cascade :
  (exists db',
     Wiki.UpdatePage render_id 4 1 1
       (PageUpdate.mk (Some "commands/linux") (Some " ") None None) "" linux_db =
       Some (db', Err ErrInvalidTitle) /\
     List.map Page.Slug (pages db') = ["linux"; "commands/linux/ubuntu"; "commands"] /\
     List.map Page.Slug (pages linux_db) = ["linux"; "linux/ubuntu"]) /\
  (exists db',
     Wiki.UpdatePage render_id 4 1 1
       (PageUpdate.mk (Some "b") None None None) "" orphan_db =
       Some (db', Err (ErrWrap "failed to update descendant slug" ErrUniqueSlug)) /\
     List.map Page.Slug (pages db') = ["a"; "b/x"; "a/y"; "b/y"] /\
     List.map Page.Slug (pages orphan_db) = ["a"; "a/x"; "a/y"; "b/y"]).
Proof.
  split; eexists; (split; [vm_compute; reflexivity | split; reflexivity]).
Qed.

(* ------------------------------------------------------------------ *)
(** ** The slug normalizer *)
(* ------------------------------------------------------------------ *)

(** C7: [slugify] is not idempotent.  The hyphen between the two slashes
    of ["a/-/b"] is removed by the last pattern, after the pass that
    collapses repeated slashes, so the result ["a//b"] has a repeated
    slash, which a second application collapses. *)
Theorem slugify_twice_differs :
  slugify "a/-/b" = "a//b" /\
  slugify (slugify "a/-/b") = "a/b" /\
  slugify (slugify "a/-/b") <> slugify "a/-/b".
Proof.
  split; [reflexivity |]. split; [reflexivity |]. discriminate.
Qed.

(** *** Scanning with [ReplaceAllString] *)

Lemma drop_add a b s : drop (a + b) s = drop b (drop a s).
Proof.
  revert s. induction a as [| a IH]; intros s; [reflexivity |].
  destruct s as [| c s]; cbn; [destruct b; reflexivity | apply IH].
Qed.

Lemma drop_length_le n s : (String.length (drop n s) <= String.length s)%nat.
Proof.
  revert s. induction n as [| n IH]; intros s; [cbn; lia |].
  destruct s as [| c s]; cbn; [lia |]. specialize (IH s). lia.
Qed.

Lemma replace_from_skip re repl k s :
  replace_from re repl k s = replace_from re repl 0 (drop k s).
Proof.
  revert k. induction s as [| c s IH]; intros k.
  - destruct k; reflexivity.
  - destruct k as [| k]; [reflexivity |]. cbn [replace_from drop]. apply IH.
Qed.

(** The scan, one step at a time. *)
Lemma ReplaceAllString_step re repl c s :
  ReplaceAllString re (String c s) repl =
  match match_at re (String c s) with
  | Some (S k) => (repl ++ ReplaceAllString re (drop k s) repl)%string
  | _ => String c (ReplaceAllString re s repl)
  end.
Proof.
  unfold ReplaceAllString. cbn [replace_from].
  destruct (match_at re (String c s)) as [[| k] |]; try reflexivity.
  rewrite replace_from_skip. reflexivity.
Qed.

(** Induction along the scan. *)
Lemma ReplaceAllString_ind re repl (P : string -> string -> Prop) :
  P "" "" ->
  (forall c s k,
     match_at re (String c s) = Some (S k) ->
     P (drop k s) (ReplaceAllString re (drop k s) repl) ->
     P (String c s) (repl ++ ReplaceAllString re (drop k s) repl)%string) ->
  (forall c s,
     match_at re (String c s) = None \/ match_at re (String c s) = Some 0%nat ->
     P s (ReplaceAllString re s repl) ->
     P (String c s) (String c (ReplaceAllString re s repl))) ->
  forall s, P s (ReplaceAllString re s repl).
Proof.
  intros Hnil Hmatch Hcopy s.
  remember (String.length s) as n eqn:Hn.
  assert (Hle : (String.length s <= n)%nat) by lia. clear Hn.
  revert s Hle. induction n as [| n IH]; intros s Hle.
  - destruct s; [exact Hnil | cbn in Hle; lia].
  - destruct s as [| c s]; [exact Hnil |].
    rewrite ReplaceAllString_step.
    destruct (match_at re (String c s)) as [[| k] |] eqn:Hm.
    + apply Hcopy; [right; exact Hm |]. apply IH. cbn in Hle. lia.
    + apply Hmatch; [exact Hm |]. apply IH.
      pose proof (drop_length_le k s). cbn in Hle. lia.
    + apply Hcopy; [left; exact Hm |]. apply IH. cbn in Hle. lia.
Qed.

Lemma filter_append f a b :
  Strings.filter f (a ++ b) = (Strings.filter f a ++ Strings.filter f b)%string.
Proof.
  induction a as [| c a IH]; [reflexivity |]. cbn.
  destruct (f c); cbn; rewrite IH; reflexivity.
Qed.

Lemma forallb_append f a b :
  Strings.forallb f (a ++ b) = Strings.forallb f a && Strings.forallb f b.
Proof.
  induction a as [| c a IH]; [reflexivity |]. cbn.
  rewrite IH. apply andb_assoc.
Qed.

Lemma forallb_drop f n s :
  Strings.forallb f s = true -> Strings.forallb f (drop n s) = true.
Proof.
  revert s. induction n as [| n IH]; intros s H; [exact H |].
  destruct s as [| c s]; [reflexivity |]. cbn in *.
  apply andb_true_iff in H. apply IH. apply H.
Qed.

Lemma span_filter p f s :
  (forall c, f c = true -> p c = false) ->
  Strings.filter p (drop (span f s) s) = Strings.filter p s.
Proof.
  intros Hdis. induction s as [| c s IH]; [reflexivity |].
  cbn [span]. destruct (f c) eqn:Hf; [| reflexivity].
  cbn [drop Strings.filter]. rewrite (Hdis c Hf). exact IH.
Qed.

(** A match consists of bytes of the classes of the pattern. *)
Lemma match_at_filter p re :
  Forall (fun it => forall c, fst it c = true -> p c = false) re ->
  forall s n, match_at re s = Some n ->
              Strings.filter p (drop n s) = Strings.filter p s.
Proof.
  intros Hre. induction Hre as [| [f q] re Hf _ IH]; intros s n Hm.
  - cbn in Hm. inversion Hm. reflexivity.
  - cbn [fst] in Hf. destruct q; cbn [match_at] in Hm.
    + destruct s as [| c s]; [discriminate |].
      destruct (f c) eqn:Hfc; [| discriminate].
      destruct (match_at re s) as [m |] eqn:Hm'; [| discriminate].
      inversion Hm; subst n. cbn [drop Strings.filter].
      rewrite (Hf c Hfc). apply IH. exact Hm'.
    + destruct (match_at re (drop (span f s) s)) as [m |] eqn:Hm'; [| discriminate].
      inversion Hm; subst n. rewrite drop_add, (IH _ _ Hm').
      apply span_filter. exact Hf.
    + destruct (span f s =? 0)%nat; [discriminate |].
      destruct (match_at re (drop (span f s) s)) as [m |] eqn:Hm'; [| discriminate].
      inversion Hm; subst n. rewrite drop_add, (IH _ _ Hm').
      apply span_filter. exact Hf.
Qed.

(** Replacing matches that contain no byte of a class, by a replacement
    that contains none, keeps the bytes of the class as they are. *)
Lemma ReplaceAllString_filter p re repl :
  Forall (fun it => forall c, fst it c = true -> p c = false) re ->
  Strings.filter p repl = "" ->
  forall s, Strings.filter p (ReplaceAllString re s repl) = Strings.filter p s.
Proof.
  intros Hre Hrepl s.
  apply (ReplaceAllString_ind re repl
           (fun s r => Strings.filter p r = Strings.filter p s)).
  - reflexivity.
  - intros c s' k Hm IH. rewrite filter_append, Hrepl, IH. cbn [append].
    change (drop k s') with (drop (S k) (String c s')).
    apply (match_at_filter p re Hre). exact Hm.
  - intros c s' _ IH. cbn. rewrite IH. reflexivity.
Qed.

(** The bytes of the result come from the input or from the replacement. *)
Lemma ReplaceAllString_forallb q re repl :
  Strings.forallb q repl = true ->
  forall s, Strings.forallb q s = true ->
            Strings.forallb q (ReplaceAllString re s repl) = true.
Proof.
  intros Hrepl s.
  apply (ReplaceAllString_ind re repl
           (fun s r => Strings.forallb q s = true -> Strings.forallb q r = true)).
  - reflexivity.
  - intros c s' k _ IH H. rewrite forallb_append, Hrepl. cbn [andb].
    apply IH. apply forallb_drop. cbn in H. apply andb_true_iff in H. apply H.
  - intros c s' _ IH H. cbn in *. apply andb_true_iff in H. destruct H as [Hc Hs].
    rewrite Hc. apply IH. exact Hs.
Qed.

(** *** Trimming *)

Lemma append_nil_r (s : string) : (s ++ "")%string = s.
Proof. induction s as [| c s IH]; cbn; congruence. Qed.

Lemma append_assoc (a b c : string) : ((a ++ b) ++ c)%string = (a ++ b ++ c)%string.
Proof. induction a as [| x a IH]; cbn; congruence. Qed.

Lemma rev_snoc s c : rev (s ++ String c "") = String c (rev s).
Proof.
  induction s as [| d s IH]; [reflexivity |]. cbn. rewrite IH. reflexivity.
Qed.

Lemma rev_empty s : rev s = "" -> s = "".
Proof.
  destruct s as [| c s]; [reflexivity |]. cbn.
  destruct (rev s); discriminate.
Qed.

Lemma TrimLeft_snoc x c cut :
  TrimLeft (x ++ String c "") cut =
  match TrimLeft x cut with
  | EmptyString => if mem c cut then "" else String c ""
  | t => (t ++ String c "")%string
  end.
Proof.
  induction x as [| d x IH]; cbn.
  - destruct (mem c cut); reflexivity.
  - destruct (mem d cut); [exact IH | reflexivity].
Qed.

(** [TrimRight], from the left. *)
Lemma TrimRight_cons c s cut :
  TrimRight (String c s) cut =
  match TrimRight s cut with
  | EmptyString => if mem c cut then "" else String c ""
  | t => String c t
  end.
Proof.
  unfold TrimRight. cbn [rev]. rewrite TrimLeft_snoc.
  destruct (TrimLeft (rev s) cut) as [| d t] eqn:E.
  - cbn. destruct (mem c cut); reflexivity.
  - rewrite rev_snoc.
    destruct (rev (String d t)) eqn:E'; [| reflexivity].
    apply rev_empty in E'. discriminate.
Qed.

Lemma TrimRight_nil cut : TrimRight "" cut = "".
Proof. reflexivity. Qed.

Lemma TrimLeft_forallb q s cut :
  Strings.forallb q s = true -> Strings.forallb q (TrimLeft s cut) = true.
Proof.
  induction s as [| c s IH]; [reflexivity |]. cbn. intros H.
  apply andb_true_iff in H. destruct H as [Hc Hs].
  destruct (mem c cut); [apply IH; exact Hs |]. cbn. rewrite Hc. exact Hs.
Qed.

Lemma TrimRight_forallb q s cut :
  Strings.forallb q s = true -> Strings.forallb q (TrimRight s cut) = true.
Proof.
  induction s as [| c s IH]; [reflexivity |]. cbn [Strings.forallb]. intros H.
  apply andb_true_iff in H. destruct H as [Hc Hs]. rewrite TrimRight_cons.
  specialize (IH Hs). destruct (TrimRight s cut) as [| d t].
  - destruct (mem c cut); cbn; [reflexivity | rewrite Hc; reflexivity].
  - cbn [Strings.forallb]. rewrite Hc. exact IH.
Qed.

Lemma TrimLeft_filter p s cut :
  (forall c, mem c cut = true -> p c = false) ->
  Strings.filter p (TrimLeft s cut) = Strings.filter p s.
Proof.
  intros Hcut. induction s as [| c s IH]; [reflexivity |]. cbn.
  destruct (mem c cut) eqn:E; [rewrite (Hcut c E); exact IH | reflexivity].
Qed.

Lemma TrimRight_filter p s cut :
  (forall c, mem c cut = true -> p c = false) ->
  Strings.filter p (TrimRight s cut) = Strings.filter p s.
Proof.
  intros Hcut. induction s as [| c s IH]; [reflexivity |].
  rewrite TrimRight_cons. cbn [Strings.filter].
  destruct (TrimRight s cut) as [| d t].
  - cbn in IH. rewrite <- IH.
    destruct (mem c cut) eqn:E; [rewrite (Hcut c E); reflexivity |].
    cbn. destruct (p c); reflexivity.
  - cbn [Strings.filter]. rewrite <- IH. reflexivity.
Qed.

Lemma TrimLeft_head s cut c :
  head (TrimLeft s cut) = Some c -> mem c cut = false.
Proof.
  induction s as [| d s IH]; [discriminate |]. cbn.
  destruct (mem d cut) eqn:E; [exact IH |]. cbn. intros H. inversion H; subst.
  exact E.
Qed.

Lemma TrimRight_last s cut c :
  last (TrimRight s cut) = Some c -> mem c cut = false.
Proof.
  induction s as [| d s IH]; [discriminate |]. rewrite TrimRight_cons.
  destruct (TrimRight s cut) as [| e t].
  - destruct (mem d cut) eqn:E; [discriminate |]. cbn. intros H.
    inversion H; subst. exact E.
  - intros H. apply IH. exact H.
Qed.

Lemma TrimRight_head s cut c :
  head s = Some c -> mem c cut = false -> head (TrimRight s cut) = Some c.
Proof.
  destruct s as [| d s]; [discriminate |]. cbn [head]. intros H Hc.
  inversion H; subst d. rewrite TrimRight_cons.
  destruct (TrimRight s cut); [rewrite Hc |]; reflexivity.
Qed.

Lemma adjacent_cons a b c s :
  adjacent a b (String c s) =
  (match head s with
   | Some d => Ascii.eqb c a && Ascii.eqb d b
   | None => false
   end) || adjacent a b s.
Proof. destruct s; reflexivity. Qed.

Lemma adjacent_drop a b n s :
  adjacent a b s = false -> adjacent a b (drop n s) = false.
Proof.
  revert s. induction n as [| n IH]; intros s H; [exact H |].
  destruct s as [| c s]; [reflexivity |]. cbn [drop]. apply IH.
  rewrite adjacent_cons in H. apply orb_false_iff in H. apply H.
Qed.

Lemma TrimLeft_adjacent a b s cut :
  adjacent a b s = false -> adjacent a b (TrimLeft s cut) = false.
Proof.
  induction s as [| c s IH]; [reflexivity |]. intros H. cbn [TrimLeft].
  destruct (mem c cut); [| exact H]. apply IH.
  rewrite adjacent_cons in H. apply orb_false_iff in H. apply H.
Qed.

Lemma TrimRight_head_of s cut d :
  head (TrimRight s cut) = Some d -> head s = Some d.
Proof.
  destruct s as [| c s]; [discriminate |]. rewrite TrimRight_cons.
  destruct (TrimRight s cut); [destruct (mem c cut); [discriminate |] |];
    cbn; intros H; exact H.
Qed.

Lemma TrimRight_adjacent a b s cut :
  adjacent a b s = false -> adjacent a b (TrimRight s cut) = false.
Proof.
  induction s as [| c s IH]; [reflexivity |]. intros H.
  rewrite adjacent_cons in H. apply orb_false_iff in H. destruct H as [Hc Hs].
  rewrite TrimRight_cons. specialize (IH Hs).
  destruct (TrimRight s cut) as [| d t] eqn:E.
  - destruct (mem c cut); reflexivity.
  - rewrite adjacent_cons, IH, orb_false_r. cbn [head].
    assert (Hd : head s = Some d).
    { apply (TrimRight_head_of s cut). rewrite E. reflexivity. }
    rewrite Hd in Hc. exact Hc.
Qed.

(** *** The patterns of [slugify] *)

Lemma span_head_false f s d :
  head (drop (span f s) s) = Some d -> f d = false.
Proof.
  induction s as [| c s IH]; [discriminate |]. cbn [span].
  destruct (f c) eqn:E; cbn [drop]; [exact IH |].
  cbn. intros H. inversion H; subst. exact E.
Qed.

Lemma span_none f s :
  (forall d, head s = Some d -> f d = false) -> span f s = 0%nat.
Proof.
  destruct s as [| c s]; [reflexivity |]. intros H. cbn.
  rewrite (H c eq_refl). reflexivity.
Qed.

Lemma match_plus_inv f c s k :
  match_at [(f, Plus)] (String c s) = Some (S k) ->
  f c = true /\ k = span f s.
Proof.
  cbn. destruct (f c); [| discriminate]. cbn. intros H. inversion H.
  split; [reflexivity | lia].
Qed.

Lemma match_plus_none f c s :
  match_at [(f, Plus)] (String c s) = None \/
  match_at [(f, Plus)] (String c s) = Some 0%nat -> f c = false.
Proof.
  cbn. destruct (f c); [| reflexivity]. cbn. intros [H | H]; discriminate.
Qed.

Section Squeeze.

(** A run of the byte [c0] replaced by one [c0]: the patterns [-+] and
    [/+]. *)
Variable f : ascii -> bool.
Variable c0 : ascii.
Hypothesis Hf : forall c, f c = true <-> c = c0.

Lemma squeeze_head s :
  head (ReplaceAllString [(f, Plus)] s (String c0 "")) = head s.
Proof.
  destruct s as [| c s]; [reflexivity |]. rewrite ReplaceAllString_step.
  destruct (match_at [(f, Plus)] (String c s)) as [[| k] |] eqn:Hm;
    try reflexivity.
  apply match_plus_inv in Hm. destruct Hm as [Hc _]. apply Hf in Hc.
  subst c. reflexivity.
Qed.

(** No two [c0] in a row are left. *)
Lemma squeeze_self s :
  adjacent c0 c0 (ReplaceAllString [(f, Plus)] s (String c0 "")) = false.
Proof.
  apply (ReplaceAllString_ind [(f, Plus)] (String c0 "")
           (fun s r => adjacent c0 c0 r = false)).
  - reflexivity.
  - intros c s' k Hm IH. apply match_plus_inv in Hm. destruct Hm as [_ ->].
    cbn [append]. rewrite adjacent_cons, IH, orb_false_r, squeeze_head.
    destruct (head (drop (span f s') s')) as [d |] eqn:Hd; [| reflexivity].
    apply span_head_false in Hd.
    destruct (Ascii.eqb_spec d c0) as [-> | _]; [| apply andb_false_r].
    assert (f c0 = true) by (apply Hf; reflexivity). congruence.
  - intros c s' Hm IH. apply match_plus_none in Hm.
    rewrite adjacent_cons, IH, orb_false_r.
    destruct (Ascii.eqb_spec c c0) as [-> | _].
    + assert (f c0 = true) by (apply Hf; reflexivity). congruence.
    + destruct (head _); reflexivity.
Qed.

(** A pair that does not begin with [c0] does not appear. *)
Lemma squeeze_other a b s :
  a <> c0 ->
  adjacent a b s = false ->
  adjacent a b (ReplaceAllString [(f, Plus)] s (String c0 "")) = false.
Proof.
  intros Ha.
  apply (ReplaceAllString_ind [(f, Plus)] (String c0 "")
           (fun s r => adjacent a b s = false -> adjacent a b r = false)).
  - reflexivity.
  - intros c s' k _ IH H. cbn [append]. rewrite adjacent_cons.
    rewrite IH.
    + rewrite orb_false_r. destruct (Ascii.eqb_spec c0 a) as [E | _];
        [congruence |]. destruct (head _); reflexivity.
    + change (drop k s') with (drop (S k) (String c s')).
      apply adjacent_drop. exact H.
  - intros c s' _ IH H. rewrite adjacent_cons in H.
    apply orb_false_iff in H. destruct H as [Hc Hs].
    rewrite adjacent_cons, (IH Hs), orb_false_r, squeeze_head. exact Hc.
Qed.

End Squeeze.

Lemma is_hyphen_iff c : is_hyphen c = true <-> c = "-"%char.
Proof. apply Ascii.eqb_eq. Qed.

Lemma is_slash_iff c : is_slash c = true <-> c = "/"%char.
Proof. apply Ascii.eqb_eq. Qed.

(** What a match of [-*/+-*] looks like: it begins with a hyphen or a
    slash and is not followed by a hyphen. *)
Lemma around_slash_match c s k :
  match_at re_around_slash (String c s) = Some (S k) ->
  (is_hyphen c = true \/ is_slash c = true) /\
  (forall d, head (drop k s) = Some d -> is_hyphen d = false).
Proof.
  unfold re_around_slash. cbn [match_at].
  set (n1 := span is_hyphen (String c s)).
  set (s1 := drop n1 (String c s)).
  set (n2 := span is_slash s1).
  set (n3 := span is_hyphen (drop n2 s1)).
  destruct (n2 =? 0)%nat eqn:En2; [discriminate |]. cbn [option_map].
  intros H. inversion H as [Hk]. split.
  - destruct (is_hyphen c) eqn:Ehy; [left; reflexivity | right].
    assert (n1 = 0%nat) by (unfold n1; cbn; rewrite Ehy; reflexivity).
    assert (Hs1 : s1 = String c s) by (unfold s1; rewrite H0; reflexivity).
    apply Nat.eqb_neq in En2. unfold n2 in En2. rewrite Hs1 in En2. cbn in En2.
    destruct (is_slash c); [reflexivity | contradiction].
  - intros d Hd.
    change (drop k s) with (drop (S k) (String c s)) in Hd.
    rewrite <- Hk, !drop_add in Hd. cbn [drop] in Hd.
    fold s1 in Hd. apply (span_head_false is_hyphen (drop n2 s1)). exact Hd.
Qed.

(** Where no match starts: not at a slash, and not at a hyphen that a
    slash follows. *)
Lemma around_slash_no_match c s :
  match_at re_around_slash (String c s) = None \/
  match_at re_around_slash (String c s) = Some 0%nat ->
  is_slash c = false /\
  (is_hyphen c = true ->
   forall d, head s = Some d -> is_hyphen d = false -> is_slash d = false).
Proof.
  unfold re_around_slash. cbn [match_at]. intros H. split.
  - destruct (is_slash c) eqn:Esl; [| reflexivity]. exfalso.
    assert (Ehy : is_hyphen c = false).
    { apply is_slash_iff in Esl. subst c. reflexivity. }
    cbn [span] in H. rewrite Ehy in H. cbn [drop span] in H. rewrite Esl in H.
    cbn in H. destruct H as [H | H]; discriminate.
  - intros Ehy d Hd Ehd. destruct s as [| d' s]; [discriminate |].
    cbn in Hd. inversion Hd; subst d'. clear Hd.
    destruct (is_slash d) eqn:Esl; [| reflexivity]. exfalso.
    cbn [span] in H. rewrite Ehy, Ehd in H. cbn [drop span] in H.
    rewrite Esl in H. cbn in H. destruct H as [H | H]; discriminate.
Qed.

Lemma around_slash_not_started s :
  (forall d, head s = Some d -> is_hyphen d = false /\ is_slash d = false) ->
  starts_around_slash s = false.
Proof.
  intros H. unfold starts_around_slash, re_around_slash.
  destruct s as [| c s]; [reflexivity |].
  destruct (H c eq_refl) as [Ehy Esl].
  cbn [match_at span]. rewrite Ehy. cbn [drop span]. rewrite Esl. reflexivity.
Qed.

(** The head of the result of the last pattern. *)
Lemma around_slash_head s :
  head (ReplaceAllString re_around_slash s "/") =
  if starts_around_slash s then Some "/"%char else head s.
Proof.
  destruct s as [| c s]; [reflexivity |]. rewrite ReplaceAllString_step.
  unfold starts_around_slash.
  destruct (match_at re_around_slash (String c s)) as [[| k] |]; reflexivity.
Qed.

(** On an input without doubled hyphens, the last pattern leaves no
    doubled hyphen and no hyphen next to a slash. *)
Lemma around_slash_clean s :
  adjacent "-" "-" s = false ->
  adjacent "-" "-" (ReplaceAllString re_around_slash s "/") = false /\
  adjacent "-" "/" (ReplaceAllString re_around_slash s "/") = false /\
  adjacent "/" "-" (ReplaceAllString re_around_slash s "/") = false.
Proof.
  apply (ReplaceAllString_ind re_around_slash "/"
           (fun s r => adjacent "-" "-" s = false ->
                       adjacent "-" "-" r = false /\
                       adjacent "-" "/" r = false /\
                       adjacent "/" "-" r = false)).
  - intros _. repeat split; reflexivity.
  - intros c s' k Hm IH H.
    apply around_slash_match in Hm. destruct Hm as [_ Hrest].
    destruct IH as (IH1 & IH2 & IH3).
    { change (drop k s') with (drop (S k) (String c s')).
      apply adjacent_drop. exact H. }
    cbn [append]. rewrite !adjacent_cons, IH1, IH2, IH3, !orb_false_r.
    rewrite around_slash_head.
    destruct (starts_around_slash (drop k s')); [repeat split; reflexivity |].
    destruct (head (drop k s')) as [d |] eqn:Hd; [| repeat split; reflexivity].
    specialize (Hrest d eq_refl). unfold is_hyphen in Hrest. rewrite Hrest.
    repeat split; reflexivity.
  - intros c s' Hm IH H.
    apply around_slash_no_match in Hm. destruct Hm as [Hsl Hhy].
    rewrite adjacent_cons in H. apply orb_false_iff in H. destruct H as [Hc Hs].
    destruct (IH Hs) as (IH1 & IH2 & IH3).
    rewrite !adjacent_cons, IH1, IH2, IH3, !orb_false_r.
    unfold is_slash in Hsl. rewrite Hsl.
    destruct (Ascii.eqb_spec c "-") as [-> | _].
    2:{ destruct (head (ReplaceAllString re_around_slash s' "/"));
          repeat split; reflexivity. }
    rewrite around_slash_head. cbn [andb].
    destruct (head s') as [d |] eqn:Hd.
    + cbn [andb] in Hc. specialize (Hhy eq_refl d eq_refl).
      unfold is_hyphen, is_slash in Hhy. specialize (Hhy Hc).
      assert (Hns : starts_around_slash s' = false).
      { apply around_slash_not_started. intros d' Hd'. rewrite Hd in Hd'.
        inversion Hd'; subst d'. split; assumption. }
      rewrite Hns. cbn [andb]. rewrite Hc, Hhy. repeat split; reflexivity.
    + assert (Hns : starts_around_slash s' = false).
      { apply around_slash_not_started. intros d' Hd'. rewrite Hd in Hd'.
        discriminate. }
      rewrite Hns. repeat split; reflexivity.
Qed.

Lemma ReplaceAllString_unsafe s :
  ReplaceAllString re_unsafe s "" = Strings.filter slug_byte s.
Proof.
  apply (ReplaceAllString_ind re_unsafe ""
           (fun s r => r = Strings.filter slug_byte s)).
  - reflexivity.
  - intros c s' k Hm IH. unfold re_unsafe in Hm. cbn [match_at] in Hm.
    destruct (slug_byte c) eqn:E; cbn in Hm; [discriminate |].
    inversion Hm; subst k. cbn [append drop] in *. cbn [Strings.filter].
    rewrite E. exact IH.
  - intros c s' Hm IH. unfold re_unsafe in Hm. cbn [match_at] in Hm.
    destruct (slug_byte c) eqn:E; cbn in Hm.
    + cbn [Strings.filter]. rewrite E, IH. reflexivity.
    + destruct Hm as [Hm | Hm]; discriminate.
Qed.

Lemma forallb_filter q s : Strings.forallb q (Strings.filter q s) = true.
Proof.
  induction s as [| c s IH]; [reflexivity |]. cbn.
  destruct (q c) eqn:E; [cbn; rewrite E |]; exact IH.
Qed.

Lemma filter_filter_sub p q s :
  (forall c, p c = true -> q c = true) ->
  Strings.filter p (Strings.filter q s) = Strings.filter p s.
Proof.
  intros Hsub. induction s as [| c s IH]; [reflexivity |]. cbn.
  destruct (q c) eqn:Eq; cbn; [rewrite IH; reflexivity |].
  destruct (p c) eqn:Ep; [| exact IH].
  rewrite (Hsub c Ep) in Eq. discriminate.
Qed.

Lemma ReplaceAll_filter p s old new :
  p old = false -> p new = false ->
  Strings.filter p (ReplaceAll s old new) = Strings.filter p s.
Proof.
  intros Hold Hnew. unfold ReplaceAll.
  induction s as [| c s IH]; [reflexivity |]. cbn.
  destruct (Ascii.eqb_spec c old) as [-> | _];
    [rewrite Hold, Hnew |]; rewrite IH; reflexivity.
Qed.

Lemma forallb_head q s c :
  Strings.forallb q s = true -> head s = Some c -> q c = true.
Proof.
  destruct s as [| d s]; [discriminate |]. cbn. intros H E.
  inversion E; subst. apply andb_true_iff in H. apply H.
Qed.

Lemma forallb_last q s c :
  Strings.forallb q s = true -> last s = Some c -> q c = true.
Proof.
  induction s as [| d s IH]; [discriminate |]. cbn [Strings.forallb]. intros H E.
  apply andb_true_iff in H. destruct H as [Hd Hs].
  destruct s as [| e s]; [cbn in E; inversion E; subst; exact Hd |].
  apply (IH Hs). exact E.
Qed.

Lemma last_cons c s : s <> "" -> last (String c s) = last s.
Proof. destruct s; [contradiction | reflexivity]. Qed.

Lemma last_append a b : b <> "" -> last (a ++ b) = last b.
Proof.
  intros Hb. induction a as [| c a IH]; [reflexivity |].
  cbn [append]. rewrite last_cons; [exact IH |].
  destruct a; cbn; [exact Hb | discriminate].
Qed.

Lemma last_Some_nonempty s c : last s = Some c -> s <> "".
Proof. intros H ->. discriminate. Qed.

Lemma nonempty_last s : s <> "" -> exists c, last s = Some c.
Proof.
  induction s as [| c s IH]; [contradiction |]. intros _.
  destruct s as [| d s]; [exists c; reflexivity |].
  destruct IH as (e & He); [discriminate |]. exists e. exact He.
Qed.

Lemma last_drop n s : drop n s <> "" -> last (drop n s) = last s.
Proof.
  revert s. induction n as [| n IH]; intros s H; [reflexivity |].
  destruct s as [| c s]; [contradiction |]. cbn [drop] in *.
  rewrite (IH s H). symmetry. apply last_cons.
  intros ->. destruct n; contradiction.
Qed.

Lemma last_filter p s c :
  last s = Some c -> p c = true -> Strings.filter p s <> "".
Proof.
  induction s as [| d s IH]; [discriminate |]. intros H Hp.
  destruct s as [| e s].
  - cbn in H. inversion H; subst. cbn. rewrite Hp. discriminate.
  - cbn [Strings.filter]. destruct (p d); [discriminate |].
    apply IH; assumption.
Qed.

(** When a pattern matches only bytes of a class [g] and the replacement
    is not empty, a last byte outside [g] stays the last byte. *)
Lemma ReplaceAllString_last g re repl :
  Forall (fun it => forall c, fst it c = true -> g c = true) re ->
  repl <> "" ->
  forall s c, last s = Some c -> g c = false ->
              last (ReplaceAllString re s repl) = Some c.
Proof.
  intros Hre Hrepl s.
  apply (ReplaceAllString_ind re repl
           (fun s r => forall c, last s = Some c -> g c = false -> last r = Some c)).
  - discriminate.
  - intros c0 s' k Hm IH c Hlast Hg.
    assert (Hfilter : Strings.filter (fun x => negb (g x)) (drop k s') =
                      Strings.filter (fun x => negb (g x)) (String c0 s')).
    { change (drop k s') with (drop (S k) (String c0 s')).
      apply (match_at_filter _ re); [| exact Hm].
      eapply Forall_impl; [| exact Hre]. cbn. intros it H x Hx.
      rewrite (H x Hx). reflexivity. }
    assert (Hne : drop k s' <> "").
    { intros E. rewrite E in Hfilter. symmetry in Hfilter.
      revert Hfilter. apply (last_filter _ _ c Hlast). rewrite Hg. reflexivity. }
    assert (Hlast' : last (drop k s') = Some c).
    { change (drop k s') with (drop (S k) (String c0 s')) in *.
      rewrite last_drop; assumption. }
    specialize (IH c Hlast' Hg).
    rewrite last_append; [exact IH | eapply last_Some_nonempty; exact IH].
  - intros c0 s' _ IH c Hlast Hg.
    destruct s' as [| d s']; [exact Hlast |].
    rewrite last_cons in Hlast by discriminate.
    specialize (IH c Hlast Hg).
    rewrite last_cons; [exact IH | eapply last_Some_nonempty; exact IH].
Qed.

Lemma alnum_not_cut c : is_alnum c = true -> is_hyphen c = false /\ is_slash c = false.
Proof.
  intros H. split.
  - destruct (is_hyphen c) eqn:E; [| reflexivity].
    apply is_hyphen_iff in E. subst c. discriminate H.
  - destruct (is_slash c) eqn:E; [| reflexivity].
    apply is_slash_iff in E. subst c. discriminate H.
Qed.

Lemma slug_byte_not_cut c :
  slug_byte c = true -> mem c "-/" = false -> is_alnum c = true.
Proof.
  unfold slug_byte, is_slash, is_hyphen. cbn [mem]. intros H Hm.
  apply orb_false_iff in Hm. destruct Hm as [Hh Hm].
  apply orb_false_iff in Hm. destruct Hm as [Hs _].
  rewrite Hh, Hs, !orb_false_r in H. exact H.
Qed.

Lemma cut_not_alnum c : mem c "-/" = true -> is_alnum c = false.
Proof.
  cbn [mem]. intros H. destruct (is_alnum c) eqn:E; [| reflexivity].
  apply alnum_not_cut in E. unfold is_hyphen, is_slash in E.
  destruct E as [E1 E2]. rewrite E1, E2 in H. discriminate.
Qed.

(** The stage of [slugify] before the last pattern: only slug bytes, no
    doubled hyphen, and an alphanumeric byte at either end. *)
Lemma slugify_trimmed name :
  let t := Trim (ReplaceAllString re_slashes
                   (ReplaceAllString re_hyphens
                      (ReplaceAllString re_unsafe
                         (ReplaceAll (ReplaceAll (ToLower name) " " "-") "_" "-") "")
                      "-") "/") "-/" in
  slugify name = ReplaceAllString re_around_slash t "/" /\
  Strings.forallb slug_byte t = true /\
  Strings.filter is_alnum t = Strings.filter is_alnum (ToLower name) /\
  adjacent "-" "-" t = false /\
  (forall c, head t = Some c -> is_alnum c = true) /\
  (forall c, last t = Some c -> is_alnum c = true).
Proof.
  intros t. subst t. rewrite ReplaceAllString_unsafe.
  set (s3 := ReplaceAll (ReplaceAll (ToLower name) " " "-") "_" "-").
  set (s5 := ReplaceAllString re_hyphens (Strings.filter slug_byte s3) "-").
  set (s6 := ReplaceAllString re_slashes s5 "/").
  assert (H6 : Strings.forallb slug_byte s6 = true).
  { unfold s6, s5. apply ReplaceAllString_forallb; [reflexivity |].
    apply ReplaceAllString_forallb; [reflexivity |]. apply forallb_filter. }
  assert (Hall : Strings.forallb slug_byte (Trim s6 "-/") = true).
  { unfold Trim. apply TrimRight_forallb, TrimLeft_forallb. exact H6. }
  split; [| split; [| split; [| split; [| split]]]].
  - unfold slugify. rewrite ReplaceAllString_unsafe. reflexivity.
  - exact Hall.
  - unfold Trim. rewrite TrimRight_filter, TrimLeft_filter by apply cut_not_alnum.
    unfold s6, s5.
    rewrite ReplaceAllString_filter;
      [| repeat constructor; cbn; intros c Hc; apply is_slash_iff in Hc; subst c;
         reflexivity | reflexivity].
    rewrite ReplaceAllString_filter;
      [| repeat constructor; cbn; intros c Hc; apply is_hyphen_iff in Hc; subst c;
         reflexivity | reflexivity].
    rewrite filter_filter_sub
      by (intros c Hc; unfold slug_byte; rewrite Hc; reflexivity).
    unfold s3. rewrite !ReplaceAll_filter by reflexivity. reflexivity.
  - unfold Trim. apply TrimRight_adjacent, TrimLeft_adjacent.
    unfold s6. apply (squeeze_other is_slash "/" is_slash_iff); [discriminate |].
    unfold s5. apply (squeeze_self is_hyphen "-" is_hyphen_iff).
  - intros c Hc. apply slug_byte_not_cut.
    + apply (forallb_head _ _ _ Hall Hc).
    + unfold Trim in Hc. apply TrimRight_head_of in Hc.
      apply (TrimLeft_head _ _ _ Hc).
  - intros c Hc. apply slug_byte_not_cut.
    + apply (forallb_last _ _ _ Hall Hc).
    + unfold Trim in Hc. apply (TrimRight_last _ _ _ Hc).
Qed.



(* ================================================================== *)
(** * Further properties of the code *)
(* ================================================================== *)

(* ------------------------------------------------------------------ *)
(** ** The constraints of the schema are kept *)

Lemma keeps_ret {A} need (a : A) out :
  incl (out a) need -> keeps need (ret a) out.
Proof.
  intros Hout db db' r Hok Hneed Hrun. inversion Hrun; subst.
  split; [exact Hok |]. split; [apply incl_refl |].
  intros a' Ha. inversion Ha; subst. eapply incl_tran; eassumption.
Qed.

Lemma keeps_fail {A} need e (out : A -> list Z) : keeps need (fail e) out.
Proof.
  intros db db' r Hok Hneed Hrun. inversion Hrun; subst.
  split; [exact Hok |]. split; [apply incl_refl |]. intros a Ha. discriminate.
Qed.

Lemma keeps_bind {A B} need (c : M A) out (k : A -> M B) out' :
  keeps need c out ->
  (forall a, keeps (need ++ out a) (k a) out') ->
  keeps need (bind c k) out'.
Proof.
  intros Hc Hk db db' r Hok Hneed Hrun.
  apply bind_Some in Hrun. destruct Hrun as [(e & Hce & ->) | (db1 & a & Hca & Hka)].
  - destruct (Hc _ _ _ Hok Hneed Hce) as (H1 & H2 & _).
    split; [exact H1 |]. split; [exact H2 |]. intros a Ha. discriminate.
  - destruct (Hc _ _ _ Hok Hneed Hca) as (H1 & H2 & H3).
    specialize (H3 a eq_refl).
    destruct (Hk a db1 db' r H1) as (K1 & K2 & K3); [| exact Hka |].
    + apply incl_app; [eapply incl_tran; eassumption | exact H3].
    + split; [exact K1 |]. split; [eapply incl_tran; eassumption | exact K3].
Qed.

Lemma keeps_weaken {A} need need' (c : M A) out out' :
  keeps need c out ->
  incl need need' ->
  (forall a, incl (out' a) (need' ++ out a)) ->
  keeps need' c out'.
Proof.
  intros Hc Hn Ho db db' r Hok Hneed Hrun.
  destruct (Hc db db' r Hok) as (H1 & H2 & H3);
    [eapply incl_tran; eassumption | exact Hrun |].
  split; [exact H1 |]. split; [exact H2 |].
  intros a Ha. eapply incl_tran; [apply Ho |].
  apply incl_app; [| exact (H3 a Ha)].
  eapply incl_tran; eassumption.
Qed.

Lemma keeps_wrap {A} need ctx (c : M A) out :
  keeps need c out -> keeps need (wrap ctx c) out.
Proof.
  intros Hc db db' r Hok Hneed Hrun. unfold wrap in Hrun.
  destruct (c db) as [[db1 [a | e]] |] eqn:E; inversion Hrun; subst.
  - exact (Hc _ _ _ Hok Hneed E).
  - destruct (Hc _ _ _ Hok Hneed E) as (H1 & H2 & _).
    split; [exact H1 |]. split; [exact H2 |]. intros a Ha. discriminate.
Qed.

Lemma keeps_logged {A} need (c : M A) out :
  keeps need c out -> keeps need (logged c) (fun _ => []).
Proof.
  intros Hc db db' r Hok Hneed Hrun. unfold logged in Hrun.
  destruct (c db) as [[db1 r1] |] eqn:E; inversion Hrun; subst.
  destruct (Hc _ _ _ Hok Hneed E) as (H1 & H2 & _).
  split; [exact H1 |]. split; [exact H2 |]. intros a _ x Hx. destruct Hx.
Qed.

(** A program that only reads. *)
Lemma keeps_gets {A} need (f : DB -> A) out :
  (forall db, store_ok db -> incl (out (f db)) (ids_of db)) ->
  keeps need (gets f) out.
Proof.
  intros Hf db db' r Hok Hneed Hrun. inversion Hrun; subst.
  split; [exact Hok |]. split; [apply incl_refl |].
  intros a Ha. inversion Ha; subst. apply Hf. exact Hok.
Qed.

Lemma row_ids_found db (f : Page.t -> bool) :
  store_ok db -> incl (row_ids (find f (pages db))) (ids_of db).
Proof.
  intros Hok. destruct (find f (pages db)) as [e |] eqn:E; [| intros x []].
  apply find_some in E. destruct E as [Hin _]. cbn [row_ids].
  apply incl_cons.
  - unfold ids_of. apply in_map. exact Hin.
  - pose proof (ok_parents db Hok) as Hp. rewrite Forall_forall in Hp.
    exact (Hp e Hin).
Qed.

Lemma keeps_GetPageBySlug need slug :
  keeps need (GetPageBySlug slug) row_ids.
Proof. apply keeps_gets. intros db Hok. apply row_ids_found. exact Hok. Qed.

Lemma keeps_GetPageByID need id :
  keeps need (Queries.GetPageByID id) row_ids.
Proof. apply keeps_gets. intros db Hok. apply row_ids_found. exact Hok. Qed.

Lemma nocase_key a b : nocase_eqb a b = true <-> slug_key a = slug_key b.
Proof. unfold nocase_eqb, slug_key. apply String.eqb_eq. Qed.

Lemma key_not_taken (f : Page.t -> bool) ps slug :
  (forall p, In p ps -> f p = true -> nocase_eqb (Page.Slug p) slug = false) ->
  forall p, In p ps -> f p = true -> slug_key (Page.Slug p) <> slug_key slug.
Proof.
  intros H p Hin Hf E. apply nocase_key in E. rewrite (H p Hin Hf) in E.
  discriminate.
Qed.

Lemma existsb_false {A} (f : A -> bool) l :
  existsb f l = false <-> forall x, In x l -> f x = false.
Proof.
  split.
  - intros H x Hin. destruct (f x) eqn:E; [| reflexivity].
    rewrite <- H. symmetry. apply existsb_exists. exists x. split; assumption.
  - intros H. destruct (existsb f l) eqn:E; [| reflexivity].
    apply existsb_exists in E. destruct E as (x & Hin & Hx).
    rewrite (H x Hin) in Hx. discriminate.
Qed.

Lemma update_rows_absent id f ps :
  ~ In id (List.map Page.ID ps) -> update_rows id f ps = ps.
Proof.
  unfold update_rows. induction ps as [| p ps IH]; [reflexivity |].
  intros H. cbn [List.map] in *. destruct (Z.eqb_spec (Page.ID p) id) as [E | _].
  - exfalso. apply H. left. exact E.
  - rewrite IH; [reflexivity |]. intros Hin. apply H. right. exact Hin.
Qed.

Lemma update_rows_same_ids id f ps :
  (forall p, Page.ID (f p) = Page.ID p) ->
  List.map Page.ID (update_rows id f ps) = List.map Page.ID ps.
Proof.
  intros Hf. unfold update_rows. rewrite map_map. apply map_ext.
  intros p. destruct (Page.ID p =? id); [apply Hf | reflexivity].
Qed.

Lemma In_update_rows id f ps q :
  In q (update_rows id f ps) ->
  (In q ps /\ Page.ID q <> id) \/ (exists p, In p ps /\ Page.ID p = id /\ q = f p).
Proof.
  unfold update_rows. intros H. apply in_map_iff in H.
  destruct H as (p & Hq & Hin).
  destruct (Z.eqb_spec (Page.ID p) id) as [E | E].
  - right. exists p. auto.
  - left. subst q. auto.
Qed.

(** Writing a slug that no other row holds keeps the slugs unique. *)
Lemma update_rows_keys id f ps key :
  NoDup (List.map Page.ID ps) ->
  NoDup (List.map (fun p => slug_key (Page.Slug p)) ps) ->
  (forall p, Page.Slug (f p) = key) ->
  (forall q, In q ps -> Page.ID q <> id -> slug_key (Page.Slug q) <> slug_key key) ->
  NoDup (List.map (fun p => slug_key (Page.Slug p)) (update_rows id f ps)).
Proof.
  intros Hids Hkeys Hf Hfree. induction ps as [| p ps IH]; [constructor |].
  cbn [List.map] in Hids, Hkeys. inversion Hids as [| ? ? Hid Hids']; subst.
  inversion Hkeys as [| ? ? Hk Hkeys']; subst.
  unfold update_rows. cbn [List.map].
  destruct (Z.eqb_spec (Page.ID p) id) as [E | E].
  - fold (update_rows id f ps). rewrite update_rows_absent by (rewrite <- E; exact Hid).
    constructor; [| exact Hkeys']. rewrite Hf. intros Hin.
    apply in_map_iff in Hin. destruct Hin as (q & Hq & Hin).
    apply (Hfree q); [right; exact Hin | | exact Hq].
    intros Eq. apply Hid. rewrite E, <- Eq. apply in_map. exact Hin.
  - fold (update_rows id f ps). constructor.
    + intros Hin. apply in_map_iff in Hin. destruct Hin as (q & Hq & Hin).
      apply In_update_rows in Hin.
      destruct Hin as [(Hin & _) | (q0 & Hin & Hq0 & ->)].
      * apply Hk. rewrite <- Hq. apply (in_map (fun p => slug_key (Page.Slug p))).
        exact Hin.
      * rewrite Hf in Hq. apply (Hfree p); [left; reflexivity | exact E |].
        symmetry. exact Hq.
    + apply IH; [exact Hids' | exact Hkeys' |].
      intros q Hin. apply Hfree. right. exact Hin.
Qed.

Lemma slug_taken_false ps id slug :
  slug_taken ps id slug = false ->
  forall q, In q ps -> Page.ID q <> id -> slug_key (Page.Slug q) <> slug_key slug.
Proof.
  unfold slug_taken. intros H q Hin Hid E.
  rewrite existsb_false in H. specialize (H q Hin).
  apply nocase_key in E. rewrite E, andb_true_r in H.
  apply negb_false_iff in H. apply Z.eqb_eq in H. contradiction.
Qed.

(** A guarded rewrite of the rows with one id keeps the constraints. *)
Lemma store_ok_update db id f key :
  store_ok db ->
  (forall p, Page.ID (f p) = Page.ID p) ->
  (forall p, Page.Slug (f p) = key) ->
  (forall p, In p (pages db) ->
             incl (olist (Page.ParentID (f p))) (ids_of db)) ->
  existsb (fun p => Page.ID p =? id) (pages db) && slug_taken (pages db) id key
    = false ->
  store_ok (with_pages db (update_rows id f (pages db)) (next_page_id db)) /\
  ids_of (with_pages db (update_rows id f (pages db)) (next_page_id db)) = ids_of db.
Proof.
  intros Hok Hid Hslug Hparent Hguard.
  assert (Hsame : List.map Page.ID (update_rows id f (pages db)) = ids_of db)
    by (apply update_rows_same_ids; exact Hid).
  split; [| exact Hsame].
  destruct Hok as [H1 H2 H3 H4 H5 H6 H7].
  constructor; unfold ids_of; cbn [with_pages pages next_page_id revisions].
  - rewrite Hsame. exact H1.
  - rewrite Forall_forall in *. intros q Hq. apply In_update_rows in Hq.
    destruct Hq as [(Hq & _) | (p & Hp & _ & ->)]; [exact (H2 q Hq) |].
    rewrite Hid. exact (H2 p Hp).
  - apply andb_false_iff in Hguard. destruct Hguard as [Habs | Hfree].
    + rewrite update_rows_absent; [exact H3 |].
      rewrite existsb_false in Habs. intros Hin. apply in_map_iff in Hin.
      destruct Hin as (p & Hp & Hin). specialize (Habs p Hin).
      apply Z.eqb_neq in Habs. contradiction.
    + apply update_rows_keys with (key := key);
        [exact H1 | exact H3 | exact Hslug | apply slug_taken_false; exact Hfree].
  - rewrite Hsame. rewrite Forall_forall in *. intros q Hq.
    apply In_update_rows in Hq.
    destruct Hq as [(Hq & _) | (p & Hp & _ & ->)]; [exact (H4 q Hq) |].
    exact (Hparent p Hp).
  - rewrite Hsame. exact H5.
  - exact H6.
  - exact H7.
Qed.

Lemma keeps_UpdatePageSlug need pageID newSlug :
  keeps need (UpdatePageSlug pageID newSlug) (fun _ => []).
Proof.
  intros db db' r Hok Hneed Hrun. unfold UpdatePageSlug in Hrun.
  destruct (existsb (fun p => Page.ID p =? pageID) (pages db)
            && slug_taken (pages db) pageID newSlug) eqn:Hguard;
    inversion Hrun; subst.
  - split; [exact Hok |]. split; [apply incl_refl |]. intros a Ha. discriminate.
  - destruct (store_ok_update db pageID (fun p => Page.with_Slug p newSlug) newSlug)
      as (H1 & H2); try assumption; try reflexivity.
    + intros p Hp. pose proof (ok_parents db Hok) as H4.
      rewrite Forall_forall in H4. exact (H4 p Hp).
    + split; [exact H1 |]. rewrite H2. split; [apply incl_refl |].
      intros a _ x [].
Qed.

Lemma keeps_UpdatePage_db page :
  keeps (olist (Page.ParentID page)) (Queries.UpdatePage page) (fun _ => []).
Proof.
  intros db db' r Hok Hneed Hrun. unfold Queries.UpdatePage in Hrun.
  destruct (existsb (fun p => Page.ID p =? Page.ID page) (pages db)
            && slug_taken (pages db) (Page.ID page) (Page.Slug page)) eqn:Hguard;
    inversion Hrun; subst.
  - split; [exact Hok |]. split; [apply incl_refl |]. intros a Ha. discriminate.
  - apply andb_false_iff in Hguard.
    destruct (existsb (fun p => Page.ID p =? Page.ID page) (pages db)) eqn:Hex.
    + destruct Hguard as [Habs | Hfree]; [discriminate |].
      assert (Hrows : update_rows (Page.ID page) (fun _ => page) (pages db) =
                      update_rows (Page.ID page)
                        (fun p => Page.with_ID page (Page.ID p)) (pages db)).
      { unfold update_rows. apply map_ext. intros p.
        destruct (Z.eqb_spec (Page.ID p) (Page.ID page)) as [E | _];
          [| reflexivity].
        rewrite E. destruct page; reflexivity. }
      rewrite Hrows.
      destruct (store_ok_update db (Page.ID page)
                  (fun p => Page.with_ID page (Page.ID p)) (Page.Slug page))
        as (H1 & H2); try assumption; try reflexivity.
      * intros p _. exact Hneed.
      * rewrite Hex, Hfree. reflexivity.
      * split; [exact H1 |]. rewrite H2. split; [apply incl_refl |].
        intros a _ x [].
    + rewrite update_rows_absent.
      * rewrite with_pages_same. split; [exact Hok |].
        split; [apply incl_refl |]. intros a _ x [].
      * rewrite existsb_false in Hex. intros Hin. apply in_map_iff in Hin.
        destruct Hin as (p & Hp & Hin). specialize (Hex p Hin).
        apply Z.eqb_neq in Hex. contradiction.
Qed.

Lemma keeps_CreatePage_db page :
  keeps (olist (Page.ParentID page)) (Queries.CreatePage page) (fun id => [id]).
Proof.
  intros db db' r Hok Hneed Hrun. unfold Queries.CreatePage in Hrun.
  destruct (existsb (fun p => nocase_eqb (Page.Slug p) (Page.Slug page)) (pages db))
    eqn:Hguard; inversion Hrun; subst.
  - split; [exact Hok |]. split; [apply incl_refl |]. intros a Ha. discriminate.
  - destruct Hok as [H1 H2 H3 H4 H5 H6 H7].
    assert (Hgrow : incl (ids_of db)
                      (List.map Page.ID
                         (pages db ++ [Page.with_ID page (next_page_id db)]))).
    { rewrite map_app. apply incl_appl, incl_refl. }
    split; [| split; [exact Hgrow |]].
    + constructor; unfold ids_of in *; cbn [with_pages pages next_page_id revisions].
      * rewrite map_app. cbn [List.map Page.with_ID Page.ID].
        apply NoDup_app; [exact H1 | repeat constructor; intros [] |].
        intros x Hx [Hy | []]. subst x. apply in_map_iff in Hx.
        destruct Hx as (p & Hp & Hin). rewrite Forall_forall in H2.
        specialize (H2 p Hin). lia.
      * apply Forall_app. split.
        -- eapply Forall_impl; [| exact H2]. cbn. intros p Hp. lia.
        -- repeat constructor. cbn. lia.
      * rewrite map_app. cbn [List.map Page.with_ID Page.Slug].
        apply NoDup_app; [exact H3 | repeat constructor; intros [] |].
        intros x Hx [Hy | []]. subst x. apply in_map_iff in Hx.
        destruct Hx as (p & Hp & Hin). rewrite existsb_false in Hguard.
        specialize (Hguard p Hin). apply nocase_key in Hp.
        rewrite Hp in Hguard. discriminate.
      * apply Forall_app. split.
        -- eapply Forall_impl; [| exact H4]. cbn. intros p Hp.
           eapply incl_tran; [exact Hp | exact Hgrow].
        -- repeat constructor. cbn [Page.with_ID Page.ParentID].
           eapply incl_tran; [exact Hneed | exact Hgrow].
      * eapply Forall_impl; [| exact H5]. cbn. intros x Hx. apply Hgrow. exact Hx.
      * exact H6.
      * exact H7.
    + intros a Ha. inversion Ha; subst. intros x [Hx | []]. subst x.
      unfold ids_of. cbn [with_pages pages]. rewrite map_app. apply in_or_app. right. left. reflexivity.
Qed.

Lemma keeps_CreateRevision rev :
  keeps [Revision.PageID rev] (CreateRevision rev) (fun _ => []).
Proof.
  intros db db' r Hok Hneed Hrun. unfold CreateRevision in Hrun.
  inversion Hrun; subst. destruct Hok as [H1 H2 H3 H4 H5 H6 H7].
  split; [| split; [apply incl_refl | intros a _ x []]].
  constructor; unfold ids_of in *;
    cbn [with_revisions pages next_page_id revisions next_revision_id];
    try assumption.
  - apply Forall_app. split; [exact H5 |]. repeat constructor.
    cbn [Revision.PageID]. apply Hneed. left. reflexivity.
  - rewrite map_app. cbn [List.map Revision.ID].
    apply NoDup_app; [exact H6 | repeat constructor; intros [] |].
    intros x Hx [Hy | []]. subst x. apply in_map_iff in Hx.
    destruct Hx as (r0 & Hr0 & Hin). rewrite Forall_forall in H7.
    specialize (H7 r0 Hin). lia.
  - apply Forall_app. split.
    + eapply Forall_impl; [| exact H7]. cbn. intros r0 Hr0. lia.
    + repeat constructor. cbn. lia.
Qed.

Lemma keeps_GetAllDescendants need fuel id :
  keeps need (GetAllDescendants fuel id) (fun _ => []).
Proof.
  intros db db' r Hok Hneed Hrun. unfold GetAllDescendants in Hrun.
  destruct (descendants_cte fuel (pages db) (children (pages db) id) []);
    inversion Hrun; subst.
  split; [exact Hok |]. split; [apply incl_refl | intros a _ x []].
Qed.

Ltac solve_incl :=
  let x := fresh "x" in
  let Hx := fresh "Hx" in
  intros x Hx;
  cbn [row_ids olist fst Wiki.Page Page.ID Page.ParentID Page.with_ID
       Page.with_Slug Page.with_ParentID Revision.PageID] in *;
  repeat rewrite in_app_iff in *; cbn [In] in *; intuition (subst; auto).

Section KeepsConstraints.

Variable Render : string -> option string.

Lemma keeps_ensure_loop authorID parts idx :
  forall parentID,
    keeps (olist parentID) (Wiki.ensure_loop Render authorID parts idx parentID) olist.
Proof.
  induction idx as [| i idx IH]; intros parentID; cbn [Wiki.ensure_loop].
  - apply keeps_ret. apply incl_refl.
  - eapply keeps_bind; [apply keeps_GetPageBySlug |].
    intros [e |].
    + eapply keeps_weaken; [apply (IH (Some (Page.ID e))) | solve_incl |].
      intros ?; solve_incl.
    + eapply keeps_bind.
      * apply keeps_wrap.
        eapply keeps_weaken; [apply keeps_CreatePage_db | solve_incl |].
        intros ?. apply incl_appr, incl_refl.
      * intros id. eapply keeps_weaken; [apply (IH (Some id)) | solve_incl |].
        intros ?; solve_incl.
Qed.

Lemma keeps_ensureParentPages need authorID slug :
  keeps need (Wiki.ensureParentPages Render authorID slug) olist.
Proof.
  unfold Wiki.ensureParentPages.
  destruct (length (Split slug "/") <=? 1)%nat.
  - apply keeps_ret. intros x [].
  - eapply keeps_weaken; [apply (keeps_ensure_loop _ _ _ None) | intros x [] |].
    intros ?; solve_incl.
Qed.

Lemma keeps_parents need authorID slug :
  keeps need
    (if Contains slug "/"
     then wrap "failed to create parent pages"
            (Wiki.ensureParentPages Render authorID slug)
     else ret None) olist.
Proof.
  destruct (Contains slug "/").
  - apply keeps_wrap, keeps_ensureParentPages.
  - apply keeps_ret. intros x [].
Qed.

Lemma keeps_CreatePage authorID input :
  keeps [] (Wiki.CreatePage Render authorID input) (fun page => [Page.ID page]).
Proof.
  unfold Wiki.CreatePage.
  destruct (String.eqb _ ""); [apply keeps_fail |].
  destruct (String.eqb _ ""); [apply keeps_fail |].
  eapply keeps_bind; [apply keeps_wrap, keeps_GetPageBySlug |].
  intros [e |]; [apply keeps_fail |].
  eapply keeps_bind; [apply keeps_parents |].
  intros parentID. destruct (Render (PageCreate.Content input)) as [html |];
    [| apply keeps_fail].
  eapply keeps_bind.
  - apply keeps_wrap.
    eapply keeps_weaken; [apply keeps_CreatePage_db | solve_incl |].
    intros ?. apply incl_appr, incl_refl.
  - intros id. eapply keeps_bind.
    + apply keeps_logged with (out := fun _ => []).
      eapply keeps_weaken; [apply keeps_CreateRevision | solve_incl |].
      intros ? x [].
    + intros ?. apply keeps_ret. solve_incl.
Qed.

Lemma keeps_cascade need oldSlug newSlug descendants :
  forall slugChanges,
    keeps need (Wiki.cascade oldSlug newSlug descendants slugChanges) (fun _ => []).
Proof.
  induction descendants as [| d rest IH]; intros slugChanges; cbn [Wiki.cascade].
  - apply keeps_ret. intros x [].
  - destruct (HasPrefix (snd d) (oldSlug ++ "/")); [| apply IH].
    eapply keeps_bind; [apply keeps_wrap, keeps_UpdatePageSlug |].
    intros ?. eapply keeps_weaken; [apply IH | apply incl_appl, incl_refl |].
    intros ? x [].
Qed.

Lemma keeps_handle_slug_change fuel pageID authorID input page :
  keeps (row_ids (Some page))
    (Wiki.handle_slug_change Render fuel pageID authorID input page)
    (fun renamed => row_ids (Some (fst renamed))).
Proof.
  unfold Wiki.handle_slug_change.
  destruct (PageUpdate.Slug input) as [s |];
    [| apply keeps_ret; apply incl_refl].
  destruct (negb (String.eqb (Slugify s) "")
            && negb (String.eqb (Slugify s) (Page.Slug page)));
    [| apply keeps_ret; apply incl_refl].
  eapply keeps_bind; [apply keeps_wrap, keeps_GetPageBySlug |].
  intros existing. eapply keeps_bind with (out := fun _ => []).
  { destruct existing as [e |]; [destruct (negb (Page.ID e =? pageID)) |];
      first [apply keeps_fail | apply keeps_ret; intros x []]. }
  intros ?. eapply keeps_bind; [apply keeps_parents |].
  intros newParentID.
  eapply keeps_bind; [apply keeps_wrap, keeps_GetAllDescendants |].
  intros descendants.
  eapply keeps_bind; [apply keeps_cascade |].
  intros slugChanges. apply keeps_ret. solve_incl.
Qed.

Lemma keeps_save_revision authorID input comment page :
  keeps [Page.ID page] (Wiki.save_revision authorID input comment page)
    (fun _ => []).
Proof.
  unfold Wiki.save_revision.
  destruct (PageUpdate.Content input) as [c |]; [| apply keeps_ret; intros x []].
  destruct (negb (String.eqb c (Page.Content page)));
    [| apply keeps_ret; intros x []].
  apply keeps_logged with (out := fun _ => []).
  exact (keeps_CreateRevision
           (Revision.mk 0 (Page.ID page) (Page.Content page) authorID comment)).
Qed.

Lemma keeps_update_fields input page :
  keeps (row_ids (Some page)) (Wiki.update_fields Render input page)
    (fun pf => row_ids (Some pf)).
Proof.
  intros db db' r Hok Hneed Hrun.
  destruct (update_fields_Some Render _ _ _ _ _ Hrun) as (-> & Hpf).
  split; [exact Hok |]. split; [apply incl_refl |].
  intros pf ->. destruct (Hpf pf eq_refl) as (Hid & _ & Hparent & _).
  cbn [row_ids] in *. rewrite Hid, Hparent. exact Hneed.
Qed.

Lemma keeps_UpdatePage fuel pageID authorID input comment :
  keeps [] (Wiki.UpdatePage Render fuel pageID authorID input comment)
    (fun res => [Page.ID (Wiki.Page res)]).
Proof.
  unfold Wiki.UpdatePage.
  eapply keeps_bind; [apply keeps_wrap, keeps_GetPageByID |].
  intros [page |]; [| apply keeps_fail].
  eapply keeps_bind.
  { eapply keeps_weaken; [apply keeps_handle_slug_change | solve_incl |].
    intros ?. apply incl_appr, incl_refl. }
  intros renamed. eapply keeps_bind with (out := fun _ => []).
  { eapply keeps_weaken; [apply keeps_save_revision | solve_incl | intros ? x []]. }
  intros ?. eapply keeps_bind.
  { eapply keeps_weaken; [apply keeps_update_fields | solve_incl |].
    intros ?. apply incl_appr, incl_refl. }
  intros pf. eapply keeps_bind with (out := fun _ => []).
  { apply keeps_wrap.
    eapply keeps_weaken; [apply keeps_UpdatePage_db | solve_incl | intros ? x []]. }
  intros ?. apply keeps_ret. solve_incl.
Qed.

Lemma keeps_RevertToRevision fuel revisionID authorID :
  keeps [] (Wiki.RevertToRevision Render fuel revisionID authorID)
    (fun page => [Page.ID page]).
Proof.
  unfold Wiki.RevertToRevision.
  eapply keeps_bind with (out := fun _ => []).
  - unfold Wiki.GetRevision. eapply keeps_bind with (out := fun _ => []).
    + apply keeps_wrap, keeps_gets. intros db _ x [].
    + intros [rev |]; [apply keeps_ret; intros x [] | apply keeps_fail].
  - intros rev. eapply keeps_bind.
    + eapply keeps_weaken; [apply keeps_UpdatePage | intros x [] |].
      intros ?. apply incl_appr, incl_refl.
    + intros res. apply keeps_ret. solve_incl.
Qed.

End KeepsConstraints.

(* ------------------------------------------------------------------ *)
(** ** Looking pages up, and deleting them *)

Lemma NoDup_map_eq {A B} (f : A -> B) l a b :
  NoDup (List.map f l) -> In a l -> In b l -> f a = f b -> a = b.
Proof.
  induction l as [| x l IH]; [intros _ [] |].
  cbn [List.map]. intros Hnd Ha Hb E. inversion Hnd as [| ? ? Hx Hnd']; subst.
  destruct Ha as [-> | Ha], Hb as [-> | Hb].
  - reflexivity.
  - exfalso. apply Hx. rewrite E. apply in_map. exact Hb.
  - exfalso. apply Hx. rewrite <- E. apply in_map. exact Ha.
  - apply IH; assumption.
Qed.

Lemma find_by_key {A B} (f : A -> B) (test : A -> bool) l a :
  NoDup (List.map f l) -> In a l ->
  (forall x, In x l -> (test x = true <-> f x = f a)) ->
  find test l = Some a.
Proof.
  intros Hnd Ha Htest.
  destruct (find test l) as [x |] eqn:E.
  - apply find_some in E. destruct E as [Hx Ht].
    apply (Htest x Hx) in Ht. f_equal.
    apply (NoDup_map_eq f l); assumption.
  - pose proof (find_none _ _ E a Ha) as Hn.
    assert (Ht : test a = true) by (apply (Htest a Ha); reflexivity).
    rewrite Ht in Hn. discriminate.
Qed.

Lemma find_by_id db page :
  store_ok db -> In page (pages db) ->
  find (fun p => Page.ID p =? Page.ID page) (pages db) = Some page.
Proof.
  intros Hok Hin. apply (find_by_key Page.ID); [apply (ok_ids db Hok) | exact Hin |].
  intros x _. apply Z.eqb_eq.
Qed.

Lemma find_by_slug db page slug :
  store_ok db -> In page (pages db) ->
  nocase_eqb slug (Page.Slug page) = true ->
  find (fun p => nocase_eqb (Page.Slug p) slug) (pages db) = Some page.
Proof.
  intros Hok Hin Hslug. apply nocase_key in Hslug.
  apply (find_by_key (fun p => slug_key (Page.Slug p)));
    [apply (ok_slugs db Hok) | exact Hin |].
  intros x _. rewrite nocase_key, Hslug. reflexivity.
Qed.

Lemma GetPage_eq slug db :
  Wiki.GetPage slug db =
  match find (fun p => nocase_eqb (Page.Slug p) slug) (pages db) with
  | Some page => Some (db, Ok page)
  | None => Some (db, Err ErrPageNotFound)
  end.
Proof.
  unfold Wiki.GetPage, bind, wrap, GetPageBySlug, gets.
  destruct (find _ (pages db)); reflexivity.
Qed.

Lemma GetPageByID_eq id db :
  Wiki.GetPageByID id db =
  match find (fun p => Page.ID p =? id) (pages db) with
  | Some page => Some (db, Ok page)
  | None => Some (db, Err ErrPageNotFound)
  end.
Proof.
  unfold Wiki.GetPageByID, bind, wrap, Queries.GetPageByID, gets.
  destruct (find _ (pages db)); reflexivity.
Qed.

Lemma DeletePage_eq id db :
  Wiki.DeletePage id db =
  match find (fun p => Page.ID p =? id) (pages db) with
  | Some _ => Some (delete_row id db, Ok tt)
  | None => Some (db, Err ErrPageNotFound)
  end.
Proof.
  unfold Wiki.DeletePage, bind, wrap, Queries.GetPageByID, gets, Queries.DeletePage.
  destruct (find _ (pages db)); reflexivity.
Qed.

(** The row a page leaves behind when the page [id] is deleted. *)
Lemma In_delete_row id db q' :
  In q' (pages (delete_row id db)) <->
  exists q, In q (pages db) /\ Page.ID q <> id /\
            q' = if has_parent q id then Page.with_ParentID q None else q.
Proof.
  unfold delete_row. cbn [pages]. rewrite in_map_iff. split.
  - intros (q & Hq & Hin). apply filter_In in Hin. destruct Hin as [Hin Hid].
    apply negb_true_iff, Z.eqb_neq in Hid. exists q.
    split; [exact Hin |]. split; [exact Hid |]. subst q'. unfold has_parent.
    destruct (Page.ParentID q); reflexivity.
  - intros (q & Hin & Hid & ->). exists q. split.
    + unfold has_parent. destruct (Page.ParentID q); reflexivity.
    + apply filter_In. split; [exact Hin |].
      apply negb_true_iff, Z.eqb_neq. exact Hid.
Qed.

Lemma orphaned_fields q id :
  Page.ID (if has_parent q id then Page.with_ParentID q None else q) = Page.ID q /\
  Page.Slug (if has_parent q id then Page.with_ParentID q None else q) = Page.Slug q.
Proof. destruct (has_parent q id); split; reflexivity. Qed.

Lemma ids_delete_row id db x :
  In x (ids_of (delete_row id db)) <-> In x (ids_of db) /\ x <> id.
Proof.
  unfold ids_of. rewrite !in_map_iff. split.
  - intros (q' & <- & Hin). apply In_delete_row in Hin.
    destruct Hin as (q & Hin & Hid & ->).
    destruct (orphaned_fields q id) as [-> _]. split; [| exact Hid].
    exists q. auto.
  - intros ((q & <- & Hin) & Hid).
    exists (if has_parent q id then Page.with_ParentID q None else q).
    split; [apply orphaned_fields |]. apply In_delete_row. exists q. auto.
Qed.

Lemma map_delete_row {B} (f : Page.t -> B) id db :
  (forall q, f (Page.with_ParentID q None) = f q) ->
  List.map f (pages (delete_row id db)) =
  List.map f (List.filter (fun p => negb (Page.ID p =? id)) (pages db)).
Proof.
  intros Hf. unfold delete_row. cbn [pages]. rewrite map_map. apply map_ext.
  intros q. destruct (Page.ParentID q) as [x |]; [| reflexivity].
  destruct (x =? id); [apply Hf | reflexivity].
Qed.

Lemma store_ok_delete id db : store_ok db -> store_ok (delete_row id db).
Proof.
  intros Hok. pose proof Hok as [H1 H2 H3 H4 H5 H6 H7]. constructor.
  - unfold ids_of. rewrite map_delete_row by reflexivity.
    apply NoDup_map_filter. exact H1.
  - rewrite Forall_forall in *. intros q' Hq'. apply In_delete_row in Hq'.
    destruct Hq' as (q & Hin & _ & ->).
    destruct (orphaned_fields q id) as [-> _]. exact (H2 q Hin).
  - rewrite map_delete_row by reflexivity. apply NoDup_map_filter. exact H3.
  - rewrite Forall_forall in *. intros q' Hq'. apply In_delete_row in Hq'.
    destruct Hq' as (q & Hin & Hid & ->). specialize (H4 q Hin).
    unfold has_parent. destruct (Page.ParentID q) as [x |] eqn:Hp;
      [| rewrite Hp; intros y []].
    destruct (Z.eqb_spec x id) as [E | E]; [intros y [] |].
    rewrite Hp. intros y [<- | []]. apply ids_delete_row.
    split; [apply H4; left; reflexivity | exact E].
  - rewrite Forall_forall in *. intros r Hr. unfold delete_row in Hr.
    cbn [revisions] in Hr. apply filter_In in Hr. destruct Hr as [Hr Hid].
    apply negb_true_iff, Z.eqb_neq in Hid. apply ids_delete_row.
    split; [exact (H5 r Hr) | exact Hid].
  - unfold delete_row. cbn [revisions]. apply NoDup_map_filter. exact H6.
  - unfold delete_row. cbn [revisions next_revision_id].
    rewrite Forall_forall in *. intros r Hr. apply filter_In in Hr.
    exact (H7 r (proj1 Hr)).
Qed.

(** X1.  Every write operation of the page service leaves the constraints
    of the schema in force, whatever it returns, also when it fails half
    way: page ids stay a key below the next id, and so do revision ids;
    slugs stay unique under [NOCASE]; every parent link and every revision
    points to a page that exists.  Creating, updating and reverting remove
    no page. *)
Theorem writes_keep_constraints :
  forall (Render : string -> option string) (db : DB),
    store_ok db ->
    (forall authorID input db' r,
       Wiki.CreatePage Render authorID input db = Some (db', r) ->
       store_ok db' /\ incl (ids_of db) (ids_of db')) /\
    (forall fuel pageID authorID input comment db' r,
       Wiki.UpdatePage Render fuel pageID authorID input comment db = Some (db', r) ->
       store_ok db' /\ incl (ids_of db) (ids_of db')) /\
    (forall fuel revisionID authorID db' r,
       Wiki.RevertToRevision Render fuel revisionID authorID db = Some (db', r) ->
       store_ok db' /\ incl (ids_of db) (ids_of db')) /\
    (forall pageID db' r,
       Wiki.DeletePage pageID db = Some (db', r) -> store_ok db').
Proof.
  intros Render db Hok.
  split; [| split; [| split]].
  - intros authorID input db' r Hrun.
    destruct (keeps_CreatePage Render authorID input db db' r Hok) as (H1 & H2 & _);
      [intros x [] | exact Hrun |]. split; assumption.
  - intros fuel pageID authorID input comment db' r Hrun.
    destruct (keeps_UpdatePage Render fuel pageID authorID input comment db db' r Hok)
      as (H1 & H2 & _); [intros x [] | exact Hrun |]. split; assumption.
  - intros fuel revisionID authorID db' r Hrun.
    destruct (keeps_RevertToRevision Render fuel revisionID authorID db db' r Hok)
      as (H1 & H2 & _); [intros x [] | exact Hrun |]. split; assumption.
  - intros pageID db' r Hrun. rewrite DeletePage_eq in Hrun.
    destruct (find _ (pages db)); inversion Hrun; subst;
      [apply store_ok_delete |]; exact Hok.
Qed.

(** X2.  A page that was created is found again: by its id, by its slug
    in any spelling of upper and lower case, and by [PageExists]; before
    the call [PageExists] said no; and a second page with the same slug is
    refused with [ErrPageExists], the store left as it is. *)
Theorem created_page_is_found :
  forall (Render : string -> option string) (authorID : Z)
         (input : PageCreate.t) (db db' : DB) (page : Page.t),
    store_ok db ->
    Wiki.CreatePage Render authorID input db = Some (db', Ok page) ->
    Wiki.GetPageByID (Page.ID page) db' = Some (db', Ok page) /\
    (forall slug, nocase_eqb slug (Page.Slug page) = true ->
                  Wiki.GetPage slug db' = Some (db', Ok page)) /\
    Wiki.PageExists (Page.Slug page) db = Some (db, Ok false) /\
    Wiki.PageExists (Page.Slug page) db' = Some (db', Ok true) /\
    (forall authorID2 input2,
       create_slug input2 = Page.Slug page ->
       TrimSpace (PageCreate.Title input2) <> "" ->
       Wiki.CreatePage Render authorID2 input2 db' = Some (db', Err ErrPageExists)).
Proof.
  intros Render authorID input db db' page Hok Hrun.
  destruct (keeps_CreatePage Render authorID input db db' (Ok page) Hok)
    as (Hok' & _ & _); [intros x [] | exact Hrun |].
  pose proof (CreatePage_Ok Render _ _ _ _ _ Hrun) as Hshape.
  cbn zeta in Hshape.
  destruct Hshape as (Hslug & _ & Hfree & news & parent & html & _ & _ & _ & _ & _
                      & Hpage & Hdb').
  assert (Hin : In page (pages db')).
  { rewrite Hdb'. cbn [pages]. apply in_or_app. right. apply in_or_app. right.
    left. reflexivity. }
  assert (Hs : Page.Slug page = create_slug input) by (rewrite Hpage; reflexivity).
  assert (Hfound : forall slug, nocase_eqb slug (Page.Slug page) = true ->
            find (fun p => nocase_eqb (Page.Slug p) slug) (pages db') = Some page).
  { intros slug Hn. apply find_by_slug; assumption. }
  split; [| split; [| split; [| split]]].
  - rewrite GetPageByID_eq, (find_by_id db' page Hok' Hin). reflexivity.
  - intros slug Hn. rewrite GetPage_eq, (Hfound slug Hn). reflexivity.
  - unfold Wiki.PageExists, bind, GetPageBySlug, gets, ret.
    rewrite Hs, Hfree. reflexivity.
  - unfold Wiki.PageExists, bind, GetPageBySlug, gets, ret.
    rewrite (Hfound _ (nocase_eqb_refl _)). reflexivity.
  - intros authorID2 input2 Hs2 Ht2.
    destruct (CreatePage_refusals Render authorID2 input2 db') as (_ & _ & H).
    apply (H ltac:(rewrite Hs2, Hs; exact Hslug) Ht2 page).
    rewrite Hs2. apply Hfound. apply nocase_eqb_refl.
Qed.

(** X3.  Deleting a page: an id that no page has is answered with
    [ErrPageNotFound] and nothing is written.  Otherwise the page is gone
    for lookups by id and by slug; its revisions and share links are gone
    and no other revision or link is; every other page is still there
    with its id and slug, and those that were its children have no parent
    any more (their slugs still begin with the slug of the deleted page). *)
Theorem delete_page_removes :
  forall (db : DB) (pageID : Z),
    store_ok db ->
    (find (fun p => Page.ID p =? pageID) (pages db) = None ->
     Wiki.DeletePage pageID db = Some (db, Err ErrPageNotFound)) /\
    (forall page,
       find (fun p => Page.ID p =? pageID) (pages db) = Some page ->
       exists db',
         Wiki.DeletePage pageID db = Some (db', Ok tt) /\
         Wiki.GetPageByID pageID db' = Some (db', Err ErrPageNotFound) /\
         Wiki.GetPage (Page.Slug page) db' = Some (db', Err ErrPageNotFound) /\
         (forall r, In r (revisions db') <->
                    In r (revisions db) /\ Revision.PageID r <> pageID) /\
         (forall l, In l (share_links db') <->
                    In l (share_links db) /\ ShareLink.PageID l <> pageID) /\
         (forall q', In q' (pages db') <->
            exists q, In q (pages db) /\ Page.ID q <> pageID /\
                      q' = if has_parent q pageID
                           then Page.with_ParentID q None else q) /\
         (forall q', In q' (pages db') -> Page.ParentID q' <> Some pageID)).
Proof.
  intros db pageID Hok. split.
  - intros Hnone. rewrite DeletePage_eq, Hnone. reflexivity.
  - intros page Hfind. exists (delete_row pageID db).
    destruct (find_ID_Some _ _ _ Hfind) as [Hin Hid].
    split; [rewrite DeletePage_eq, Hfind; reflexivity |].
    split; [| split; [| split; [| split; [| split]]]].
    + rewrite GetPageByID_eq.
      destruct (find _ (pages (delete_row pageID db))) as [q' |] eqn:E;
        [| reflexivity].
      apply find_some in E. destruct E as [Hq' Hq'id]. apply Z.eqb_eq in Hq'id.
      apply In_delete_row in Hq'. destruct Hq' as (q & _ & Hne & ->).
      destruct (orphaned_fields q pageID) as [Hi _]. rewrite Hi in Hq'id.
      contradiction.
    + rewrite GetPage_eq.
      destruct (find _ (pages (delete_row pageID db))) as [q' |] eqn:E;
        [| reflexivity].
      apply find_some in E. destruct E as [Hq' Hkey]. apply nocase_key in Hkey.
      apply In_delete_row in Hq'. destruct Hq' as (q & Hq & Hne & ->).
      destruct (orphaned_fields q pageID) as [_ Hs]. rewrite Hs in Hkey.
      exfalso. apply Hne. rewrite <- Hid. f_equal.
      apply (NoDup_map_eq (fun p => slug_key (Page.Slug p)) (pages db));
        [apply (ok_slugs db Hok) | exact Hq | exact Hin | exact Hkey].
    + intros r. unfold delete_row. cbn [revisions]. rewrite filter_In.
      rewrite negb_true_iff, Z.eqb_neq. reflexivity.
    + intros l. unfold delete_row. cbn [share_links]. rewrite filter_In.
      rewrite negb_true_iff, Z.eqb_neq. reflexivity.
    + intros q'. apply In_delete_row.
    + intros q' Hq'. apply In_delete_row in Hq'.
      destruct Hq' as (q & _ & _ & ->). unfold has_parent.
      destruct (Page.ParentID q) as [x |] eqn:Hp; [| rewrite Hp; discriminate].
      destruct (Z.eqb_spec x pageID) as [E | E]; [discriminate |].
      rewrite Hp. intros Heq. inversion Heq. contradiction.
Qed.


Lemma slug_not_taken_by_others db page :
  store_ok db -> In page (pages db) ->
  slug_taken (pages db) (Page.ID page) (Page.Slug page) = false.
Proof.
  intros Hok Hin. unfold slug_taken. apply existsb_false. intros q Hq.
  destruct (Z.eqb_spec (Page.ID q) (Page.ID page)) as [E | E]; [reflexivity |].
  destruct (nocase_eqb (Page.Slug q) (Page.Slug page)) eqn:Hn; [| reflexivity].
  exfalso. apply E. f_equal. apply nocase_key in Hn.
  apply (NoDup_map_eq (fun p => slug_key (Page.Slug p)) (pages db));
    [apply (ok_slugs db Hok) | exact Hq | exact Hin | exact Hn].
Qed.


(* ------------------------------------------------------------------ *)
(** ** The hierarchy a hierarchical slug creates *)

Lemma ancestor_grows parts i db db' news q :
  pages db' = pages db ++ news ->
  ancestor parts i db = Some q -> ancestor parts i db' = Some q.
Proof.
  unfold ancestor. intros -> H. rewrite find_app, H. reflexivity.
Qed.

Lemma ensure_loop_seq Render authorID parts k :
  forall a parentID db db' parent,
    Wiki.ensure_loop Render authorID parts (seq a k) parentID db =
      Some (db', Ok parent) ->
    exists news,
      pages db' = pages db ++ news /\
      (forall i, (a <= i < a + k)%nat -> exists q, ancestor parts i db' = Some q) /\
      parent = match k with
               | O => parentID
               | S k' => option_map Page.ID (ancestor parts (a + k') db')
               end /\
      forall q, In q news ->
        exists i, (a <= i < a + k)%nat /\
          q = placeholder Render authorID parts i
                (if (i =? a)%nat then parentID
                 else option_map Page.ID (ancestor parts (i - 1) db'))
                (Page.ID q).
Proof.
  induction k as [| k IH]; intros a parentID db db' parent Hrun.
  - cbn in Hrun. inversion Hrun; subst. exists [].
    split; [symmetry; apply app_nil_r |]. split; [intros i Hi; lia |].
    split; [reflexivity | intros q []].
  - cbn [seq] in Hrun. rewrite ensure_loop_cons in Hrun.
    destruct (find _ (pages db)) as [e |] eqn:He.
    + destruct (IH _ _ _ _ _ Hrun) as (news & Hpages & Hex & Hparent & Hnews).
      assert (Ha : ancestor parts a db' = Some e)
        by (apply (ancestor_grows parts a db db' news); assumption).
      exists news. split; [exact Hpages |]. split; [| split].
      * intros i Hi. destruct (Nat.eq_dec i a) as [-> | Hne];
          [exists e; exact Ha | apply Hex; lia].
      * destruct k as [| k']; [rewrite Nat.add_0_r, Ha; exact Hparent |].
        rewrite Nat.add_succ_r. exact Hparent.
      * intros q Hq. destruct (Hnews q Hq) as (i & Hi & Hqi). exists i.
        split; [lia |]. destruct (Nat.eqb_spec i a) as [-> | _]; [lia |].
        destruct (Nat.eqb_spec i (S a)) as [-> | _]; [| exact Hqi].
        replace (S a - 1)%nat with a by lia. rewrite Ha. exact Hqi.
    + set (ph := placeholder Render authorID parts a parentID (next_page_id db)) in *.
      destruct (IH _ _ _ _ _ Hrun) as (news & Hpages & Hex & Hparent & Hnews).
      cbn [with_pages pages] in Hpages. rewrite <- app_assoc in Hpages.
      assert (Ha : ancestor parts a db' = Some ph).
      { unfold ancestor. rewrite Hpages, find_app, He. cbn [app find].
        unfold ph at 1. cbn [placeholder Page.Slug].
        rewrite nocase_eqb_refl. reflexivity. }
      exists ([ph] ++ news). split; [exact Hpages |]. split; [| split].
      * intros i Hi. destruct (Nat.eq_dec i a) as [-> | Hne];
          [exists ph; exact Ha | apply Hex; lia].
      * destruct k as [| k']; [rewrite Nat.add_0_r, Ha; exact Hparent |].
        rewrite Nat.add_succ_r. exact Hparent.
      * intros q [<- | Hq].
        -- exists a. split; [lia |]. rewrite Nat.eqb_refl. reflexivity.
        -- destruct (Hnews q Hq) as (i & Hi & Hqi). exists i.
           split; [lia |]. destruct (Nat.eqb_spec i a) as [-> | _]; [lia |].
           destruct (Nat.eqb_spec i (S a)) as [-> | _]; [| exact Hqi].
           replace (S a - 1)%nat with a by lia. rewrite Ha. exact Hqi.
Qed.

(** X5.  After a page was created under a slug of any number of segments,
    a page exists at every path made of leading segments of the slug; the
    created page hangs under the page one level up, or under none when
    its slug has one segment; and every page the call inserted besides has
    the very slug of such a path, hangs under the page one level up of its
    own path, and is an empty page titled after its last segment. *)
Theorem create_makes_every_ancestor :
  forall (Render : string -> option string) (authorID : Z)
         (input : PageCreate.t) (db db' : DB) (page : Page.t),
    Wiki.CreatePage Render authorID input db = Some (db', Ok page) ->
    let parts := Split (Page.Slug page) "/" in
    let depth := (length parts - 1)%nat in
    (forall i, (i < depth)%nat -> exists q, ancestor parts i db' = Some q) /\
    Page.ParentID page = parent_link parts depth db' /\
    (forall q, In q (pages db') -> ~ In q (pages db) -> q <> page ->
       exists i, (i < depth)%nat /\
         Page.Slug q = Join (firstn (i + 1) parts) "/" /\
         Page.ParentID q = parent_link parts i db' /\
         Page.Content q = "" /\
         Page.Title q = Title (ReplaceAll (nth i parts "") "-" " ")).
Proof.
  intros Render authorID input db db' page Hrun parts depth.
  pose proof (CreatePage_Ok Render _ _ _ _ _ Hrun) as Hshape.
  cbn zeta in Hshape.
  destruct Hshape as (_ & _ & _ & news & parent & html & Hparents & _ & _ & _ & _
                      & Hpage & Hdb').
  assert (Hs : Page.Slug page = create_slug input) by (rewrite Hpage; reflexivity).
  assert (Hp : Page.ParentID page = parent) by (rewrite Hpage; reflexivity).
  assert (Hpages : pages db' = pages (grown db news) ++ [page]).
  { rewrite Hdb'. cbn [grown pages]. apply app_assoc. }
  assert (Hloop :
    (forall i, (i < depth)%nat -> exists q, ancestor parts i (grown db news) = Some q) /\
    parent = parent_link parts depth (grown db news) /\
    forall q, In q news ->
      exists i, (i < depth)%nat /\
        q = placeholder Render authorID parts i
              (parent_link parts i (grown db news)) (Page.ID q)).
  { subst parts depth. rewrite Hs in *.
    destruct (Contains (create_slug input) "/") eqn:Hc.
    - unfold Wiki.ensureParentPages in Hparents.
      destruct (Nat.leb_spec (length (Split (create_slug input) "/")) 1) as [Hle | Hlt].
      + inversion Hparents as [[Hg]].
        replace (length (Split (create_slug input) "/") - 1)%nat with 0%nat by lia.
        assert (Hn : news = []).
        { apply (f_equal pages) in Hg. cbn [grown pages] in Hg.
          rewrite <- (app_nil_r (pages db)) in Hg at 1.
          apply app_inv_head in Hg. symmetry. exact Hg. }
        subst news. split; [intros i Hi; lia |]. split; [reflexivity | intros q []].
      + destruct (ensure_loop_seq _ _ _ _ _ _ _ _ _ Hparents)
          as (news' & Hn & Hex & Hpar & Hnews).
        cbn [grown pages] in Hn. apply app_inv_head in Hn. subst news'.
        destruct (length (Split (create_slug input) "/") - 1)%nat as [| k'] eqn:Hk;
          [lia |].
        split; [intros i Hi; apply Hex; lia |]. split; [exact Hpar |].
        intros q Hq. destruct (Hnews q Hq) as (i & Hi & Hqi).
        exists i. split; [lia |]. rewrite Hqi at 1. f_equal.
        destruct i as [| j]; [reflexivity |]. cbn [Nat.eqb parent_link].
        replace (S j - 1)%nat with j by lia. reflexivity.
    - destruct Hparents as [-> ->]. rewrite (Split_none _ _ Hc). cbn [length Nat.sub].
      split; [intros i Hi; lia |]. split; [reflexivity | intros q []]. }
  destruct Hloop as (Hex & Hpar & Hnews).
  assert (Hlink : forall i, (i <= depth)%nat ->
                    parent_link parts i db' = parent_link parts i (grown db news)).
  { intros [| j] Hj; [reflexivity |]. cbn [parent_link].
    destruct (Hex j) as (q & Hq); [lia |].
    rewrite Hq, (ancestor_grows parts j (grown db news) db' [page] q Hpages Hq).
    reflexivity. }
  split; [| split].
  - intros i Hi. destruct (Hex i Hi) as (q & Hq). exists q.
    apply (ancestor_grows parts i (grown db news) db' [page]); assumption.
  - rewrite Hp, Hpar. symmetry. apply Hlink. lia.
  - intros q Hq Hold Hne. rewrite Hdb' in Hq. cbn [pages] in Hq.
    apply in_app_or in Hq. destruct Hq as [Hq | Hq]; [contradiction |].
    apply in_app_or in Hq. destruct Hq as [Hq | [Hq | []]];
      [| symmetry in Hq; contradiction].
    destruct (Hnews q Hq) as (i & Hi & Hqi). exists i.
    split; [exact Hi |]. rewrite Hqi. cbn [placeholder Page.Slug Page.ParentID
      Page.Content Page.Title].
    split; [reflexivity |]. split; [symmetry; apply Hlink; lia |].
    split; reflexivity.
Qed.

(* ------------------------------------------------------------------ *)
(** ** Reverting to a revision *)

(** An update that supplies a content and nothing else, step by step. *)
Lemma content_update_run Render fuel pageID authorID c comment db page :
  store_ok db ->
  find (fun p => Page.ID p =? pageID) (pages db) = Some page ->
  Wiki.UpdatePage Render fuel pageID authorID (set_content c) comment db =
  let db1 := if String.eqb c (Page.Content page) then db
             else recorded db page authorID comment in
  match Render c with
  | Some html =>
      Some (with_pages db1
              (update_rows pageID (fun _ => Page.with_Content page c html) (pages db))
              (next_page_id db),
            Ok (Wiki.mkUpdateResult (Page.with_Content page c html) []))
  | None => Some (db1, Err (ErrWrap "failed to render markdown" ErrRender))
  end.
Proof.
  intros Hok Hfind. destruct (find_ID_Some _ _ _ Hfind) as [Hin Hid].
  unfold Wiki.UpdatePage, bind at 1, wrap at 1, Queries.GetPageByID, gets.
  rewrite Hfind. unfold bind at 1.
  rewrite (handle_slug_change_same Render fuel pageID authorID (set_content c) page db)
    by (intros s Hs; discriminate Hs).
  cbn [fst snd]. unfold bind at 1. rewrite save_revision_eq.
  unfold content_changes, set_content. cbn [PageUpdate.Content].
  unfold bind at 1, Wiki.update_fields.
  cbn [PageUpdate.Title PageUpdate.Content PageUpdate.IsPublished].
  unfold bind at 1, ret at 1. unfold bind at 1.
  assert (Hpages : pages (if negb (String.eqb c (Page.Content page))
                          then recorded db page authorID comment else db) = pages db)
    by (destruct (negb _); reflexivity).
  assert (Hnext : next_page_id (if negb (String.eqb c (Page.Content page))
                                then recorded db page authorID comment else db) =
                  next_page_id db)
    by (destruct (negb _); reflexivity).
  assert (Hdb1 : (if negb (String.eqb c (Page.Content page))
                  then recorded db page authorID comment else db) =
                 (if String.eqb c (Page.Content page) then db
                  else recorded db page authorID comment))
    by (destruct (String.eqb c (Page.Content page)); reflexivity).
  destruct (Render c) as [html |]; cbn zeta;
    cbv beta iota delta [ret fail bind wrap].
  - unfold Queries.UpdatePage.
    cbn [Page.with_Content Page.ID Page.Slug]. rewrite Hpages, Hnext, <- Hid.
    rewrite (slug_not_taken_by_others db page Hok Hin), andb_false_r.
    rewrite Hdb1. reflexivity.
  - rewrite Hdb1. reflexivity.
Qed.

Lemma GetRevision_eq revisionID db :
  Wiki.GetRevision revisionID db =
  match find (fun r => Revision.ID r =? revisionID) (revisions db) with
  | Some rev => Some (db, Ok rev)
  | None => Some (db, Err ErrRevisionNotFound)
  end.
Proof.
  unfold Wiki.GetRevision, bind, wrap, Queries.GetRevision, gets.
  destruct (find _ (revisions db)); reflexivity.
Qed.

Lemma find_id_exists db id :
  In id (ids_of db) -> exists page, find (fun p => Page.ID p =? id) (pages db) = Some page.
Proof.
  intros Hin. apply in_map_iff in Hin. destruct Hin as (p & Hp & Hin).
  destruct (find (fun p => Page.ID p =? id) (pages db)) as [q |] eqn:E;
    [exists q; reflexivity |].
  pose proof (find_none _ _ E p Hin) as Hn. cbn in Hn.
  apply Z.eqb_neq in Hn. contradiction.
Qed.

(** X6.  Reverting to a revision: a revision id that does not exist is
    answered with [ErrRevisionNotFound] and nothing is written.  Otherwise
    the page of the revision exists, and when the content of the revision
    renders, the page is returned and stored with that content and its
    rendering, every other page is left alone, and the content the page
    had is recorded in one new revision with the comment "Reverted to
    revision N", unless it equals the content reverted to, in which case
    no revision is added.  When the content does not render, the call
    fails after that revision has been recorded. *)
Theorem revert_restores_revision :
  forall (Render : string -> option string) (fuel : nat)
         (revisionID authorID : Z) (db : DB),
    store_ok db ->
    (find (fun r => Revision.ID r =? revisionID) (revisions db) = None ->
     Wiki.RevertToRevision Render fuel revisionID authorID db =
       Some (db, Err ErrRevisionNotFound)) /\
    (forall rev,
       find (fun r => Revision.ID r =? revisionID) (revisions db) = Some rev ->
       exists page,
         find (fun p => Page.ID p =? Revision.PageID rev) (pages db) = Some page /\
         let comment := ("Reverted to revision " ++ Strconv.Itoa revisionID)%string in
         let db1 := if String.eqb (Revision.Content rev) (Page.Content page) then db
                    else recorded db page authorID comment in
         match Render (Revision.Content rev) with
         | Some html =>
             let back := Page.with_Content page (Revision.Content rev) html in
             exists db',
               Wiki.RevertToRevision Render fuel revisionID authorID db =
                 Some (db', Ok back) /\
               Wiki.GetPageByID (Revision.PageID rev) db' = Some (db', Ok back) /\
               revisions db' = revisions db1 /\
               (forall q, In q (pages db) -> Page.ID q <> Revision.PageID rev ->
                          In q (pages db'))
         | None =>
             Wiki.RevertToRevision Render fuel revisionID authorID db =
               Some (db1, Err (ErrWrap "failed to render markdown" ErrRender))
         end).
Proof.
  intros Render fuel revisionID authorID db Hok. split.
  - intros Hnone. unfold Wiki.RevertToRevision, bind at 1.
    rewrite GetRevision_eq, Hnone. reflexivity.
  - intros rev Hrev.
    assert (Hin : In rev (revisions db)) by (apply find_some in Hrev; apply Hrev).
    pose proof (ok_revisions db Hok) as Hfk. rewrite Forall_forall in Hfk.
    destruct (find_id_exists db _ (Hfk rev Hin)) as (page & Hpage).
    destruct (find_ID_Some _ _ _ Hpage) as [Hpin Hpid].
    exists page. split; [exact Hpage |]. cbn zeta.
    assert (Hrun : Wiki.RevertToRevision Render fuel revisionID authorID db =
              (result <- Wiki.UpdatePage Render fuel (Revision.PageID rev) authorID
                           (set_content (Revision.Content rev))
                           ("Reverted to revision " ++ Strconv.Itoa revisionID) ;;
               ret (Wiki.Page result))%db db).
    { unfold Wiki.RevertToRevision, bind at 1. rewrite GetRevision_eq, Hrev.
      reflexivity. }
    rewrite Hrun. unfold bind.
    rewrite (content_update_run Render fuel _ authorID _ _ db page Hok Hpage).
    cbn zeta. destruct (Render (Revision.Content rev)) as [html |];
      [| reflexivity].
    eexists. split; [reflexivity |]. cbn [Wiki.Page].
    split; [| split].
    + rewrite GetPageByID_eq. cbn [with_pages pages].
      rewrite find_update_rows; [reflexivity | | exact Hpid].
      rewrite <- Hpid. apply in_map. exact Hpin.
    + reflexivity.
    + intros q Hq Hne. cbn [with_pages pages]. apply In_update_rows_other; assumption.
Qed.

Lemma find_fresh_revision db r :
  store_ok db -> Revision.ID r = next_revision_id db ->
  find (fun x => Revision.ID x =? next_revision_id db) (revisions db ++ [r]) = Some r.
Proof.
  intros Hok Hr. rewrite find_app.
  destruct (find _ (revisions db)) as [x |] eqn:E.
  - apply find_some in E. destruct E as [Hin Hx]. apply Z.eqb_eq in Hx.
    pose proof (ok_rev_fresh db Hok) as Hf. rewrite Forall_forall in Hf.
    specialize (Hf x Hin). lia.
  - cbn [find]. rewrite Hr, Z.eqb_refl. reflexivity.
Qed.

(** X7.  Edit, then revert: when the content of a page is replaced by
    another one, the revision that edit appends carries the next revision
    id, and reverting to it gives the page its former content back, with
    everything else of the page as it was; the history then holds the
    former content and the replaced one, in this order, after what it
    held. *)
Theorem edit_then_revert :
  forall (Render : string -> option string) (fuel fuel2 : nat)
         (pageID authorID authorID2 : Z) (c comment : string)
         (db : DB) (page : Page.t) (hc h0 : string),
    store_ok db ->
    find (fun p => Page.ID p =? pageID) (pages db) = Some page ->
    c <> Page.Content page ->
    Render c = Some hc ->
    Render (Page.Content page) = Some h0 ->
    exists db1 db2,
      Wiki.UpdatePage Render fuel pageID authorID (set_content c) comment db =
        Some (db1, Ok (Wiki.mkUpdateResult (Page.with_Content page c hc) [])) /\
      Wiki.RevertToRevision Render fuel2 (next_revision_id db) authorID2 db1 =
        Some (db2, Ok (Page.with_Content page (Page.Content page) h0)) /\
      Wiki.GetPageByID pageID db2 =
        Some (db2, Ok (Page.with_Content page (Page.Content page) h0)) /\
      List.map Revision.Content (revisions db2) =
        List.map Revision.Content (revisions db) ++ [Page.Content page; c].
Proof.
  intros Render fuel fuel2 pageID authorID authorID2 c comment db page hc h0
    Hok Hpage Hc Hhc Hh0.
  destruct (find_ID_Some _ _ _ Hpage) as [Hpin Hpid].
  pose proof (content_update_run Render fuel pageID authorID c comment db page
                Hok Hpage) as Hrun1.
  cbn zeta in Hrun1. rewrite Hhc in Hrun1.
  apply String.eqb_neq in Hc. rewrite Hc in Hrun1.
  set (db1 := with_pages (recorded db page authorID comment)
                (update_rows pageID (fun _ => Page.with_Content page c hc) (pages db))
                (next_page_id db)) in *.
  assert (Hok1 : store_ok db1).
  { destruct (keeps_UpdatePage Render fuel pageID authorID (set_content c) comment
                db db1
                (Ok (Wiki.mkUpdateResult (Page.with_Content page c hc) [])) Hok)
      as (H & _); [intros x [] | exact Hrun1 | exact H]. }
  set (r := Revision.mk (next_revision_id db) (Page.ID page) (Page.Content page)
              authorID comment).
  assert (Hrev : find (fun x => Revision.ID x =? next_revision_id db) (revisions db1)
                 = Some r).
  { unfold db1. cbn [with_pages recorded with_revisions revisions].
    apply find_fresh_revision; [exact Hok | reflexivity]. }
  assert (Hpage1 : find (fun p => Page.ID p =? pageID) (pages db1) =
                   Some (Page.with_Content page c hc)).
  { unfold db1. cbn [with_pages pages]. apply find_update_rows; [| exact Hpid].
    rewrite <- Hpid. apply in_map. exact Hpin. }
  assert (Hrun2 : Wiki.RevertToRevision Render fuel2 (next_revision_id db) authorID2 db1 =
            (result <- Wiki.UpdatePage Render fuel2 pageID authorID2
                         (set_content (Page.Content page))
                         ("Reverted to revision " ++ Strconv.Itoa (next_revision_id db)) ;;
             ret (Wiki.Page result))%db db1).
  { unfold Wiki.RevertToRevision, bind at 1. rewrite GetRevision_eq, Hrev.
    unfold r. cbn [Revision.Content Revision.PageID]. rewrite Hpid. reflexivity. }
  unfold bind in Hrun2.
  rewrite (content_update_run Render fuel2 pageID authorID2 _ _ db1 _ Hok1 Hpage1)
    in Hrun2.
  cbn zeta in Hrun2. cbn [Page.with_Content Page.Content] in Hrun2.
  rewrite Hh0 in Hrun2. rewrite String.eqb_sym, Hc in Hrun2.
  exists db1. eexists. split; [exact Hrun1 |]. split; [exact Hrun2 |].
  split.
  - rewrite GetPageByID_eq. cbn [with_pages pages].
    rewrite find_update_rows; [reflexivity | | exact Hpid].
    apply find_ID_Some in Hpage1. destruct Hpage1 as [Hin1 _].
    rewrite <- Hpid at 1. change (Page.ID page) with
      (Page.ID (Page.with_Content page c hc)). apply in_map. exact Hin1.
  - cbn [with_pages recorded with_revisions revisions Page.with_Content Page.Content].
    unfold db1. cbn [with_pages recorded with_revisions revisions].
    rewrite !map_app. cbn [List.map Revision.Content]. rewrite <- app_assoc.
    reflexivity.
Qed.

(* ------------------------------------------------------------------ *)
(** ** Descendants by slug, and the path to a page *)

Lemma count_positive {A} (f : A -> bool) l :
  (0 <? Z.of_nat (length (List.filter f l))) = true <->
  exists x, In x l /\ f x = true.
Proof.
  rewrite Z.ltb_lt. split.
  - intros H. destruct (List.filter f l) as [| x r] eqn:E; [cbn in H; lia |].
    exists x. apply filter_In. rewrite E. left. reflexivity.
  - intros (x & Hin & Hx).
    assert (Hf : In x (List.filter f l)) by (apply filter_In; auto).
    destruct (List.filter f l); [destruct Hf | cbn [length]; lia].
Qed.

(** X8.  On a page table whose parent links form no cycle,
    [IsPageDescendant] returns, and it says yes exactly when some page
    reached from the given one by following parent links backwards, one or
    more times, has the slug asked for, compared without regard to the
    case of ASCII letters; the given page itself is never counted. *)
Theorem is_page_descendant_decides :
  forall (db : DB) (parentID : Z) (childSlug : string) (height : Z -> nat),
    NoDup (List.map Page.ID (pages db)) ->
    (forall p q, In p (pages db) -> Page.ParentID p = Some q ->
                 (height (Page.ID p) < height q)%nat) ->
    exists fuel b,
      IsPageDescendant fuel parentID childSlug db = Some (db, Ok b) /\
      (b = true <->
       exists p, Descendant (pages db) parentID p /\
                 nocase_eqb (Page.Slug p) childSlug = true) /\
      (forall p, Descendant (pages db) parentID p -> Page.ID p <> parentID).
Proof.
  intros db root childSlug height Hkey Hacyclic.
  set (fuel := S (potential (pages db) height (children (pages db) root))).
  destruct (traversal_returns (pages db) height Hacyclic fuel
              (children (pages db) root) []) as (rows & Hrun); [unfold fuel; lia |].
  destruct (traversal_result (pages db) root Hkey fuel rows Hrun)
    as (_ & Hiff & _ & Hself).
  exists fuel. eexists. unfold IsPageDescendant. rewrite Hrun.
  split; [reflexivity |]. split; [| exact Hself].
  rewrite count_positive. split.
  - intros (d & Hd & Hslug). apply Hiff in Hd. destruct Hd as (p & Hp & ->).
    exists p. split; assumption.
  - intros (p & Hp & Hslug). exists (Page.ID p, Page.Slug p).
    split; [apply Hiff; exists p; split; [exact Hp | reflexivity] | exact Hslug].
Qed.

Lemma filter_by_id ps p :
  NoDup (List.map Page.ID ps) -> In p ps ->
  List.filter (fun q => Page.ID q =? Page.ID p) ps = [p].
Proof.
  induction ps as [| x ps IH]; [intros _ [] |].
  cbn [List.map List.filter]. intros Hnd Hin.
  inversion Hnd as [| ? ? Hx Hnd']; subst.
  destruct Hin as [-> | Hin].
  - rewrite Z.eqb_refl. f_equal.
    destruct (List.filter (fun q => Page.ID q =? Page.ID p) ps) as [| y r] eqn:E;
      [reflexivity |].
    assert (Hy : In y (List.filter (fun q => Page.ID q =? Page.ID p) ps))
      by (rewrite E; left; reflexivity).
    apply filter_In in Hy. destruct Hy as [Hy Hid]. apply Z.eqb_eq in Hid.
    exfalso. apply Hx. rewrite <- Hid. apply in_map. exact Hy.
  - destruct (Z.eqb_spec (Page.ID x) (Page.ID p)) as [E | _]; [| apply IH; assumption].
    exfalso. apply Hx. rewrite E. apply in_map. exact Hin.
Qed.

Lemma filter_no_id ps id :
  find (fun p => Page.ID p =? id) ps = None ->
  List.filter (fun p => Page.ID p =? id) ps = [].
Proof. apply find_none_filter. Qed.

Lemma parents_of_cases ps p :
  NoDup (List.map Page.ID ps) ->
  (parents_of ps p = [] /\
   forall q, In q ps -> Page.ParentID p <> Some (Page.ID q)) \/
  (exists q, parents_of ps p = [q] /\ In q ps /\
             Page.ParentID p = Some (Page.ID q)).
Proof.
  intros Hnd. unfold parents_of.
  destruct (Page.ParentID p) as [x |]; [| left; split; [reflexivity | discriminate]].
  destruct (find (fun q => Page.ID q =? x) ps) as [q |] eqn:E.
  - right. apply find_ID_Some in E. destruct E as [Hin Hid]. exists q.
    subst x. split; [apply filter_by_id; assumption |]. auto.
  - left. split; [apply filter_no_id; exact E |].
    intros q Hq Heq. inversion Heq; subst.
    pose proof (find_none _ _ E q Hq) as Hn. cbn in Hn.
    rewrite Z.eqb_refl in Hn. discriminate.
Qed.

Lemma insert_desc_last r l :
  Forall (fun x => (snd r <= snd x)%nat) l -> insert_desc r l = l ++ [r].
Proof.
  induction l as [| x l IH]; [reflexivity |].
  intros H. inversion H as [| ? ? Hx Hl]; subst. cbn [insert_desc app].
  destruct (Nat.ltb_spec (snd x) (snd r)) as [Hlt | _]; [lia |].
  rewrite IH by exact Hl. reflexivity.
Qed.

Lemma numbered_depths l d :
  Forall (fun x => (d <= snd x)%nat) (numbered l d).
Proof.
  unfold numbered. revert d. induction l as [| p l IH]; intros d; [constructor |].
  cbn [length seq combine]. constructor; [cbn; lia |].
  eapply Forall_impl; [| apply (IH (S d))]. cbn. intros x Hx. lia.
Qed.

(** Rows that come deeper and deeper are put in reverse by the sort. *)
Lemma order_numbered l d :
  List.map fst (order_by_depth_desc (numbered l d)) = List.rev l.
Proof.
  unfold numbered. revert d. induction l as [| p l IH]; intros d; [reflexivity |].
  cbn [length seq combine]. unfold order_by_depth_desc. cbn [fold_right].
  fold (order_by_depth_desc (combine l (seq (S d) (length l)))).
  rewrite insert_desc_last.
  - rewrite map_app, IH. reflexivity.
  - assert (Hperm : forall l0 x, In x (order_by_depth_desc l0) -> In x l0).
    { induction l0 as [| y l0 IH0]; [intros x [] |].
      intros x Hx. unfold order_by_depth_desc in Hx. cbn [fold_right] in Hx.
      fold (order_by_depth_desc l0) in Hx.
      assert (Hins : forall r l1 z, In z (insert_desc r l1) -> z = r \/ In z l1).
      { intros r l1. induction l1 as [| w l1 IH1]; intros z Hz.
        - destruct Hz as [<- | []]. left. reflexivity.
        - cbn [insert_desc] in Hz. destruct (snd w <? snd r)%nat.
          + destruct Hz as [<- | Hz]; [left; reflexivity | right; exact Hz].
          + destruct Hz as [<- | Hz]; [right; left; reflexivity |].
            destruct (IH1 z Hz) as [-> | H1]; [left; reflexivity | right; right; exact H1]. }
      destruct (Hins _ _ _ Hx) as [-> | H1]; [left; reflexivity |].
      right. apply IH0. exact H1. }
    rewrite Forall_forall. intros x Hx. apply Hperm in Hx.
    pose proof (numbered_depths l (S d)) as Hd. unfold numbered in Hd.
    rewrite Forall_forall in Hd. specialize (Hd x Hx). cbn [snd]. lia.
Qed.

Section Ancestry.

Variable ps : list Page.t.
Variable rank : Z -> nat.

Hypothesis Hkey : NoDup (List.map Page.ID ps).

(** No cycle of parent links: every parent lies strictly above. *)
Hypothesis Hacyclic :
  forall p q, In p ps -> In q ps -> Page.ParentID p = Some (Page.ID q) ->
              (rank (Page.ID q) < rank (Page.ID p))%nat.

Lemma ancestors_run n :
  forall p d acc,
    In p ps -> (rank (Page.ID p) <= n)%nat ->
    exists l,
      Lineage ps l p /\
      ancestors_cte (S (S n)) ps [(p, d)] acc =
        Some (List.rev acc ++ numbered (List.rev l) d).
Proof.
  induction n as [| n IH]; intros p d acc Hin Hrank.
  - destruct (parents_of_cases ps p Hkey) as [(Hnone & Htop) | (q & Hq & Hqin & Hpar)].
    + exists [p]. split; [apply Lineage_top; assumption |].
      cbn [ancestors_cte fst snd app]. rewrite Hnone. reflexivity.
    + specialize (Hacyclic p q Hin Hqin Hpar). lia.
  - destruct (parents_of_cases ps p Hkey) as [(Hnone & Htop) | (q & Hq & Hqin & Hpar)].
    + exists [p]. split; [apply Lineage_top; assumption |].
      cbn [ancestors_cte fst snd app]. rewrite Hnone. reflexivity.
    + pose proof (Hacyclic p q Hin Hqin Hpar) as Hlt.
      destruct (IH q (S d) ((p, d) :: acc) Hqin) as (l & Hl & Hrun); [lia |].
      exists (l ++ [p]). split; [apply Lineage_down with (q := q); assumption |].
      change (ancestors_cte (S (S (S n))) ps [(p, d)] acc)
        with (ancestors_cte (S (S n)) ps
                ([] ++ List.map (fun x => (x, S d)) (parents_of ps p))
                ((p, d) :: acc)).
      rewrite Hq. cbn [List.map app]. rewrite Hrun.
      rewrite rev_app_distr. cbn [List.rev app]. unfold numbered.
      cbn [length seq combine]. rewrite <- app_assoc. reflexivity.
Qed.

End Ancestry.

(** X9.  On a page table whose parent links form no cycle, [GetPagePath]
    returns, for a page that exists, the id, slug and title of the pages
    from the top of the hierarchy down to the page itself, each the
    parent of the next; for an id that no page has it returns the empty
    path. *)
Theorem page_path_is_the_lineage :
  forall (db : DB) (pageID : Z) (rank : Z -> nat),
    NoDup (List.map Page.ID (pages db)) ->
    (forall p q, In p (pages db) -> In q (pages db) ->
                 Page.ParentID p = Some (Page.ID q) ->
                 (rank (Page.ID q) < rank (Page.ID p))%nat) ->
    (forall page,
       find (fun p => Page.ID p =? pageID) (pages db) = Some page ->
       exists fuel l,
         GetPagePath fuel pageID db = Some (db, Ok (List.map summary l)) /\
         Lineage (pages db) l page) /\
    (find (fun p => Page.ID p =? pageID) (pages db) = None ->
     forall fuel, GetPagePath (S fuel) pageID db = Some (db, Ok [])).
Proof.
  intros db pageID rank Hkey Hacyclic. split.
  - intros page Hfind. destruct (find_ID_Some _ _ _ Hfind) as [Hin Hid].
    destruct (ancestors_run (pages db) rank Hkey Hacyclic (rank (Page.ID page))
                page 0%nat [] Hin (Nat.le_refl _)) as (l & Hl & Hrun).
    exists (S (S (rank (Page.ID page)))), l. split; [| exact Hl].
    unfold GetPagePath. rewrite <- Hid, (filter_by_id _ _ Hkey Hin).
    cbn [List.map]. rewrite Hrun. cbn [List.rev app]. do 3 f_equal.
    rewrite <- (rev_involutive l) at 2.
    rewrite <- (order_numbered (List.rev l) 0), map_map. reflexivity.
  - intros Hnone fuel. unfold GetPagePath. rewrite (filter_no_id _ _ Hnone).
    reflexivity.
Qed.

(* ------------------------------------------------------------------ *)
(** ** Share links over many requests *)

Section ShareRuns.

Variable sanitizeIP : string -> string.

Lemma shared_request_cases now db h l ip ua :
  GetShareLinkByToken h db = Some (db, Ok (Some l)) ->
  (exists r, validateShareLink sanitizeIP now db l ip = Some r /\
             shared_request sanitizeIP now h ip ua db = Some (db, Ok (Denied r))) \/
  (validateShareLink sanitizeIP now db l ip = None /\
   exists db',
     shared_request sanitizeIP now h ip ua db = Some (db', Ok Granted) /\
     GetShareLinkByToken h db' =
       Some (db', Ok (Some (ShareLink.with_ViewCount l (ShareLink.ViewCount l + 1)))) /\
     logged_ips db' (ShareLink.ID l) =
       logged_ips db (ShareLink.ID l) ++ [sanitizeIP ip]).
Proof.
  intros Hfound.
  destruct (validateShareLink sanitizeIP now db l ip) as [r |] eqn:Hv.
  - left. exists r. split; [reflexivity |].
    apply (shared_request_denied sanitizeIP now db h l ip ua r); assumption.
  - right. split; [reflexivity |].
    apply (shared_request_granted sanitizeIP now db h l ip ua); assumption.
Qed.

Lemma grants_cons v vs :
  grants (v :: vs) = (match v with Granted => 1 | _ => 0 end) + grants vs.
Proof. unfold grants. destruct v; cbn [List.filter length]; lia. Qed.

Lemma validate_views now db l ip m :
  validateShareLink sanitizeIP now db l ip = None ->
  ShareLink.MaxViews l = Some m -> ShareLink.ViewCount l < m.
Proof.
  unfold validateShareLink, ShareLink.IsViewLimitReached. intros Hv Hm.
  destruct (ShareLink.IsRevoked l); [discriminate |].
  destruct (ShareLink.IsExpired now l); [discriminate |].
  rewrite Hm in Hv. destruct (Z.leb_spec m (ShareLink.ViewCount l)); [discriminate | lia].
Qed.

Lemma serve_views h reqs :
  forall db l m,
    GetShareLinkByToken h db = Some (db, Ok (Some l)) ->
    ShareLink.MaxViews l = Some m ->
    ShareLink.ViewCount l <= m ->
    exists l',
      GetShareLinkByToken h (fst (serve sanitizeIP h reqs db)) =
        Some (fst (serve sanitizeIP h reqs db), Ok (Some l')) /\
      l' = ShareLink.with_ViewCount l
             (ShareLink.ViewCount l + grants (snd (serve sanitizeIP h reqs db))) /\
      ShareLink.ViewCount l' <= m.
Proof.
  induction reqs as [| r reqs IH]; intros db l m Hfound Hm Hle.
  - cbn [serve fst snd]. exists l. split; [exact Hfound |].
    split; [| exact Hle]. unfold grants. cbn. rewrite Z.add_0_r.
    destruct l; reflexivity.
  - cbn [serve].
    destruct (shared_request_cases (req_now r) db h l (req_ip r) (req_agent r) Hfound)
      as [(d & _ & Hrun) | (Hv & db1 & Hrun & Hfound1 & _)]; rewrite Hrun.
    + destruct (IH db l m Hfound Hm Hle) as (l' & H1 & H2 & H3).
      cbn [fst snd]. exists l'. split; [exact H1 |]. split; [| exact H3].
      rewrite grants_cons, Z.add_0_l. exact H2.
    + pose proof (validate_views _ _ _ _ _ Hv Hm) as Hlt.
      destruct (IH db1 _ m Hfound1 Hm) as (l' & H1 & H2 & H3);
        [cbn [ShareLink.with_ViewCount ShareLink.ViewCount]; lia |].
      cbn [fst snd]. exists l'. split; [exact H1 |]. split; [| exact H3].
      rewrite grants_cons, H2.
      cbn [ShareLink.with_ViewCount ShareLink.ViewCount ShareLink.ID
           ShareLink.TokenHash ShareLink.PageID ShareLink.CreatedBy
           ShareLink.IncludeChildren ShareLink.MaxViews ShareLink.MaxIPs
           ShareLink.ExpiresAt ShareLink.IsRevoked].
      unfold ShareLink.with_ViewCount. cbn [ShareLink.ID ShareLink.TokenHash
        ShareLink.PageID ShareLink.CreatedBy ShareLink.IncludeChildren
        ShareLink.MaxViews ShareLink.MaxIPs ShareLink.ExpiresAt ShareLink.IsRevoked].
      f_equal. lia.
Qed.

End ShareRuns.

(** X10.  However many requests present the token of a link that has a
    view limit, one after the other, the view count of the link grows by
    one with every request that is granted and by nothing else, and never
    passes the limit: no more requests are granted than views were left. *)
Theorem view_limit_bounds_grants :
  forall (sanitizeIP : string -> string) (h : string) (reqs : list Request)
         (db : DB) (l : ShareLink.t) (m : Z),
    GetShareLinkByToken h db = Some (db, Ok (Some l)) ->
    ShareLink.MaxViews l = Some m ->
    ShareLink.ViewCount l <= m ->
    let db' := fst (serve sanitizeIP h reqs db) in
    let answers := snd (serve sanitizeIP h reqs db) in
    GetShareLinkByToken h db' =
      Some (db', Ok (Some (ShareLink.with_ViewCount l
                             (ShareLink.ViewCount l + grants answers)))) /\
    grants answers <= m - ShareLink.ViewCount l /\
    length answers = length reqs.
Proof.
  intros sanitizeIP h reqs db l m Hfound Hm Hle. cbn zeta.
  destruct (serve_views sanitizeIP h reqs db l m Hfound Hm Hle) as (l' & H1 & H2 & H3).
  split; [rewrite H1, H2; reflexivity |]. split.
  - rewrite H2 in H3. cbn [ShareLink.with_ViewCount ShareLink.ViewCount] in H3. lia.
  - clear l' H1 H2 H3 Hm Hle. revert db l Hfound.
    induction reqs as [| r reqs IH]; intros db l Hfound; [reflexivity |].
    cbn [serve length].
    destruct (shared_request_cases sanitizeIP (req_now r) db h l (req_ip r)
                (req_agent r) Hfound)
      as [(d & _ & Hrun) | (_ & db1 & Hrun & Hfound1 & _)]; rewrite Hrun;
      cbn [snd length]; f_equal; eapply IH; eassumption.
Qed.

Lemma distinct_snoc_known (l : list string) x :
  In x l ->
  (length (nodup string_dec (l ++ [x])) <= length (nodup string_dec l))%nat.
Proof.
  intros Hx. apply NoDup_incl_length; [apply NoDup_nodup |].
  intros y Hy. apply nodup_In in Hy. apply nodup_In.
  apply in_app_or in Hy. destruct Hy as [Hy | [<- | []]]; assumption.
Qed.

Lemma distinct_snoc (l : list string) x :
  (length (nodup string_dec (l ++ [x])) <= S (length (nodup string_dec l)))%nat.
Proof.
  change (S (length (nodup string_dec l))) with (length (x :: nodup string_dec l)).
  apply NoDup_incl_length; [apply NoDup_nodup |].
  intros y Hy. apply nodup_In in Hy. apply in_app_or in Hy.
  destruct Hy as [Hy | [<- | []]]; [right; apply nodup_In; exact Hy | left; reflexivity].
Qed.

Lemma validate_ips sanitizeIP now db l ip m :
  validateShareLink sanitizeIP now db l ip = None ->
  ShareLink.MaxIPs l = Some m ->
  In (sanitizeIP ip) (logged_ips db (ShareLink.ID l)) \/
  GetShareLinkUniqueIPCount db (ShareLink.ID l) < m.
Proof.
  unfold validateShareLink. intros Hv Hm.
  destruct (ShareLink.IsRevoked l); [discriminate |].
  destruct (ShareLink.IsExpired now l); [discriminate |].
  destruct (ShareLink.IsViewLimitReached l); [discriminate |].
  rewrite Hm in Hv.
  destruct (HasIPAccessedShareLink db (ShareLink.ID l) (sanitizeIP ip)) eqn:Hacc.
  - left. apply HasIPAccessed_In. exact Hacc.
  - right. cbn [negb andb] in Hv.
    destruct (Z.leb_spec m (GetShareLinkUniqueIPCount db (ShareLink.ID l)));
      [discriminate | assumption].
Qed.

(** X11.  However many requests present the token of a link that has a
    limit on addresses, one after the other, the number of distinct
    addresses in the access log of the link never passes the limit, or the
    number the log held before if that was larger; and the log only grows. *)
Theorem ip_limit_bounds_addresses :
  forall (sanitizeIP : string -> string) (h : string) (reqs : list Request)
         (db : DB) (l : ShareLink.t) (m : Z),
    GetShareLinkByToken h db = Some (db, Ok (Some l)) ->
    ShareLink.MaxIPs l = Some m ->
    let db' := fst (serve sanitizeIP h reqs db) in
    GetShareLinkUniqueIPCount db' (ShareLink.ID l) <=
      Z.max m (GetShareLinkUniqueIPCount db (ShareLink.ID l)) /\
    exists added,
      logged_ips db' (ShareLink.ID l) = logged_ips db (ShareLink.ID l) ++ added /\
      Z.of_nat (length added) = grants (snd (serve sanitizeIP h reqs db)).
Proof.
  intros sanitizeIP h reqs. cbn zeta.
  induction reqs as [| r reqs IH]; intros db l m Hfound Hm.
  - cbn [serve fst snd]. split; [lia |]. exists []. split; [| reflexivity].
    symmetry. apply app_nil_r.
  - cbn [serve].
    destruct (shared_request_cases sanitizeIP (req_now r) db h l (req_ip r)
                (req_agent r) Hfound)
      as [(d & _ & Hrun) | (Hv & db1 & Hrun & Hfound1 & Hlog)]; rewrite Hrun;
      cbn [fst snd].
    + destruct (IH db l m Hfound Hm) as (Hle & added & Hadd & Hlen).
      split; [exact Hle |]. exists added. split; [exact Hadd |].
      rewrite grants_cons. lia.
    + destruct (IH db1 _ m Hfound1 Hm) as (Hle & added & Hadd & Hlen).
      cbn [ShareLink.with_ViewCount ShareLink.ID] in Hle, Hadd.
      split.
      * assert (Hstep : GetShareLinkUniqueIPCount db1 (ShareLink.ID l) <=
                        Z.max m (GetShareLinkUniqueIPCount db (ShareLink.ID l))).
        { unfold GetShareLinkUniqueIPCount in *. rewrite Hlog.
          destruct (validate_ips _ _ _ _ _ _ Hv Hm) as [Hin | Hlt].
          - pose proof (distinct_snoc_known _ _ Hin). lia.
          - unfold GetShareLinkUniqueIPCount in Hlt.
            pose proof (distinct_snoc (logged_ips db (ShareLink.ID l))
                          (sanitizeIP (req_ip r))). lia. }
        lia.
      * exists ([sanitizeIP (req_ip r)] ++ added). split.
        -- rewrite Hadd, Hlog, <- app_assoc. reflexivity.
        -- rewrite grants_cons. cbn [app length]. lia.
Qed.

Lemma GetShareLinkByToken_eq h db :
  GetShareLinkByToken h db =
  Some (db, Ok (find (fun l => String.eqb (ShareLink.TokenHash l) h) (share_links db))).
Proof. reflexivity. Qed.

(** X12.  Once a link has been revoked, every request that presents its
    token is refused as revoked, whatever its expiry and its limits allow,
    and writes nothing: no access row, no view. *)
Theorem revoked_link_is_refused :
  forall (sanitizeIP : string -> string) (h : string) (db : DB) (l : ShareLink.t),
    GetShareLinkByToken h db = Some (db, Ok (Some l)) ->
    exists db',
      RevokeShareLink (ShareLink.ID l) db = Some (db', Ok tt) /\
      GetShareLinkByToken h db' =
        Some (db', Ok (Some (ShareLink.with_IsRevoked l true))) /\
      (forall now ip ua,
         shared_request sanitizeIP now h ip ua db' = Some (db', Ok (Denied Revoked))) /\
      (forall reqs,
         fst (serve sanitizeIP h reqs db') = db' /\
         grants (snd (serve sanitizeIP h reqs db')) = 0).
Proof.
  intros sanitizeIP h db l Hfound. eexists. split; [reflexivity |].
  assert (Hfound' :
    GetShareLinkByToken h
      (with_share_links db
         (List.map (fun x => if ShareLink.ID x =? ShareLink.ID l
                             then ShareLink.with_IsRevoked x true else x)
            (share_links db))) =
    Some (with_share_links db
            (List.map (fun x => if ShareLink.ID x =? ShareLink.ID l
                                then ShareLink.with_IsRevoked x true else x)
               (share_links db)),
          Ok (Some (ShareLink.with_IsRevoked l true)))).
  { rewrite GetShareLinkByToken_eq in *. cbn [with_share_links share_links].
    inversion Hfound as [Hf]. rewrite find_map_preserved.
    - rewrite Hf. cbn [option_map]. rewrite Z.eqb_refl. reflexivity.
    - intros x. destruct (ShareLink.ID x =? ShareLink.ID l); reflexivity. }
  assert (Hrefused : forall now ip ua,
    shared_request sanitizeIP now h ip ua
      (with_share_links db
         (List.map (fun x => if ShareLink.ID x =? ShareLink.ID l
                             then ShareLink.with_IsRevoked x true else x)
            (share_links db))) =
    Some (with_share_links db
            (List.map (fun x => if ShareLink.ID x =? ShareLink.ID l
                                then ShareLink.with_IsRevoked x true else x)
               (share_links db)),
          Ok (Denied Revoked))).
  { intros now ip ua.
    apply (shared_request_denied sanitizeIP now _ h _ ip ua Revoked Hfound').
    reflexivity. }
  split; [exact Hfound' |]. split; [exact Hrefused |].
  intros reqs. induction reqs as [| r reqs IH]; [split; reflexivity |].
  cbn [serve]. rewrite Hrefused. cbn [fst snd]. destruct IH as [IH1 IH2].
  split; [exact IH1 |]. rewrite grants_cons, IH2. reflexivity.
Qed.

Lemma find_filter_keep {A} (f g : A -> bool) l x :
  find f l = Some x -> g x = true -> find f (List.filter g l) = Some x.
Proof.
  induction l as [| a l IH]; [discriminate |]. cbn [find List.filter].
  destruct (f a) eqn:Hf.
  - intros Hx Hg. inversion Hx; subst. rewrite Hg. cbn [find]. rewrite Hf.
    reflexivity.
  - intros Hx Hg. destruct (g a); [cbn [find]; rewrite Hf |]; apply IH; assumption.
Qed.

Lemma filter_filter_implied {A} (f g : A -> bool) l :
  (forall x, f x = true -> g x = true) ->
  List.filter f (List.filter g l) = List.filter f l.
Proof.
  intros H. induction l as [| a l IH]; [reflexivity |]. cbn [List.filter].
  destruct (g a) eqn:Hg; cbn [List.filter].
  - rewrite IH. reflexivity.
  - destruct (f a) eqn:Hf; [rewrite (H a Hf) in Hg; discriminate | exact IH].
Qed.

Lemma filter_filter_excluded {A} (f g : A -> bool) l :
  (forall x, f x = true -> g x = false) ->
  List.filter f (List.filter g l) = [].
Proof.
  intros H. induction l as [| a l IH]; [reflexivity |]. cbn [List.filter].
  destruct (g a) eqn:Hg; [| exact IH]. cbn [List.filter].
  destruct (f a) eqn:Hf; [rewrite (H a Hf) in Hg; discriminate | exact IH].
Qed.

(** X13.  Once a link has been deleted, its token is unknown to every
    request and the access rows of the link are gone; every other link is
    still found by its token, with its access log; pages and revisions
    are not touched. *)
Theorem deleted_link_is_unknown :
  forall (sanitizeIP : string -> string) (h : string) (db : DB) (l : ShareLink.t),
    NoDup (List.map ShareLink.TokenHash (share_links db)) ->
    NoDup (List.map ShareLink.ID (share_links db)) ->
    GetShareLinkByToken h db = Some (db, Ok (Some l)) ->
    exists db',
      DeleteShareLink (ShareLink.ID l) db = Some (db', Ok tt) /\
      (forall now ip ua,
         shared_request sanitizeIP now h ip ua db' = Some (db', Ok UnknownToken)) /\
      logged_ips db' (ShareLink.ID l) = [] /\
      (forall h' l',
         GetShareLinkByToken h' db = Some (db, Ok (Some l')) -> h' <> h ->
         GetShareLinkByToken h' db' = Some (db', Ok (Some l')) /\
         logged_ips db' (ShareLink.ID l') = logged_ips db (ShareLink.ID l')) /\
      pages db' = pages db /\ revisions db' = revisions db.
Proof.
  intros sanitizeIP h db l Htok Hids Hfound.
  rewrite GetShareLinkByToken_eq in Hfound. inversion Hfound as [Hf].
  pose proof (find_some _ _ Hf) as [Hin Hh]. apply String.eqb_eq in Hh.
  eexists. split; [reflexivity |].
  split; [| split; [| split; [| split; reflexivity]]].
  - intros now ip ua. unfold shared_request, bind.
    rewrite GetShareLinkByToken_eq. cbn [share_links].
    destruct (find _ (List.filter _ (share_links db))) as [x |] eqn:E;
      [| reflexivity].
    apply find_some in E. destruct E as [Hx Hxh]. apply String.eqb_eq in Hxh.
    apply filter_In in Hx. destruct Hx as [Hx Hne].
    apply negb_true_iff, Z.eqb_neq in Hne. exfalso. apply Hne. f_equal.
    apply (NoDup_map_eq ShareLink.TokenHash (share_links db)); try assumption.
    congruence.
  - unfold logged_ips. cbn [share_link_access].
    rewrite filter_filter_excluded; [reflexivity |].
    intros a Ha. apply Z.eqb_eq in Ha. rewrite Ha, Z.eqb_refl. reflexivity.
  - intros h' l' Hfound' Hne.
    rewrite GetShareLinkByToken_eq in Hfound'. injection Hfound' as Hf'.
    pose proof (find_some _ _ Hf') as [Hin' Hh']. apply String.eqb_eq in Hh'.
    assert (Hid : ShareLink.ID l' <> ShareLink.ID l).
    { intros E. apply Hne. rewrite <- Hh', <- Hh. f_equal.
      apply (NoDup_map_eq ShareLink.ID (share_links db)); assumption. }
    split.
    + rewrite GetShareLinkByToken_eq. cbn [share_links].
      erewrite find_filter_keep; [reflexivity | exact Hf' |].
      apply negb_true_iff, Z.eqb_neq. exact Hid.
    + unfold logged_ips. cbn [share_link_access].
      rewrite filter_filter_implied; [reflexivity |].
      intros a Ha. apply Z.eqb_eq in Ha. rewrite Ha.
      apply negb_true_iff, Z.eqb_neq. exact Hid.
Qed.

(* ------------------------------------------------------------------ *)
(** ** Share tokens *)

Lemma encode_in_alphabet v :
  In (Token.encode v) (list_ascii_of_string Token.encodeURL).
Proof.
  unfold Token.encode. apply nth_In.
  change 63 with (Z.ones 6). rewrite Z.land_ones by lia.
  pose proof (Z.mod_pos_bound v (2 ^ 6) ltac:(lia)) as Hb.
  change (length (list_ascii_of_string Token.encodeURL)) with 64%nat.
  change (2 ^ 6) with 64 in *. lia.
Qed.

Lemma alphabet_runes :
  Forall (fun c => Token.token_rune c = true)
    (list_ascii_of_string Token.encodeURL).
Proof. cbn. repeat (constructor; [reflexivity |]). constructor. Qed.

Lemma encode_rune v : Token.token_rune (Token.encode v) = true.
Proof.
  pose proof alphabet_runes as H. rewrite Forall_forall in H.
  apply H, encode_in_alphabet.
Qed.

Lemma by_threes {A} (P : list A -> Prop) :
  P [] -> (forall a, P [a]) -> (forall a b, P [a; b]) ->
  (forall a b c l, P l -> P (a :: b :: c :: l)) ->
  forall l, P l.
Proof.
  intros H0 H1 H2 H3 l.
  assert (H : P l /\ (forall a, P (a :: l)) /\ (forall a b, P (a :: b :: l))).
  { induction l as [| x l (IH0 & IH1 & IH2)].
    - split; [exact H0 |]. split; [exact H1 | exact H2].
    - split; [apply IH1 |]. split; [intros a; apply IH2 |].
      intros a b. apply H3, IH0. }
  apply H.
Qed.

Lemma EncodeToString_runes src :
  Strings.forallb Token.token_rune (Token.EncodeToString src) = true.
Proof.
  induction src using by_threes; cbn [Token.EncodeToString Strings.forallb];
    rewrite ?encode_rune; try reflexivity. exact IHsrc.
Qed.

Lemma EncodeToString_length src :
  String.length (Token.EncodeToString src) = ((4 * length src + 2) / 3)%nat.
Proof.
  induction src using by_threes; try reflexivity.
  cbn [Token.EncodeToString String.length length]. rewrite IHsrc.
  replace (4 * S (S (S (length src))) + 2)%nat
    with (4 * 3 + (4 * length src + 2))%nat by lia.
  rewrite (Nat.div_add_l 4 3) by lia. reflexivity.
Qed.

(** X14.  Every token [generateSecureToken] makes of 32 random bytes has
    43 characters and passes [isValidTokenFormat], and so the length test
    of [ViewSharedPage]; in general the encoding of random bytes passes
    exactly when there are between 30 and 37 of them; and no token that
    passes holds a character outside [A-Za-z0-9_-], such as the padding
    [=] of the padded encoding. *)
Theorem generated_tokens_are_valid :
  (forall random : list Z,
     length random = 32%nat ->
     String.length (Token.generateSecureToken random) = 43%nat /\
     Token.isValidTokenFormat (Token.generateSecureToken random) = true) /\
  (forall random : list Z,
     Token.isValidTokenFormat (Token.generateSecureToken random) = true <->
     (30 <= length random <= 37)%nat) /\
  (forall token : string,
     Token.isValidTokenFormat token = true ->
     (40 <= String.length token <= 50)%nat /\
     Strings.forallb Token.token_rune token = true /\
     Contains token "=" = false).
Proof.
  assert (Hvalid : forall random,
            Token.isValidTokenFormat (Token.generateSecureToken random) = true <->
            (30 <= length random <= 37)%nat).
  { intros random. unfold Token.isValidTokenFormat, Token.generateSecureToken.
    rewrite EncodeToString_runes, EncodeToString_length.
    pose proof (Nat.div_mod_eq (4 * length random + 2) 3) as Hdiv.
    pose proof (Nat.mod_upper_bound (4 * length random + 2) 3 ltac:(lia)) as Hmod.
    destruct (Nat.ltb_spec ((4 * length random + 2) / 3) 40) as [H1 | H1];
      destruct (Nat.ltb_spec 50 ((4 * length random + 2) / 3)) as [H2 | H2];
      cbn [orb]; split; intros H; try discriminate; try reflexivity; lia. }
  split; [| split; [exact Hvalid |]].
  - intros random Hlen. split.
    + unfold Token.generateSecureToken. rewrite EncodeToString_length, Hlen.
      reflexivity.
    + apply Hvalid. lia.
  - intros token Hok. unfold Token.isValidTokenFormat in Hok.
    destruct (Nat.ltb_spec (String.length token) 40) as [H1 | H1];
      [discriminate |].
    destruct (Nat.ltb_spec 50 (String.length token)) as [H2 | H2];
      [discriminate |].
    cbn [orb] in Hok. split; [lia |]. split; [exact Hok |].
    clear H1 H2. induction token as [| c token IH]; [reflexivity |].
    cbn [Strings.forallb Contains] in *. apply andb_true_iff in Hok.
    destruct Hok as [Hc Ht]. rewrite (IH Ht), orb_false_r.
    destruct (Ascii.eqb_spec c "=") as [-> | _]; [discriminate Hc | reflexivity].
Qed.

(* ------------------------------------------------------------------ *)
(** ** The rate limiters *)

Section RateLimiters.

Import RateLimit.

Lemma seq_answers (f : nat -> bool) n :
  List.map f (seq 0 (S n)) = f 0%nat :: List.map (fun i => f (S i)) (seq 0 n).
Proof. cbn [seq List.map]. rewrite <- seq_shift, map_map. reflexivity. Qed.

(** A client whose window is running: the requests are allowed until the
    count reaches the limit, and the entry counts the allowed ones. *)
Lemma allow_all_running clientID times :
  forall rl c e,
    requests rl clientID = Some (mkEntry c e) ->
    Forall (fun t => t <= e) times ->
    snd (allow_all clientID times rl) =
      List.map (fun i => c + Z.of_nat i <? maxRequests rl) (seq 0 (length times)) /\
    requests (fst (allow_all clientID times rl)) clientID =
      Some (mkEntry (if c <? maxRequests rl
                     then Z.min (c + Z.of_nat (length times)) (maxRequests rl)
                     else c) e) /\
    (forall k, k <> clientID ->
               requests (fst (allow_all clientID times rl)) k = requests rl k) /\
    maxRequests (fst (allow_all clientID times rl)) = maxRequests rl /\
    window (fst (allow_all clientID times rl)) = window rl.
Proof.
  induction times as [| t times IH]; intros rl c e Hentry Htimes.
  - cbn [allow_all fst snd length seq List.map]. split; [reflexivity |].
    split; [| repeat split; reflexivity].
    rewrite Hentry. f_equal. f_equal.
    destruct (Z.ltb_spec c (maxRequests rl)); lia.
  - inversion Htimes as [| ? ? Ht Hrest]; subst.
    cbn [allow_all fst snd length]. rewrite seq_answers.
    unfold allow. rewrite Hentry. cbn [expiresAt count].
    destruct (Z.ltb_spec e t) as [Hexp | _]; [lia |].
    destruct (Z.leb_spec (maxRequests rl) c) as [Hfull | Hroom].
    + cbn [fst snd]. destruct (IH rl c e Hentry Hrest) as (A1 & A2 & A3 & A4 & A5).
      split; [| split; [| repeat split; assumption]].
      * rewrite A1. f_equal; [symmetry; apply Z.ltb_ge; lia |].
        apply map_ext. intros i.
        transitivity false; [apply Z.ltb_ge | symmetry; apply Z.ltb_ge]; lia.
      * rewrite A2. f_equal. f_equal.
        destruct (Z.ltb_spec c (maxRequests rl)); [lia | reflexivity].
    + cbn [fst snd].
      set (rl1 := mkRateLimiter (store (requests rl) clientID (mkEntry (c + 1) e))
                    (maxRequests rl) (window rl)).
      assert (Hentry1 : requests rl1 clientID = Some (mkEntry (c + 1) e)).
      { unfold rl1, store. cbn [requests]. rewrite String.eqb_refl. reflexivity. }
      destruct (IH rl1 (c + 1) e Hentry1 Hrest) as (A1 & A2 & A3 & A4 & A5).
      cbn [maxRequests window rl1] in A1, A2, A4, A5.
      split; [| split; [| split; [| split; assumption]]].
      * rewrite A1. f_equal; [symmetry; apply Z.ltb_lt; lia |].
        apply map_ext. intros i. f_equal. lia.
      * rewrite A2. f_equal. f_equal.
        destruct (Z.ltb_spec (c + 1) (maxRequests rl));
          destruct (Z.ltb_spec c (maxRequests rl)); lia.
      * intros k Hk. rewrite (A3 k Hk). unfold rl1, store. cbn [requests].
        apply String.eqb_neq in Hk. rewrite Hk. reflexivity.
Qed.

(** X15.  A client that has no running window opens one with its first
    request, which is always allowed; of the requests that follow before
    the window has expired, those are allowed that bring the count to at
    most [maxRequests], and all later ones are refused; the entry counts
    the allowed requests and keeps the expiry of the window; the entries
    of other clients are not touched; and the first request after the
    expiry is allowed again. *)
Theorem rate_limit_window :
  forall (rl : RateLimiter) (clientID : string) (t0 : Z) (ts : list Z),
    (forall e, requests rl clientID = Some e -> expiresAt e < t0) ->
    Forall (fun t => t <= t0 + window rl) ts ->
    let out := allow_all clientID (t0 :: ts) rl in
    snd out =
      List.map (fun i => Z.of_nat i <? Z.max 1 (maxRequests rl))
        (seq 0 (S (length ts))) /\
    requests (fst out) clientID =
      Some (mkEntry (Z.min (1 + Z.of_nat (length ts)) (Z.max 1 (maxRequests rl)))
              (t0 + window rl)) /\
    (forall k, k <> clientID -> requests (fst out) k = requests rl k) /\
    (forall t, t0 + window rl < t -> snd (allow t clientID (fst out)) = true).
Proof.
  intros rl clientID t0 ts Hidle Hts. cbn zeta.
  set (rl1 := mkRateLimiter
                (store (requests rl) clientID (mkEntry 1 (t0 + window rl)))
                (maxRequests rl) (window rl)).
  assert (Hfirst : allow t0 clientID rl = (rl1, true)).
  { unfold allow. destruct (requests rl clientID) as [e |] eqn:E; [| reflexivity].
    specialize (Hidle e eq_refl). apply Z.ltb_lt in Hidle. rewrite Hidle.
    reflexivity. }
  assert (Hentry1 : requests rl1 clientID = Some (mkEntry 1 (t0 + window rl))).
  { unfold rl1, store. cbn [requests]. rewrite String.eqb_refl. reflexivity. }
  destruct (allow_all_running clientID ts rl1 1 (t0 + window rl) Hentry1 Hts)
    as (A1 & A2 & A3 & A4 & A5).
  cbn [maxRequests window rl1] in A1, A2, A4, A5.
  cbn [allow_all]. rewrite Hfirst. cbn [fst snd].
  split; [| split; [| split]].
  - rewrite seq_answers, A1. f_equal; [symmetry; apply Z.ltb_lt; lia |].
    apply map_ext. intros i.
    destruct (Z.ltb_spec (1 + Z.of_nat i) (maxRequests rl));
      destruct (Z.ltb_spec (Z.of_nat (S i)) (Z.max 1 (maxRequests rl)));
      try reflexivity; lia.
  - rewrite A2. f_equal. f_equal.
    destruct (Z.ltb_spec 1 (maxRequests rl)); lia.
  - intros k Hk. rewrite (A3 k Hk). unfold rl1, store. cbn [requests].
    apply String.eqb_neq in Hk. rewrite Hk. reflexivity.
  - intros t Ht. unfold allow. rewrite A2. cbn [expiresAt].
    apply Z.ltb_lt in Ht. rewrite Ht. reflexivity.
Qed.

(** X16.  The periodic cleanup of the rate limiter is invisible: a
    request that comes after a round of it gets the answer, and leaves the
    entry for its client, that it would have got and left without. *)
Theorem cleanup_is_invisible :
  forall (rl : RateLimiter) (clientID : string) (tc now : Z),
    tc <= now ->
    snd (allow now clientID (cleanup tc rl)) = snd (allow now clientID rl) /\
    requests (fst (allow now clientID (cleanup tc rl))) clientID =
      requests (fst (allow now clientID rl)) clientID /\
    (forall k e, requests (cleanup tc rl) k = Some e ->
                 requests rl k = Some e /\ tc <= expiresAt e).
Proof.
  intros rl clientID tc now Hle. split; [| split].
  - unfold allow, cleanup. cbn [requests maxRequests window].
    destruct (requests rl clientID) as [e |]; [| reflexivity].
    destruct (Z.ltb_spec (expiresAt e) tc) as [Hold | Hnew].
    + destruct (Z.ltb_spec (expiresAt e) now); [reflexivity | lia].
    + destruct (expiresAt e <? now); [reflexivity |].
      destruct (maxRequests rl <=? count e); reflexivity.
  - unfold allow, cleanup. cbn [requests maxRequests window].
    destruct (requests rl clientID) as [e |] eqn:E.
    + destruct (Z.ltb_spec (expiresAt e) tc) as [Hold | Hnew].
      * destruct (Z.ltb_spec (expiresAt e) now); [| lia].
        cbn [fst requests]. unfold store. rewrite String.eqb_refl. reflexivity.
      * destruct (expiresAt e <? now); [| destruct (maxRequests rl <=? count e)];
          cbn [fst requests]; unfold store; rewrite ?String.eqb_refl, ?E;
          try reflexivity.
        destruct (Z.ltb_spec (expiresAt e) tc); [lia | reflexivity].
    + cbn [fst requests]. unfold store. rewrite String.eqb_refl. reflexivity.
  - intros k e. unfold cleanup. cbn [requests].
    destruct (requests rl k) as [e0 |]; [| discriminate].
    destruct (Z.ltb_spec (expiresAt e0) tc); [discriminate |].
    intros Heq. inversion Heq; subst. split; [reflexivity | lia].
Qed.

Lemma Login_fails lrl clientIP t c :
  unlocked lrl clientIP c ->
  snd (Login t clientIP false false lrl) = Unauthorized /\
  attempts (fst (Login t clientIP false false lrl)) clientIP =
    Some (mkAttempt (c + 1)
            (if maxAttempts lrl <=? c + 1 then Some t else None) t) /\
  maxAttempts (fst (Login t clientIP false false lrl)) = maxAttempts lrl /\
  lockoutTime (fst (Login t clientIP false false lrl)) = lockoutTime lrl /\
  (forall k, k <> clientIP ->
             attempts (fst (Login t clientIP false false lrl)) k = attempts lrl k).
Proof.
  intros [[Hnone ->] | (last & Hentry)]; unfold Login, Check;
    [rewrite Hnone | rewrite Hentry]; cbn [lockedAt fst snd negb];
    unfold RecordFailure; cbn [attempts with_attempts maxAttempts lockoutTime];
    unfold store; rewrite ?String.eqb_refl, ?Hentry;
    cbn [tries lockedAt attempts with_attempts maxAttempts lockoutTime fst snd];
    rewrite ?String.eqb_refl;
    (split; [reflexivity |]); (split; [reflexivity |]);
    (split; [reflexivity |]); (split; [reflexivity |]);
    intros k Hk; apply String.eqb_neq in Hk; rewrite ?Hk; reflexivity.
Qed.

Lemma fail_all_unlocked clientIP times :
  forall lrl c,
    unlocked lrl clientIP c ->
    c + Z.of_nat (length times) < maxAttempts lrl ->
    snd (fail_all clientIP times lrl) = repeat Unauthorized (length times) /\
    unlocked (fst (fail_all clientIP times lrl)) clientIP
      (c + Z.of_nat (length times)) /\
    maxAttempts (fst (fail_all clientIP times lrl)) = maxAttempts lrl /\
    lockoutTime (fst (fail_all clientIP times lrl)) = lockoutTime lrl /\
    (forall k, k <> clientIP ->
               attempts (fst (fail_all clientIP times lrl)) k = attempts lrl k).
Proof.
  induction times as [| t times IH]; intros lrl c Hun Hlt.
  - cbn [fail_all fst snd length repeat]. rewrite Z.add_0_r.
    repeat split; try reflexivity. exact Hun.
  - cbn [fail_all fst snd length repeat].
    destruct (Login_fails lrl clientIP t c Hun) as (L1 & L2 & L3 & L4 & L5).
    cbn [length] in Hlt. rewrite Nat2Z.inj_succ in *.
    destruct (Z.leb_spec (maxAttempts lrl) (c + 1)) as [Hfull | _]; [lia |].
    destruct (IH (fst (Login t clientIP false false lrl)) (c + 1)) as
      (A1 & A2 & A3 & A4 & A5).
    + right. exists t. exact L2.
    + rewrite L3. lia.
    + rewrite L1, A1, A3, A4, L3, L4.
      split; [reflexivity |]. split.
      * replace (c + Z.succ (Z.of_nat (length times)))
          with (c + 1 + Z.of_nat (length times)) by lia. exact A2.
      * split; [reflexivity |]. split; [reflexivity |].
        intros k Hk. rewrite (A5 k Hk). apply L5. exact Hk.
Qed.

Lemma fail_all_app clientIP a b lrl :
  fail_all clientIP (a ++ b) lrl =
  (fst (fail_all clientIP b (fst (fail_all clientIP a lrl))),
   snd (fail_all clientIP a lrl) ++
   snd (fail_all clientIP b (fst (fail_all clientIP a lrl)))).
Proof.
  revert lrl. induction a as [| t a IH]; intros lrl.
  - cbn [app fail_all fst snd]. destruct (fail_all clientIP b lrl); reflexivity.
  - cbn [app fail_all fst snd]. rewrite IH. reflexivity.
Qed.

(** X17.  An address without an entry that fails to log in as often as
    [maxAttempts] says is locked out at the last of these failures: every
    login from it before the lockout time has passed since then is turned
    away, whatever the credentials, with the time that remains, and the
    limiter is left as it is; from that instant on a login is let through
    again, and one with good credentials clears the entry.  The periodic
    cleanup does not lift a lockout that is running.  Fewer failures lock
    nothing, and the entries of other addresses are not touched. *)
Theorem login_lockout :
  forall (lrl : LoginRateLimiter) (clientIP : string) (times : list Z) (tl : Z),
    attempts lrl clientIP = None ->
    Z.of_nat (length times) + 1 = maxAttempts lrl ->
    let out := fail_all clientIP (times ++ [tl]) lrl in
    snd out = repeat Unauthorized (length times + 1) /\
    attempts (fst out) clientIP =
      Some (mkAttempt (maxAttempts lrl) (Some tl) tl) /\
    (forall t blank authenticated,
       t < tl + lockoutTime lrl ->
       Login t clientIP blank authenticated (fst out) =
         (fst out, TooManyRequests (tl + lockoutTime lrl - t))) /\
    (forall t,
       tl + lockoutTime lrl <= t ->
       snd (Login t clientIP false true (fst out)) = LoggedIn /\
       attempts (fst (Login t clientIP false true (fst out))) clientIP = None) /\
    (forall t,
       0 <= lockoutTime lrl -> t < tl + lockoutTime lrl ->
       attempts (cleanup_logins t (fst out)) clientIP =
         attempts (fst out) clientIP) /\
    (forall t, fst (snd (Check t clientIP (fst (fail_all clientIP times lrl)))) = true) /\
    (forall k, k <> clientIP -> attempts (fst out) k = attempts lrl k).
Proof.
  intros lrl clientIP times tl Hnone Hmax. cbn zeta.
  destruct (fail_all_unlocked clientIP times lrl 0) as (A1 & A2 & A3 & A4 & A5);
    [left; split; [exact Hnone | reflexivity] | lia |].
  set (lrl1 := fst (fail_all clientIP times lrl)) in *.
  destruct (Login_fails lrl1 clientIP tl _ A2) as (L1 & L2 & L3 & L4 & L5).
  rewrite A3 in L2.
  destruct (Z.leb_spec (maxAttempts lrl) (0 + Z.of_nat (length times) + 1))
    as [_ | Hlt]; [| lia].
  replace (0 + Z.of_nat (length times) + 1) with (maxAttempts lrl) in L2 by lia.
  rewrite fail_all_app. cbn [fail_all fst snd]. fold lrl1.
  set (lrl2 := fst (Login tl clientIP false false lrl1)) in *.
  split; [| split; [exact L2 | split; [| split; [| split; [| split]]]]].
  - rewrite A1, L1, repeat_app. reflexivity.
  - intros t blank authenticated Ht. unfold Login, Check. rewrite L2.
    cbn [lockedAt]. rewrite L4, A4.
    destruct (Z.ltb_spec 0 (tl + lockoutTime lrl - t)); [reflexivity | lia].
  - intros t Ht. unfold Login, Check. rewrite L2. cbn [lockedAt].
    rewrite L4, A4.
    destruct (Z.ltb_spec 0 (tl + lockoutTime lrl - t)); [lia |].
    cbn [fst snd negb]. split; [reflexivity |].
    unfold RecordSuccess, delete. cbn [attempts with_attempts].
    rewrite String.eqb_refl. reflexivity.
  - intros t Hpos Ht. unfold cleanup_logins. cbn [attempts with_attempts].
    rewrite L2. cbn [lastTry]. rewrite L4, A4.
    destruct (Z.ltb_spec (lockoutTime lrl * 2) (t - tl)); [lia | reflexivity].
  - intros t. unfold Check.
    destruct A2 as [[Hn _] | (last & He)]; [rewrite Hn | rewrite He]; reflexivity.
  - intros k Hk. transitivity (attempts lrl1 k); [apply L5 | apply A5]; exact Hk.
Qed.

End RateLimiters.

(* ------------------------------------------------------------------ *)
(** ** Roles and scopes *)

(** X18.  [RequireRole] orders the roles: without a user the request is
    sent to the login page, whatever is asked; otherwise [viewer] lets
    every user through, whatever the role, [editor] exactly the editors
    and the admins, [admin] exactly the admins, so that who passes for a
    role passes for the weaker ones; and a minimum role that is not one of
    the three lets nobody through. *)
Theorem require_role_hierarchy :
  (forall minRole, Role.RequireRole minRole None = Role.RedirectToLogin) /\
  (forall role, Role.RequireRole Role.RoleViewer (Some role) = Role.Next) /\
  (forall role,
     Role.RequireRole Role.RoleEditor (Some role) = Role.Next <->
     role = "admin" \/ role = "editor") /\
  (forall role,
     Role.RequireRole Role.RoleAdmin (Some role) = Role.Next <-> role = "admin") /\
  (forall role,
     Role.RequireRole Role.RoleAdmin (Some role) = Role.Next ->
     Role.RequireRole Role.RoleEditor (Some role) = Role.Next) /\
  (forall minRole role,
     Role.IsValid minRole = false ->
     Role.RequireRole minRole (Some role) = Role.Forbidden) /\
  (forall minRole role,
     Role.RequireRole minRole (Some role) <> Role.RedirectToLogin).
Proof.
  assert (Heditor : forall role,
            Role.RequireRole Role.RoleEditor (Some role) = Role.Next <->
            role = "admin" \/ role = "editor").
  { intros role. unfold Role.RequireRole, Role.CanEdit, Role.RoleEditor,
      Role.RoleViewer, Role.RoleAdmin. cbn [String.eqb Ascii.eqb Bool.eqb].
    destruct (String.eqb_spec role "admin") as [Ha | Ha];
      destruct (String.eqb_spec role "editor") as [He | He]; cbn [orb negb];
      split; intros H; try reflexivity; try discriminate; auto.
    destruct H; contradiction. }
  assert (Hadmin : forall role,
            Role.RequireRole Role.RoleAdmin (Some role) = Role.Next <->
            role = "admin").
  { intros role. unfold Role.RequireRole, Role.CanAdmin, Role.RoleEditor,
      Role.RoleViewer, Role.RoleAdmin. cbn [String.eqb Ascii.eqb Bool.eqb].
    destruct (String.eqb_spec role "admin") as [Ha | Ha]; cbn [negb];
      split; intros H; try reflexivity; try discriminate; try assumption;
      contradiction. }
  split; [reflexivity |]. split; [reflexivity |].
  split; [exact Heditor |]. split; [exact Hadmin |].
  split; [| split].
  - intros role H. apply Heditor. left. apply Hadmin. exact H.
  - intros minRole role. unfold Role.IsValid, Role.RequireRole. intros H.
    apply orb_false_iff in H. destruct H as [H Hv].
    apply orb_false_iff in H. destruct H as [Ha He].
    rewrite Hv, He, Ha. reflexivity.
  - intros minRole role. unfold Role.RequireRole.
    destruct (negb _); discriminate.
Qed.

Lemma In_ScopeList scopes x :
  In x (APIToken.ScopeList scopes) <->
  x <> "" /\ exists s, In s (Split scopes ",") /\ TrimSpace s = x.
Proof.
  unfold APIToken.ScopeList. rewrite filter_In, in_map_iff, negb_true_iff.
  rewrite String.eqb_neq. split.
  - intros ((s & Hs & Hin) & Hne). split; [exact Hne |]. exists s. auto.
  - intros (Hne & s & Hin & Hs). split; [| exact Hne]. exists s. auto.
Qed.

(** X19.  The two readings of the scopes of an API token agree: the token
    has a scope, other than the empty one, exactly when [ScopeList] names
    that scope or [admin]; [ScopeList] never names the empty scope; but
    the empty scope itself is had by every token with an empty item in
    its scopes, the token without scopes among them. *)
Theorem scopes_agree :
  (forall scopes scope,
     scope <> "" ->
     (APIToken.HasScope scopes scope = true <->
      In scope (APIToken.ScopeList scopes) \/ In "admin" (APIToken.ScopeList scopes))) /\
  (forall scopes, ~ In "" (APIToken.ScopeList scopes)) /\
  (forall scopes,
     APIToken.HasScope scopes "" = true <->
     (exists s, In s (Split scopes ",") /\ TrimSpace s = "") \/
     In "admin" (APIToken.ScopeList scopes)) /\
  APIToken.HasScope "" "" = true /\
  APIToken.ScopeList "" = [].
Proof.
  assert (Hhas : forall scopes scope,
            APIToken.HasScope scopes scope = true <->
            exists s, In s (Split scopes ",") /\
                      (TrimSpace s = scope \/ TrimSpace s = "admin")).
  { intros scopes scope. unfold APIToken.HasScope. rewrite existsb_exists.
    split; intros (s & Hin & H); exists s; (split; [exact Hin |]).
    - apply orb_true_iff in H. rewrite !String.eqb_eq in H. exact H.
    - apply orb_true_iff. rewrite !String.eqb_eq. exact H. }
  split; [| split; [| split; [| split; reflexivity]]].
  - intros scopes scope Hne. rewrite Hhas, !In_ScopeList. split.
    + intros (s & Hin & [H | H]); [left | right]; (split; [| exists s; auto]);
        [exact Hne | discriminate].
    + intros [(_ & s & Hin & H) | (_ & s & Hin & H)]; exists s; auto.
  - intros scopes H. apply In_ScopeList in H. destruct H as [H _]. apply H.
    reflexivity.
  - intros scopes. rewrite Hhas, In_ScopeList. split.
    + intros (s & Hin & [H | H]); [left; exists s; auto |].
      right. split; [discriminate | exists s; auto].
    + intros [(s & Hin & H) | (_ & s & Hin & H)]; exists s; auto.
Qed.

(* ------------------------------------------------------------------ *)
(** ** Slugs once more: file names, heading ids, repeated normalization *)

(** The shape of every slug [slugify] returns. *)
Lemma slugify_shape s :
  Strings.forallb slug_byte (slugify s) = true /\
  Strings.filter is_alnum (slugify s) = Strings.filter is_alnum (ToLower s) /\
  adjacent "-" "-" (slugify s) = false /\
  adjacent "-" "/" (slugify s) = false /\
  adjacent "/" "-" (slugify s) = false /\
  (forall c, head (slugify s) = Some c -> is_alnum c = true) /\
  (forall c, last (slugify s) = Some c -> is_alnum c = true).
Proof.
  destruct (slugify_trimmed s) as (Hs & Hall & Hfilter & Hadj & Hhead & Hlast).
  set (t := Trim _ _) in *. clearbody t.
  assert (Hbytes : Strings.forallb slug_byte (slugify s) = true).
  { rewrite Hs. apply ReplaceAllString_forallb; [reflexivity | exact Hall]. }
  assert (Hrun : Strings.filter is_alnum (slugify s) =
                 Strings.filter is_alnum (ToLower s)).
  { rewrite Hs, <- Hfilter. apply ReplaceAllString_filter; [| reflexivity].
    repeat constructor; cbn; intros c Hc;
      first [apply is_hyphen_iff in Hc | apply is_slash_iff in Hc];
      subst c; reflexivity. }
  assert (Hfirst : forall c, head (slugify s) = Some c -> is_alnum c = true).
  { intros c Hc. rewrite Hs, around_slash_head in Hc.
    rewrite around_slash_not_started in Hc; [exact (Hhead c Hc) |].
    intros d Hd. apply alnum_not_cut. exact (Hhead d Hd). }
  assert (Hend : forall c, last (slugify s) = Some c -> is_alnum c = true).
  { intros c Hc. rewrite Hs in Hc.
    destruct t as [| c0 t0]; [discriminate Hc |].
    destruct (nonempty_last (String c0 t0)) as (e & He); [discriminate |].
    pose proof (Hlast e He) as Halnum.
    rewrite (ReplaceAllString_last (fun x => is_hyphen x || is_slash x)
               re_around_slash "/") with (c := e) in Hc.
    - inversion Hc; subst. exact Halnum.
    - repeat constructor; cbn; intros x Hx; rewrite Hx;
        [reflexivity | apply orb_true_r | reflexivity].
    - discriminate.
    - exact He.
    - destruct (alnum_not_cut e Halnum) as [E1 E2]. rewrite E1, E2. reflexivity. }
  destruct (around_slash_clean t Hadj) as (A1 & A2 & A3). rewrite <- Hs in A1, A2, A3.
  repeat split; assumption.
Qed.



Lemma map_id_on (f : ascii -> ascii) s :
  Strings.forallb (fun c => Ascii.eqb (f c) c) s = true -> Strings.map f s = s.
Proof.
  induction s as [| c s IH]; [reflexivity |]. cbn [Strings.forallb Strings.map].
  intros H. apply andb_true_iff in H. destruct H as [Hc Hs].
  apply Ascii.eqb_eq in Hc. rewrite Hc, (IH Hs). reflexivity.
Qed.

Lemma forallb_impl (p q : ascii -> bool) s :
  (forall c, p c = true -> q c = true) ->
  Strings.forallb p s = true -> Strings.forallb q s = true.
Proof.
  intros Hpq. induction s as [| c s IH]; [reflexivity |]. cbn [Strings.forallb].
  intros H. apply andb_true_iff in H. destruct H as [Hc Hs].
  rewrite (Hpq c Hc), (IH Hs). reflexivity.
Qed.









(** X21.  The id of a heading is never empty and holds bytes of
    [a-z0-9/-] only; it is the slug of the heading text, and ["heading"]
    when that slug is empty, which is the case for every text without a
    letter or digit; so that it is ["heading"] exactly for the texts whose
    slug is empty or is ["heading"] itself. *)
Theorem heading_ids_are_usable :
  forall text : string,
    generateHeadingID text <> "" /\
    Strings.forallb slug_byte (generateHeadingID text) = true /\
    (slugify text <> "" -> generateHeadingID text = slugify text) /\
    (Strings.filter is_alnum (ToLower text) = "" ->
     generateHeadingID text = "heading") /\
    (generateHeadingID text = "heading" <->
     slugify text = "" \/ slugify text = "heading").
Proof.
  intros text. destruct (slugify_shape text) as (Hbytes & Hrun & _ & _ & _ & Hhead & _).
  unfold generateHeadingID.
  destruct (String.eqb_spec (slugify text) "") as [E | E].
  - split; [discriminate |]. split; [reflexivity |].
    split; [intros H; contradiction |]. split; [reflexivity |].
    split; [left; exact E | reflexivity].
  - split; [exact E |]. split; [exact Hbytes |]. split; [reflexivity |]. split.
    + intros Hnone. exfalso. apply E. rewrite <- Hrun in Hnone.
      destruct (slugify text) as [| c r]; [reflexivity |].
      pose proof (Hhead c eq_refl) as Hc. cbn in Hnone. rewrite Hc in Hnone.
      discriminate.
    + split; [intros H; right; exact H | intros [H | H]; [contradiction | exact H]].
Qed.

Lemma slug_byte_plain c :
  slug_byte c = true ->
  Ascii.eqb c (byte 196) = false /\ Ascii.eqb c (byte 226) = false /\
  lower_byte c = c /\ Ascii.eqb c " " = false /\ Ascii.eqb c "_" = false.
Proof.
  destruct c as [[] [] [] [] [] [] [] []]; vm_compute; intros H;
    first [discriminate H | repeat split].
Qed.

Lemma ToLower_plain s : Strings.forallb slug_byte s = true -> ToLower s = s.
Proof.
  induction s as [| c1 s1 IH]; [reflexivity |].
  cbn [Strings.forallb]. intros H. apply andb_true_iff in H.
  destruct H as [Hc Hs]. specialize (IH Hs).
  destruct (slug_byte_plain c1 Hc) as (H196 & H226 & Hlow & _).
  destruct s1 as [| c2 s2]; [cbn; rewrite Hlow; reflexivity |].
  destruct s2 as [| c3 s3].
  - change (ToLower (String c1 (String c2 ""))) with
      (if Ascii.eqb c1 (byte 196) && Ascii.eqb c2 (byte 176)
       then String "i" (ToLower "")
       else String (lower_byte c1) (ToLower (String c2 ""))).
    rewrite H196, Hlow, IH. reflexivity.
  - change (ToLower (String c1 (String c2 (String c3 s3)))) with
      (if Ascii.eqb c1 (byte 196) && Ascii.eqb c2 (byte 176)
       then String "i" (ToLower (String c3 s3))
       else if Ascii.eqb c1 (byte 226) && Ascii.eqb c2 (byte 132)
               && Ascii.eqb c3 (byte 170)
            then String "k" (ToLower s3)
            else String (lower_byte c1) (ToLower (String c2 (String c3 s3)))).
    rewrite H196, H226, Hlow, IH. reflexivity.
Qed.

Lemma ReplaceAll_plain (q : ascii -> bool) s old new :
  Strings.forallb q s = true -> q old = false -> ReplaceAll s old new = s.
Proof.
  intros Hq Hold. unfold ReplaceAll. apply map_id_on. revert Hq.
  apply forallb_impl. intros c Hc.
  destruct (Ascii.eqb_spec c old) as [-> | _]; [| apply Ascii.eqb_refl].
  rewrite Hold in Hc. discriminate.
Qed.

Lemma filter_plain q s : Strings.forallb q s = true -> Strings.filter q s = s.
Proof.
  induction s as [| c s IH]; [reflexivity |]. cbn [Strings.forallb Strings.filter].
  intros H. apply andb_true_iff in H. destruct H as [Hc Hs].
  rewrite Hc, (IH Hs). reflexivity.
Qed.

(** What the absence of a pair of neighbours says of the first byte. *)
Lemma adjacent_head a b s :
  adjacent a b (String a s) = false ->
  (forall d, head s = Some d -> Ascii.eqb d b = false) /\ adjacent a b s = false.
Proof.
  rewrite adjacent_cons. intros H. apply orb_false_iff in H.
  destruct H as [H1 H2]. split; [| exact H2].
  intros d Hd. rewrite Hd, Ascii.eqb_refl in H1. exact H1.
Qed.

Lemma adjacent_tail a b c s :
  adjacent a b (String c s) = false -> adjacent a b s = false.
Proof.
  rewrite adjacent_cons. intros H. apply orb_false_iff in H. apply H.
Qed.

Section SqueezeMore.

Variable f : ascii -> bool.
Variable c0 : ascii.
Hypothesis Hf : forall c, f c = true <-> c = c0.

(** Where no run is longer than one byte, squeezing changes nothing. *)
Lemma squeeze_plain s :
  adjacent c0 c0 s = false ->
  ReplaceAllString [(f, Plus)] s (String c0 "") = s.
Proof.
  induction s as [| c s IH]; [reflexivity |]. intros Hadj.
  rewrite ReplaceAllString_step.
  destruct (match_at [(f, Plus)] (String c s)) as [[| k] |] eqn:Hm;
    try (rewrite (IH (adjacent_tail _ _ _ _ Hadj)); reflexivity).
  apply match_plus_inv in Hm. destruct Hm as [Hc ->]. apply Hf in Hc. subst c.
  destruct (adjacent_head _ _ _ Hadj) as [Hnext Htail].
  rewrite span_none.
  - cbn [drop append]. rewrite (IH Htail). reflexivity.
  - intros d Hd. specialize (Hnext d Hd).
    destruct (f d) eqn:E; [| reflexivity]. apply Hf in E. subst d.
    rewrite Ascii.eqb_refl in Hnext. discriminate.
Qed.

(** Squeezing the runs of [c0] puts no [b] behind a [c0] that had none. *)
Lemma squeeze_behind b s :
  b <> c0 ->
  adjacent c0 b s = false ->
  adjacent c0 b (ReplaceAllString [(f, Plus)] s (String c0 "")) = false.
Proof.
  intros Hb.
  apply (ReplaceAllString_ind [(f, Plus)] (String c0 "")
           (fun s r => adjacent c0 b s = false -> adjacent c0 b r = false)).
  - reflexivity.
  - intros c s' k Hm IH Hadj. apply match_plus_inv in Hm.
    destruct Hm as [Hc ->]. apply Hf in Hc. subst c.
    cbn [append]. rewrite adjacent_cons.
    assert (Hrest : adjacent c0 b (drop (span f s') s') = false)
      by (apply adjacent_drop; apply (adjacent_tail _ _ _ _ Hadj)).
    rewrite (IH Hrest), orb_false_r, (squeeze_head f c0 Hf).
    destruct (head (drop (span f s') s')) as [d |] eqn:Hd; [| reflexivity].
    rewrite Ascii.eqb_refl. cbn [andb].
    destruct (Ascii.eqb_spec d b) as [-> | _]; [| reflexivity].
    exfalso.
    assert (Hprev : forall t, adjacent c0 b (String c0 t) = false ->
                      head (drop (span f t) t) = Some b -> False).
    { clear - Hf Hb. intros t. induction t as [| x t IHt]; [discriminate |].
      intros Hadj Hh. cbn [span] in Hh. destruct (f x) eqn:Hx.
      - apply Hf in Hx. subst x. cbn [drop] in Hh.
        apply (IHt (adjacent_tail _ _ _ _ Hadj) Hh).
      - cbn [drop head] in Hh. inversion Hh; subst x.
        destruct (adjacent_head _ _ _ Hadj) as [Hnext _].
        specialize (Hnext b eq_refl). rewrite Ascii.eqb_refl in Hnext.
        discriminate. }
    exact (Hprev s' Hadj Hd).
  - intros c s' Hm IH Hadj. rewrite adjacent_cons, (squeeze_head f c0 Hf).
    rewrite adjacent_cons in Hadj. apply orb_false_iff in Hadj.
    destruct Hadj as [H1 H2]. rewrite H1, (IH H2). reflexivity.
Qed.

End SqueezeMore.

Lemma alnum_not_trimmed c : is_alnum c = true -> mem c "-/" = false.
Proof.
  destruct c as [[] [] [] [] [] [] [] []]; vm_compute; intros H;
    first [discriminate H | reflexivity].
Qed.

Lemma TrimLeft_plain s cut :
  (forall c, head s = Some c -> mem c cut = false) -> TrimLeft s cut = s.
Proof.
  destruct s as [| c s]; [reflexivity |]. intros H. cbn [TrimLeft].
  rewrite (H c eq_refl). reflexivity.
Qed.

Lemma TrimRight_plain s cut :
  (forall c, last s = Some c -> mem c cut = false) -> TrimRight s cut = s.
Proof.
  induction s as [| c s IH]; [reflexivity |]. intros H.
  rewrite TrimRight_cons. destruct s as [| d s].
  - cbn. rewrite (H c eq_refl). reflexivity.
  - rewrite IH; [reflexivity |]. intros e He. apply H.
    rewrite last_cons; [exact He | discriminate].
Qed.

(** On a string where no hyphen touches a slash and no slash is doubled,
    the pattern [-*/+-*] matches the single slashes and nothing else. *)
Lemma around_slash_plain s :
  adjacent "-" "-" s = false ->
  adjacent "-" "/" s = false ->
  adjacent "/" "-" s = false ->
  adjacent "/" "/" s = false ->
  ReplaceAllString re_around_slash s "/" = s.
Proof.
  induction s as [| c s IH]; [reflexivity |]. intros Hhh Hhs Hsh Hss.
  specialize (IH (adjacent_tail _ _ _ _ Hhh) (adjacent_tail _ _ _ _ Hhs)
                 (adjacent_tail _ _ _ _ Hsh) (adjacent_tail _ _ _ _ Hss)).
  rewrite ReplaceAllString_step.
  assert (Hm : match_at re_around_slash (String c s) =
               if is_slash c then Some 1%nat else None).
  { unfold re_around_slash. cbn [match_at].
    destruct (is_hyphen c) eqn:Ehy.
    - cbn [span]. rewrite Ehy. apply is_hyphen_iff in Ehy. subst c.
      destruct (adjacent_head _ _ _ Hhh) as [Hn1 _].
      destruct (adjacent_head _ _ _ Hhs) as [Hn2 _].
      rewrite (span_none is_hyphen s Hn1). cbn [drop].
      rewrite (span_none is_slash s Hn2). reflexivity.
    - cbn [span]. rewrite Ehy. cbn [drop span].
      destruct (is_slash c) eqn:Esl; [| reflexivity].
      apply is_slash_iff in Esl. subst c.
      destruct (adjacent_head _ _ _ Hsh) as [Hn1 _].
      destruct (adjacent_head _ _ _ Hss) as [Hn2 _].
      rewrite (span_none is_slash s Hn2). cbn [Nat.eqb drop].
      rewrite (span_none is_hyphen s Hn1). reflexivity. }
  rewrite Hm. destruct (is_slash c) eqn:Esl.
  - apply is_slash_iff in Esl. subst c. cbn [drop append]. rewrite IH.
    reflexivity.
  - rewrite IH. reflexivity.
Qed.

Lemma last_None s : last s = None -> s = "".
Proof.
  induction s as [| c s IH]; [reflexivity |]. intros H. exfalso.
  destruct s as [| d s]; [discriminate H |].
  change (last (String c (String d s))) with (last (String d s)) in H.
  specialize (IH H). discriminate IH.
Qed.

(** Collapsing the slash runs keeps a last byte that is a letter or a
    digit. *)
Lemma squeeze_last_alnum r :
  (forall c, last r = Some c -> is_alnum c = true) ->
  forall c, last (ReplaceAllString re_slashes r "/") = Some c ->
            is_alnum c = true.
Proof.
  intros Hlast c Hc. destruct (last r) as [d |] eqn:Hd.
  - pose proof (Hlast d eq_refl) as Hal.
    assert (Hds : is_slash d = false).
    { destruct (is_slash d) eqn:E; [| reflexivity].
      apply is_slash_iff in E. subst d. discriminate Hal. }
    assert (Hl : last (ReplaceAllString re_slashes r "/") = Some d).
    { apply (ReplaceAllString_last is_slash); [| discriminate | exact Hd | exact Hds].
      repeat constructor. intros x Hx. exact Hx. }
    rewrite Hl in Hc. inversion Hc; subst c. exact Hal.
  - apply last_None in Hd. subst r. discriminate Hc.
Qed.

(** [slugify] on a string that already has the shape of a slug: only the
    collapse of the slash runs can still change it. *)
Lemma slugify_of_slug r :
  Strings.forallb slug_byte r = true ->
  adjacent "-" "-" r = false ->
  adjacent "-" "/" r = false ->
  adjacent "/" "-" r = false ->
  (forall c, head r = Some c -> is_alnum c = true) ->
  (forall c, last r = Some c -> is_alnum c = true) ->
  slugify r = ReplaceAllString re_slashes r "/" /\
  adjacent "/" "/" (slugify r) = false.
Proof.
  intros Hb Hhh Hhs Hsh Hhead Hlast.
  assert (Hslash : forall c, is_slash c = true <-> c = "/"%char)
    by exact is_slash_iff.
  assert (E : slugify r = ReplaceAllString re_slashes r "/").
  { unfold slugify. cbv zeta. rewrite (ToLower_plain r Hb).
    rewrite (ReplaceAll_plain slug_byte r " " "-" Hb eq_refl).
    rewrite (ReplaceAll_plain slug_byte r "_" "-" Hb eq_refl).
    assert (Hu : ReplaceAllString re_unsafe r "" = r).
    { rewrite ReplaceAllString_unsafe. apply filter_plain. exact Hb. }
    rewrite Hu. unfold re_hyphens.
    rewrite (squeeze_plain is_hyphen "-" is_hyphen_iff r Hhh).
    set (t := ReplaceAllString re_slashes r "/").
    assert (Ht : Trim t "-/" = t).
    { unfold Trim. rewrite TrimLeft_plain.
      - apply TrimRight_plain. intros c Hc. apply alnum_not_trimmed.
        apply (squeeze_last_alnum r Hlast c Hc).
      - intros c Hc. apply alnum_not_trimmed, Hhead.
        unfold t, re_slashes in Hc.
        rewrite (squeeze_head is_slash "/" is_slash_iff) in Hc. exact Hc. }
    rewrite Ht. apply around_slash_plain; unfold t, re_slashes.
    - apply (squeeze_other is_slash "/" is_slash_iff); [discriminate | exact Hhh].
    - apply (squeeze_other is_slash "/" is_slash_iff); [discriminate | exact Hhs].
    - apply (squeeze_behind is_slash "/" is_slash_iff); [discriminate | exact Hsh].
    - apply (squeeze_self is_slash "/" is_slash_iff). }
  split; [exact E |]. rewrite E.
  apply (squeeze_self is_slash "/" is_slash_iff).
Qed.

(** X22. Applying [slugify] to a slug only collapses its runs of slashes:
    a second application changes the slug exactly when it holds a doubled
    slash, and from the second application on the result is fixed. *)
Theorem slugify_settles s :
  slugify (slugify s) = ReplaceAllString re_slashes (slugify s) "/" /\
  (slugify (slugify s) = slugify s <-> adjacent "/" "/" (slugify s) = false) /\
  slugify (slugify (slugify s)) = slugify (slugify s).
Proof.
  destruct (slugify_shape s) as (Hb & _ & Hhh & Hhs & Hsh & Hh & Hl).
  destruct (slugify_of_slug (slugify s) Hb Hhh Hhs Hsh Hh Hl) as [E N].
  split; [exact E |]. split.
  - split.
    + intros H. rewrite <- H. exact N.
    + intros H. rewrite E.
      apply (squeeze_plain is_slash "/" is_slash_iff). exact H.
  - destruct (slugify_shape (slugify s)) as (Hb' & _ & Hhh' & Hhs' & Hsh' & Hh' & Hl').
    destruct (slugify_of_slug (slugify (slugify s)) Hb' Hhh' Hhs' Hsh' Hh' Hl')
      as [E' _].
    rewrite E'. apply (squeeze_plain is_slash "/" is_slash_iff). exact N.
Qed.

(** *** Deleting several pages *)

Lemma filter_comm {A} (p q : A -> bool) l :
  List.filter p (List.filter q l) = List.filter q (List.filter p l).
Proof.
  induction l as [| a l IH]; [reflexivity |]. cbn [List.filter].
  destruct (p a) eqn:Hp, (q a) eqn:Hq; cbn [List.filter];
    rewrite ?Hp, ?Hq, IH; reflexivity.
Qed.

Lemma filter_map_swap {A} (p : A -> bool) (f : A -> A) l :
  (forall a, p (f a) = p a) ->
  List.filter p (List.map f l) = List.map f (List.filter p l).
Proof.
  intros Hf. induction l as [| a l IH]; [reflexivity |].
  cbn [List.map List.filter]. rewrite Hf.
  destruct (p a); cbn [List.map]; rewrite IH; reflexivity.
Qed.

Lemma orphan_comm a b p : orphan a (orphan b p) = orphan b (orphan a p).
Proof.
  unfold orphan. destruct p as [i s t c h au [q |] pub]; cbn; [| reflexivity].
  destruct (q =? b) eqn:Hb, (q =? a) eqn:Ha; cbn; rewrite ?Hb, ?Ha; reflexivity.
Qed.

Lemma filter_gone a b (ls : list ShareLink.t) :
  a <> b ->
  List.filter (fun l => ShareLink.PageID l =? a)
    (List.filter (fun l => negb (ShareLink.PageID l =? b)) ls) =
  List.filter (fun l => ShareLink.PageID l =? a) ls.
Proof.
  intros Hab. induction ls as [| l ls IH]; [reflexivity |]. cbn [List.filter].
  destruct (ShareLink.PageID l =? b) eqn:Hb; cbn [negb List.filter].
  - apply Z.eqb_eq in Hb.
    assert (Ha : (ShareLink.PageID l =? a) = false) by (apply Z.eqb_neq; lia).
    rewrite Ha. exact IH.
  - destruct (ShareLink.PageID l =? a); rewrite IH; reflexivity.
Qed.

(** Two deletions give the same database in either order. *)
Lemma delete_row_comm a b db :
  delete_row a (delete_row b db) = delete_row b (delete_row a db).
Proof.
  destruct (Z.eq_dec a b) as [-> | Hab]; [reflexivity |].
  unfold delete_row.
  cbn [pages next_page_id revisions next_revision_id share_links
       share_link_access next_access_id].
  fold (orphan a). fold (orphan b).
  rewrite (filter_gone a b) by exact Hab.
  rewrite (filter_gone b a) by (intros E; apply Hab; symmetry; exact E).
  f_equal.
  - rewrite !filter_map_swap
      by (intros p; unfold orphan; destruct (Page.ParentID p) as [q |];
          [destruct (q =? a), (q =? b) | ]; reflexivity).
    rewrite !map_map, (filter_comm (fun p => negb (Page.ID p =? a))).
    apply map_ext. intros p. apply orphan_comm.
  - apply filter_comm.
  - apply filter_comm.
  - apply filter_comm.
Qed.

Lemma delete_each_run ids db :
  delete_each ids db = Some (fold_left (fun d id => delete_row id d) ids db, Ok tt).
Proof.
  revert db. induction ids as [| id ids IH]; intros db; [reflexivity |].
  cbn [delete_each fold_left]. unfold bind, wrap, Queries.DeletePage.
  apply IH.
Qed.

Lemma DeletePages_run ids db :
  DeletePages ids db = Some (fold_left (fun d id => delete_row id d) ids db, Ok tt).
Proof.
  destruct ids as [| id ids]; [reflexivity |].
  unfold DeletePages, Transaction. rewrite delete_each_run. reflexivity.
Qed.

Lemma delete_rows_permutation ids ids' :
  Permutation ids ids' ->
  forall db, fold_left (fun d id => delete_row id d) ids db =
             fold_left (fun d id => delete_row id d) ids' db.
Proof.
  induction 1 as [| x l l' _ IH | x y l | l l' l'' _ IH1 _ IH2]; intros db.
  - reflexivity.
  - cbn [fold_left]. apply IH.
  - cbn [fold_left]. rewrite delete_row_comm. reflexivity.
  - rewrite IH1. apply IH2.
Qed.

Lemma In_delete_rows ids : forall db q',
  In q' (pages (fold_left (fun d id => delete_row id d) ids db)) <->
  exists q, In q (pages db) /\ ~ In (Page.ID q) ids /\
            q' = if existsb (has_parent q) ids
                 then Page.with_ParentID q None else q.
Proof.
  induction ids as [| id ids IH]; intros db q'.
  - cbn [fold_left existsb]. split.
    + intros H. exists q'. split; [exact H |]. split; [intros [] | reflexivity].
    + intros (q & Hin & _ & ->). exact Hin.
  - cbn [fold_left existsb]. rewrite IH. split.
    + intros (q1 & Hin1 & Hno & ->). apply In_delete_row in Hin1.
      destruct Hin1 as (q & Hin & Hid & ->). exists q.
      split; [exact Hin |]. destruct (orphaned_fields q id) as [Eid _].
      rewrite Eid in Hno. split.
      * intros [E | E]; [apply Hid; symmetry; exact E | exact (Hno E)].
      * destruct (has_parent q id) eqn:Hp; cbn [orb]; [| reflexivity].
        destruct (existsb _ ids); [reflexivity |].
        destruct (existsb (has_parent q) ids); reflexivity.
    + intros (q & Hin & Hno & ->).
      exists (if has_parent q id then Page.with_ParentID q None else q).
      split; [| split].
      * apply In_delete_row. exists q. split; [exact Hin |].
        split; [| reflexivity]. intros E. apply Hno. left. symmetry. exact E.
      * destruct (orphaned_fields q id) as [-> _]. intros E. apply Hno.
        right. exact E.
      * destruct (has_parent q id) eqn:Hp; cbn [orb]; [| reflexivity].
        destruct (existsb _ ids); [reflexivity |].
        destruct (existsb (has_parent q) ids); reflexivity.
Qed.

Lemma revisions_delete_rows ids : forall db r,
  In r (revisions (fold_left (fun d id => delete_row id d) ids db)) <->
  In r (revisions db) /\ ~ In (Revision.PageID r) ids.
Proof.
  induction ids as [| id ids IH]; intros db r.
  - cbn [fold_left]. split; [intros H; split; [exact H | intros []] | intros [H _]; exact H].
  - cbn [fold_left]. rewrite IH. unfold delete_row at 1. cbn [revisions].
    rewrite filter_In, negb_true_iff, Z.eqb_neq. split.
    + intros [[Hin Hid] Hno]. split; [exact Hin |].
      intros [E | E]; [apply Hid; symmetry; exact E | exact (Hno E)].
    + intros [Hin Hno]. split; [split; [exact Hin |] |].
      * intros E. apply Hno. left. symmetry. exact E.
      * intros E. apply Hno. right. exact E.
Qed.

Lemma store_ok_delete_rows ids : forall db,
  store_ok db -> store_ok (fold_left (fun d id => delete_row id d) ids db).
Proof.
  induction ids as [| id ids IH]; intros db Hok; [exact Hok |].
  cbn [fold_left]. apply IH, store_ok_delete, Hok.
Qed.

(** X23.  [DeletePages] removes the pages whose ids it is given, with
    their revisions, and no other; the pages that stay keep everything
    but a parent link to a removed page, which becomes empty; the
    constraints of the schema stay in force; and the order of the ids
    makes no difference to the database that results. *)
Theorem delete_pages_in_any_order :
  forall (ids : list Z) (db : DB),
    exists db',
      DeletePages ids db = Some (db', Ok tt) /\
      (forall q', In q' (pages db') <->
         exists q, In q (pages db) /\ ~ In (Page.ID q) ids /\
                   q' = if existsb (has_parent q) ids
                        then Page.with_ParentID q None else q) /\
      (forall r, In r (revisions db') <->
                 In r (revisions db) /\ ~ In (Revision.PageID r) ids) /\
      (store_ok db -> store_ok db') /\
      (forall ids', Permutation ids ids' ->
                    DeletePages ids' db = Some (db', Ok tt)).
Proof.
  intros ids db.
  exists (fold_left (fun d id => delete_row id d) ids db).
  split; [apply DeletePages_run |].
  split; [apply In_delete_rows |].
  split; [apply revisions_delete_rows |].
  split; [apply store_ok_delete_rows |].
  intros ids' Hperm. rewrite DeletePages_run.
  rewrite (delete_rows_permutation ids ids' Hperm). reflexivity.
Qed.

(** X24.  What [validateShareLink] lets through is valid in the sense of
    [ShareLink.IsValid]; a link that is valid in that sense is refused by
    the middleware for one reason only, the limit on addresses, and that
    exactly when the limit is reached by the addresses in the log and the
    address of the request is not among them: an address that has used
    the link before is never turned away by that limit. *)
Theorem validation_agrees_with_is_valid :
  forall (sanitizeIP : string -> string) (now : Z) (db : DB)
         (link : ShareLink.t) (realIP : string),
    (validateShareLink sanitizeIP now db link realIP = None ->
     ShareLink.IsValid now link = true) /\
    (ShareLink.IsValid now link = true ->
     validateShareLink sanitizeIP now db link realIP = None \/
     validateShareLink sanitizeIP now db link realIP = Some IPLimitReached) /\
    (validateShareLink sanitizeIP now db link realIP = Some IPLimitReached <->
     ShareLink.IsValid now link = true /\
     ShareLink.IsIPLimitReached link
       (GetShareLinkUniqueIPCount db (ShareLink.ID link)) = true /\
     HasIPAccessedShareLink db (ShareLink.ID link) (sanitizeIP realIP) = false) /\
    (ShareLink.IsValid now link = false <->
     validateShareLink sanitizeIP now db link realIP = Some Revoked \/
     validateShareLink sanitizeIP now db link realIP = Some Expired \/
     validateShareLink sanitizeIP now db link realIP = Some ViewLimitReached).
Proof.
  intros sanitizeIP now db link realIP.
  unfold validateShareLink, ShareLink.IsValid, ShareLink.IsIPLimitReached.
  destruct (ShareLink.IsRevoked link), (ShareLink.IsExpired now link),
    (ShareLink.IsViewLimitReached link), (ShareLink.MaxIPs link) as [m |];
    cbv zeta;
    try destruct (HasIPAccessedShareLink db (ShareLink.ID link) (sanitizeIP realIP));
    try destruct (m <=? GetShareLinkUniqueIPCount db (ShareLink.ID link));
    cbn [negb andb];
    repeat split; intros; try discriminate; try reflexivity; auto;
    repeat match goal with
      | H : _ /\ _ |- _ => destruct H
      | H : _ \/ _ |- _ => destruct H
      end; try discriminate.
Qed.

(** *** The access log *)

Lemma length_substring_0 n : forall s,
  (n <= String.length s)%nat -> String.length (String.substring 0 n s) = n.
Proof.
  induction n as [| n IH]; intros s Hn.
  - destruct s; reflexivity.
  - destruct s as [| c s]; [cbn in Hn; lia |]. cbn [String.substring String.length].
    rewrite IH; [reflexivity | cbn in Hn; lia].
Qed.

Lemma prefix_substring_0 n : forall s,
  String.prefix (String.substring 0 n s) s = true.
Proof.
  induction n as [| n IH]; intros s.
  - destruct s; reflexivity.
  - destruct s as [| c s]; [reflexivity |]. cbn [String.substring String.prefix].
    destruct (ascii_dec c c) as [_ | Hc]; [apply IH | contradiction].
Qed.

Lemma prefix_refl s : String.prefix s s = true.
Proof.
  induction s as [| c s IH]; [reflexivity |]. cbn [String.prefix].
  destruct (ascii_dec c c) as [_ | Hc]; [exact IH | contradiction].
Qed.

Lemma truncateUserAgent_bound ua :
  (String.length (truncateUserAgent ua) <= 500)%nat /\
  String.prefix (truncateUserAgent ua) ua = true /\
  ((String.length ua <= 500)%nat -> truncateUserAgent ua = ua).
Proof.
  unfold truncateUserAgent.
  destruct (Nat.ltb_spec 500 (String.length ua)) as [Hlong | Hshort].
  - split; [rewrite length_substring_0; lia |].
    split; [apply prefix_substring_0 | lia].
  - split; [exact Hshort |]. split; [apply prefix_refl | reflexivity].
Qed.

(** What one request writes: nothing, or one access row and one view. *)
Lemma shared_request_writes sanitizeIP now h ip ua db :
  exists db' v,
    shared_request sanitizeIP now h ip ua db = Some (db', Ok v) /\
    pages db' = pages db /\ revisions db' = revisions db /\
    ((v <> Granted /\ db' = db) \/
     (v = Granted /\
      exists l,
        share_link_access db' =
          share_link_access db ++
            [ShareLinkAccess.mk (next_access_id db) (ShareLink.ID l)
               (sanitizeIP ip) (truncateUserAgent ua)])).
Proof.
  unfold shared_request, bind, GetShareLinkByToken. unfold gets at 1.
  destruct (find _ (share_links db)) as [l |].
  - unfold gets. destruct (validateShareLink sanitizeIP now db l ip) as [r |].
    + exists db, (Denied r). split; [reflexivity |].
      split; [reflexivity |]. split; [reflexivity |]. left.
      split; [discriminate | reflexivity].
    + unfold RecordShareAccess_mw, bind, RecordShareAccess,
        IncrementShareLinkViewCount, ret.
      eexists. exists Granted. split; [reflexivity |].
      split; [reflexivity |]. split; [reflexivity |]. right.
      split; [reflexivity |]. exists l. reflexivity.
  - exists db, UnknownToken. split; [reflexivity |].
    split; [reflexivity |]. split; [reflexivity |]. left.
    split; [discriminate | reflexivity].
Qed.

(** X25.  Requests for a shared page write to the access log and to the
    view count only: pages and revisions are as they were.  The log only
    grows, by one row for every request that is granted; such a row holds
    the sanitized address of a request and its user agent, cut after 500
    bytes when it is longer and as it was sent otherwise; so that no row
    of the log ever holds a user agent of more than 500 bytes. *)
Theorem access_log_is_bounded :
  forall (sanitizeIP : string -> string) (h : string) (reqs : list Request)
         (db : DB),
    Forall (fun a => (String.length (ShareLinkAccess.UserAgent a) <= 500)%nat)
      (share_link_access db) ->
    let db' := fst (serve sanitizeIP h reqs db) in
    Forall (fun a => (String.length (ShareLinkAccess.UserAgent a) <= 500)%nat)
      (share_link_access db') /\
    (exists added,
       share_link_access db' = share_link_access db ++ added /\
       Z.of_nat (length added) = grants (snd (serve sanitizeIP h reqs db)) /\
       Forall (fun a =>
                 exists r, In r reqs /\
                   ShareLinkAccess.IPAddress a = sanitizeIP (req_ip r) /\
                   ShareLinkAccess.UserAgent a = truncateUserAgent (req_agent r) /\
                   String.prefix (ShareLinkAccess.UserAgent a) (req_agent r) = true /\
                   ((String.length (req_agent r) <= 500)%nat ->
                    ShareLinkAccess.UserAgent a = req_agent r))
         added) /\
    pages db' = pages db /\ revisions db' = revisions db.
Proof.
  intros sanitizeIP h reqs. induction reqs as [| r reqs IH]; intros db Hlog.
  - cbn [serve fst snd]. split; [exact Hlog |]. split; [| split; reflexivity].
    exists []. rewrite app_nil_r. repeat split. constructor.
  - cbv zeta. cbn [serve].
    destruct (shared_request_writes sanitizeIP (req_now r) h (req_ip r)
                (req_agent r) db) as (db1 & v & Hrun & Hp & Hr & Hcase).
    rewrite Hrun. cbn [fst snd].
    assert (Hlater : forall added : list ShareLinkAccess.t,
              Forall (fun a =>
                        exists r0, In r0 reqs /\
                          ShareLinkAccess.IPAddress a = sanitizeIP (req_ip r0) /\
                          ShareLinkAccess.UserAgent a = truncateUserAgent (req_agent r0) /\
                          String.prefix (ShareLinkAccess.UserAgent a) (req_agent r0) = true /\
                          ((String.length (req_agent r0) <= 500)%nat ->
                           ShareLinkAccess.UserAgent a = req_agent r0)) added ->
              Forall (fun a =>
                        exists r0, In r0 (r :: reqs) /\
                          ShareLinkAccess.IPAddress a = sanitizeIP (req_ip r0) /\
                          ShareLinkAccess.UserAgent a = truncateUserAgent (req_agent r0) /\
                          String.prefix (ShareLinkAccess.UserAgent a) (req_agent r0) = true /\
                          ((String.length (req_agent r0) <= 500)%nat ->
                           ShareLinkAccess.UserAgent a = req_agent r0)) added).
    { intros added. apply Forall_impl. intros a (r0 & Hin & Hrest).
      exists r0. split; [right; exact Hin | exact Hrest]. }
    destruct (truncateUserAgent_bound (req_agent r)) as (Hlen & Hpre & Hsame).
    destruct Hcase as [[Hv ->] | [-> (l & Hrow)]].
    + destruct (IH db Hlog) as (H1 & (added & H2 & H3 & H4) & H5 & H6).
      split; [exact H1 |]. split; [| split; assumption].
      exists added. split; [exact H2 |]. split; [| apply Hlater, H4].
      rewrite grants_cons, H3. destruct v; [contradiction | |]; lia.
    + assert (Hlog1 : Forall (fun a => (String.length (ShareLinkAccess.UserAgent a)
                                         <= 500)%nat) (share_link_access db1)).
      { rewrite Hrow. apply Forall_app. split; [exact Hlog |].
        constructor; [exact Hlen | constructor]. }
      destruct (IH db1 Hlog1) as (H1 & (added & H2 & H3 & H4) & H5 & H6).
      split; [exact H1 |].
      split; [| split; [rewrite H5; exact Hp | rewrite H6; exact Hr]].
      eexists (_ :: added). split; [rewrite H2, Hrow, <- app_assoc; reflexivity |].
      split.
      * rewrite grants_cons, <- H3. cbn [length]. lia.
      * constructor; [| apply Hlater, H4]. exists r.
        split; [left; reflexivity |]. cbn [ShareLinkAccess.IPAddress
          ShareLinkAccess.UserAgent]. repeat split; assumption.
Qed.

(* ------------------------------------------------------------------ *)
(** ** The theorems at work on concrete wikis *)
(* ------------------------------------------------------------------ *)

Ltac solve_in := cbn; repeat (first [left; reflexivity | right]).

Ltac solve_not_in :=
  cbn; intros Hin;
  repeat match goal with
    | H : _ \/ _ |- _ => destruct H as [H | H]
    end; first [contradiction | discriminate].

Ltac solve_nodup :=
  repeat (constructor; [solve_not_in |]); constructor.

Ltac solve_forall := repeat (constructor; [cbn; lia |]); constructor.

Ltac solve_db_wf := constructor; [solve_nodup | solve_forall | solve_forall].

Lemma linux_db_wf : db_wf linux_db.
Proof. solve_db_wf. Defined.

(** The rename of the specification's example, through C1: the child has
    been moved under the new slug. *)
Lemma rename_cascades_witness :
  exists db' res,
    db_wf linux_db /\
    find (fun p => Page.ID p =? 1) (pages linux_db) =
      Some (Page.mk 1 "linux" "Linux" "about linux" "about linux" 1 None true) /\
    Slugify "commands/linux" <> "" /\
    Slugify "commands/linux" <> "linux" /\
    Wiki.UpdatePage render_id 4 1 1
      (PageUpdate.mk (Some "commands/linux") None None None) "" linux_db =
      Some (db', Ok res) /\
    In (Page.mk 2 "commands/linux/ubuntu" "Ubuntu" "about ubuntu" "about ubuntu" 1
          (Some 1) true) (pages db').
Proof.
  do 2 eexists.
  split; [exact linux_db_wf |].
  split; [reflexivity |].
  split; [discriminate |].
  split; [discriminate |].
  split; [vm_compute; reflexivity |].
  destruct (rename_cascades_to_descendants render_id 4 1 1
              (PageUpdate.mk (Some "commands/linux") None None None) ""
              linux_db _ _
              (Page.mk 1 "linux" "Linux" "about linux" "about linux" 1 None true)
              "commands/linux" linux_db_wf eq_refl eq_refl
              ltac:(discriminate) ltac:(discriminate)
              ltac:(vm_compute; reflexivity))
    as [(news & moved_pages & _ & _ & Hmoved & _) _].
  cbn zeta in Hmoved.
  apply (Hmoved (Page.mk 2 "linux/ubuntu" "Ubuntu" "about ubuntu" "about ubuntu" 1
                   (Some 1) true)).
  - apply Descendant_child; [apply in_or_app; left; solve_in | reflexivity].
  - reflexivity.
Defined.


(** Creating ["a/b"] in an empty wiki, through C5: the placeholder ["a"]
    is there once and is the parent. *)
Lemma create_under_parent_witness :
  exists db' page,
    create_slug (PageCreate.mk "a/b" "B" "text") = ("a" ++ "/" ++ "b")%string /\
    Contains "a" "/" = false /\
    Contains "b" "/" = false /\
    Wiki.CreatePage render_id 1 (PageCreate.mk "a/b" "B" "text") empty_db =
      Some (db', Ok page) /\
    exists ph,
      List.filter (fun q => nocase_eqb (Page.Slug q) "a") (pages db') = [ph] /\
      Page.Slug ph = "a" /\
      Page.IsPublished ph = true /\
      Page.Content ph = "" /\
      Page.ParentID ph = None /\
      Page.Title ph = Title (ReplaceAll "a" "-" " ") /\
      Page.ParentID page = Some (Page.ID ph) /\
      Page.ID page <> Page.ID ph /\
      pages db' = pages empty_db ++ [ph; page].
Proof.
  do 2 eexists.
  split; [reflexivity |].
  split; [reflexivity |].
  split; [reflexivity |].
  split; [vm_compute; reflexivity |].
  destruct (create_under_parent render_id 1 (PageCreate.mk "a/b" "B" "text")
              empty_db _ _ "a" "b" eq_refl eq_refl eq_refl
              ltac:(vm_compute; reflexivity)) as (Hnew & _).
  exact (Hnew eq_refl).
Defined.

(** The descendants of ["linux"] in [linux_db], through C9; the page lies
    one level above its child. *)
Lemma descendants_of_acyclic_witness :
  NoDup (List.map Page.ID (pages linux_db)) /\
  (forall p q, In p (pages linux_db) -> Page.ParentID p = Some q ->
               (linux_height (Page.ID p) < linux_height q)%nat) /\
  exists fuel rows,
    GetAllDescendants fuel 1 linux_db = Some (linux_db, Ok rows) /\
    NoDup (List.map fst rows) /\
    (forall d, In d rows <->
       exists p, Descendant (pages linux_db) 1 p /\ d = (Page.ID p, Page.Slug p)) /\
    (forall d, In d rows -> fst d <> 1).
Proof.
  assert (Hkey : NoDup (List.map Page.ID (pages linux_db))) by solve_nodup.
  assert (Hacyclic : forall p q, In p (pages linux_db) -> Page.ParentID p = Some q ->
            (linux_height (Page.ID p) < linux_height q)%nat).
  { intros p q [<- | [<- | []]] Hq; cbn in Hq; [discriminate |].
    injection Hq as <-. cbn. lia. }
  split; [exact Hkey |]. split; [exact Hacyclic |].
  exact (descendants_of_acyclic linux_db 1 linux_height Hkey Hacyclic).
Defined.

(** The ancestors of ["x/y/z"] in [linux_db], through C10. *)
Lemma placeholders_witness :
  db_wf linux_db /\
  exists news parent,
    Wiki.ensureParentPages render_id 1 "x/y/z" linux_db =
      Some (grown linux_db news, Ok parent) /\
    revisions (grown linux_db news) = revisions linux_db /\
    Forall (fun p => Page.Content p = "" /\
                     forall r, In r (revisions (grown linux_db news)) ->
                               Revision.PageID r <> Page.ID p) news.
Proof.
  split; [exact linux_db_wf |].
  destruct (placeholders_have_no_revisions render_id 1 linux_db linux_db_wf)
    as (Hens & _ & _).
  exact (Hens "x/y/z").
Defined.


(** *** The further properties at work *)

Ltac solve_incl_ids :=
  repeat (constructor;
          [cbn; intros ? Hx;
           repeat (destruct Hx as [Hx | Hx]; [subst; solve_in |]);
           contradiction |]);
  constructor.

Ltac solve_in_ids := repeat (constructor; [solve_in |]); constructor.

Ltac solve_store_ok :=
  constructor;
  [ solve_nodup | solve_forall | solve_nodup | solve_incl_ids
  | solve_in_ids | solve_nodup | solve_forall ].

Lemma linux_db_ok : store_ok linux_db.
Proof. solve_store_ok. Defined.

Lemma empty_db_ok : store_ok empty_db.
Proof. solve_store_ok. Defined.

Lemma one_page_db_ok : store_ok one_page_db.
Proof. solve_store_ok. Defined.

Lemma edited_db_ok : store_ok edited_db.
Proof. solve_store_ok. Defined.

(** Creating ["x/y"] next to the pages of [linux_db], through X1: the
    constraints hold of the store that results. *)
Lemma writes_keep_constraints_witness :
  store_ok linux_db /\
  exists db' page,
    Wiki.CreatePage render_id 1 (PageCreate.mk "x/y" "Y" "text") linux_db =
      Some (db', Ok page) /\
    store_ok db' /\ incl (ids_of linux_db) (ids_of db').
Proof.
  split; [exact linux_db_ok |].
  destruct (writes_keep_constraints render_id linux_db linux_db_ok) as (Hcreate & _).
  assert (Hrun : exists db' page,
            Wiki.CreatePage render_id 1 (PageCreate.mk "x/y" "Y" "text") linux_db =
              Some (db', Ok page))
    by (do 2 eexists; vm_compute; reflexivity).
  destruct Hrun as (db' & page & Hrun). exists db', page.
  split; [exact Hrun |]. exact (Hcreate _ _ _ _ Hrun).
Defined.

(** Creating ["a/b"] in an empty wiki, through X2: the page is found by
    its id and [PageExists] has changed its answer. *)
Lemma created_page_is_found_witness :
  store_ok empty_db /\
  exists db' page,
    Wiki.CreatePage render_id 1 (PageCreate.mk "a/b" "B" "text") empty_db =
      Some (db', Ok page) /\
    Wiki.GetPageByID (Page.ID page) db' = Some (db', Ok page) /\
    Wiki.PageExists (Page.Slug page) empty_db = Some (empty_db, Ok false) /\
    Wiki.PageExists (Page.Slug page) db' = Some (db', Ok true).
Proof.
  split; [exact empty_db_ok |].
  do 2 eexists. split; [vm_compute; reflexivity |].
  destruct (created_page_is_found render_id 1 (PageCreate.mk "a/b" "B" "text")
              empty_db _ _ empty_db_ok ltac:(vm_compute; reflexivity))
    as (Hid & _ & Hbefore & Hafter & _).
  split; [exact Hid |]. split; [exact Hbefore | exact Hafter].
Defined.

(** Deleting ["linux"] from [linux_db], through X3: the page is gone and
    its child has no parent any more. *)
Lemma delete_page_removes_witness :
  store_ok linux_db /\
  find (fun p => Page.ID p =? 1) (pages linux_db) =
    Some (Page.mk 1 "linux" "Linux" "about linux" "about linux" 1 None true) /\
  exists db',
    Wiki.DeletePage 1 linux_db = Some (db', Ok tt) /\
    Wiki.GetPageByID 1 db' = Some (db', Err ErrPageNotFound) /\
    Wiki.GetPage "linux" db' = Some (db', Err ErrPageNotFound) /\
    (forall q', In q' (pages db') -> Page.ParentID q' <> Some 1).
Proof.
  split; [exact linux_db_ok |]. split; [reflexivity |].
  destruct (delete_page_removes linux_db 1 linux_db_ok) as [_ Hfound].
  destruct (Hfound _ eq_refl) as (db' & H1 & H2 & H3 & _ & _ & _ & H7).
  exists db'. repeat split; assumption.
Defined.


(** Creating ["a/b/c"] in an empty wiki, through X5: the pages ["a"] and
    ["a/b"] exist afterwards. *)
Lemma create_makes_every_ancestor_witness :
  exists db' page,
    Wiki.CreatePage render_id 1 (PageCreate.mk "a/b/c" "C" "text") empty_db =
      Some (db', Ok page) /\
    (forall i, (i < length (Split (Page.Slug page) "/") - 1)%nat ->
       exists q, ancestor (Split (Page.Slug page) "/") i db' = Some q) /\
    Page.ParentID page =
      parent_link (Split (Page.Slug page) "/")
        (length (Split (Page.Slug page) "/") - 1) db'.
Proof.
  do 2 eexists. split; [vm_compute; reflexivity |].
  destruct (create_makes_every_ancestor render_id 1
              (PageCreate.mk "a/b/c" "C" "text") empty_db _ _
              ltac:(vm_compute; reflexivity)) as (Hall & Hparent & _).
  split; [exact Hall | exact Hparent].
Defined.

(** Reverting the page of [edited_db] to its first revision, through X6:
    the content ["A"] is back. *)
Lemma revert_restores_revision_witness :
  store_ok edited_db /\
  find (fun r => Revision.ID r =? 1) (revisions edited_db) =
    Some (Revision.mk 1 1 "A" 1 "first edit") /\
  exists db',
    Wiki.RevertToRevision render_id 1 1 1 edited_db =
      Some (db', Ok (Page.mk 1 "notes" "Notes" "A" "A" 1 None true)) /\
    Wiki.GetPageByID 1 db' =
      Some (db', Ok (Page.mk 1 "notes" "Notes" "A" "A" 1 None true)).
Proof.
  split; [exact edited_db_ok |]. split; [reflexivity |].
  destruct (revert_restores_revision render_id 1 1 1 edited_db edited_db_ok)
    as [_ Hfound].
  destruct (Hfound _ eq_refl) as (page & Hpage & Hrest).
  vm_compute in Hpage. injection Hpage as <-.
  cbv beta iota zeta delta [render_id] in Hrest.
  destruct Hrest as (db' & H1 & H2 & _).
  exists db'. split; [exact H1 | exact H2].
Defined.

(** Editing the page of [one_page_db] and reverting the edit, through X7. *)
Lemma edit_then_revert_witness :
  store_ok one_page_db /\
  find (fun p => Page.ID p =? 1) (pages one_page_db) =
    Some (Page.mk 1 "notes" "Notes" "A" "A" 1 None true) /\
  "B" <> "A" /\
  render_id "B" = Some "B" /\
  render_id "A" = Some "A" /\
  exists db1 db2,
    Wiki.UpdatePage render_id 1 1 1 (set_content "B") "first edit" one_page_db =
      Some (db1, Ok (Wiki.mkUpdateResult
                       (Page.mk 1 "notes" "Notes" "B" "B" 1 None true) [])) /\
    Wiki.RevertToRevision render_id 1 1 2 db1 =
      Some (db2, Ok (Page.mk 1 "notes" "Notes" "A" "A" 1 None true)) /\
    List.map Revision.Content (revisions db2) = ["A"; "B"].
Proof.
  split; [exact one_page_db_ok |]. split; [reflexivity |].
  split; [discriminate |]. split; [reflexivity |]. split; [reflexivity |].
  destruct (edit_then_revert render_id 1 1 1 1 2 "B" "first edit" one_page_db
              (Page.mk 1 "notes" "Notes" "A" "A" 1 None true) "B" "A"
              one_page_db_ok eq_refl ltac:(discriminate) eq_refl eq_refl)
    as (db1 & db2 & H1 & H2 & _ & H4).
  exists db1, db2. split; [exact H1 |]. split; [exact H2 | exact H4].
Defined.

Lemma linux_db_key : NoDup (List.map Page.ID (pages linux_db)).
Proof. solve_nodup. Defined.

(** Whether ["LINUX/Ubuntu"] lies under the page ["linux"] of [linux_db],
    through X8. *)
Lemma is_page_descendant_decides_witness :
  NoDup (List.map Page.ID (pages linux_db)) /\
  (forall p q, In p (pages linux_db) -> Page.ParentID p = Some q ->
               (linux_height (Page.ID p) < linux_height q)%nat) /\
  exists fuel b,
    IsPageDescendant fuel 1 "LINUX/Ubuntu" linux_db = Some (linux_db, Ok b) /\
    (b = true <->
     exists p, Descendant (pages linux_db) 1 p /\
               nocase_eqb (Page.Slug p) "LINUX/Ubuntu" = true).
Proof.
  assert (Hacyclic : forall p q, In p (pages linux_db) -> Page.ParentID p = Some q ->
            (linux_height (Page.ID p) < linux_height q)%nat).
  { intros p q [<- | [<- | []]] Hq; cbn in Hq; [discriminate |].
    injection Hq as <-. cbn. lia. }
  split; [exact linux_db_key |]. split; [exact Hacyclic |].
  destruct (is_page_descendant_decides linux_db 1 "LINUX/Ubuntu" linux_height
              linux_db_key Hacyclic) as (fuel & b & H1 & H2 & _).
  exists fuel, b. split; [exact H1 | exact H2].
Defined.

(** The path of ["linux/ubuntu"] in [linux_db], through X9. *)
Lemma page_path_is_the_lineage_witness :
  NoDup (List.map Page.ID (pages linux_db)) /\
  (forall p q, In p (pages linux_db) -> In q (pages linux_db) ->
               Page.ParentID p = Some (Page.ID q) ->
               (linux_rank (Page.ID q) < linux_rank (Page.ID p))%nat) /\
  find (fun p => Page.ID p =? 2) (pages linux_db) =
    Some (Page.mk 2 "linux/ubuntu" "Ubuntu" "about ubuntu" "about ubuntu" 1
            (Some 1) true) /\
  exists fuel l,
    GetPagePath fuel 2 linux_db = Some (linux_db, Ok (List.map summary l)) /\
    Lineage (pages linux_db) l
      (Page.mk 2 "linux/ubuntu" "Ubuntu" "about ubuntu" "about ubuntu" 1
         (Some 1) true).
Proof.
  assert (Hacyclic : forall p q, In p (pages linux_db) -> In q (pages linux_db) ->
            Page.ParentID p = Some (Page.ID q) ->
            (linux_rank (Page.ID q) < linux_rank (Page.ID p))%nat).
  { intros p q [<- | [<- | []]] Hq Hpq; cbn in Hpq; [discriminate |].
    injection Hpq as Hpq. rewrite <- Hpq. cbn. lia. }
  split; [exact linux_db_key |]. split; [exact Hacyclic |].
  split; [reflexivity |].
  destruct (page_path_is_the_lineage linux_db 2 linux_rank linux_db_key Hacyclic)
    as [Hfound _].
  exact (Hfound _ eq_refl).
Defined.

(** Five requests for the link of [shared_db], which allows three views,
    through X10. *)
Lemma view_limit_bounds_grants_witness :
  GetShareLinkByToken "h" shared_db = Some (shared_db, Ok (Some limited_link)) /\
  ShareLink.MaxViews limited_link = Some 3 /\
  ShareLink.ViewCount limited_link <= 3 /\
  grants (snd (serve (fun ip => ip) "h"
                 [mkRequest 1 "10.0.0.1" "ua"; mkRequest 2 "10.0.0.1" "ua";
                  mkRequest 3 "10.0.0.1" "ua"; mkRequest 4 "10.0.0.1" "ua";
                  mkRequest 5 "10.0.0.1" "ua"] shared_db))
    <= 3 - ShareLink.ViewCount limited_link.
Proof.
  split; [reflexivity |]. split; [reflexivity |]. split; [cbn; lia |].
  apply (view_limit_bounds_grants (fun ip => ip) "h"
           [mkRequest 1 "10.0.0.1" "ua"; mkRequest 2 "10.0.0.1" "ua";
            mkRequest 3 "10.0.0.1" "ua"; mkRequest 4 "10.0.0.1" "ua";
            mkRequest 5 "10.0.0.1" "ua"] shared_db limited_link 3
           eq_refl eq_refl ltac:(cbn; lia)).
Defined.

(** Three requests from three addresses for the link of [shared_db],
    which allows two addresses, through X11. *)
Lemma ip_limit_bounds_addresses_witness :
  GetShareLinkByToken "h" shared_db = Some (shared_db, Ok (Some limited_link)) /\
  ShareLink.MaxIPs limited_link = Some 2 /\
  GetShareLinkUniqueIPCount
    (fst (serve (fun ip => ip) "h"
            [mkRequest 1 "10.0.0.1" "ua"; mkRequest 2 "10.0.0.2" "ua";
             mkRequest 3 "10.0.0.3" "ua"] shared_db))
    (ShareLink.ID limited_link)
    <= Z.max 2 (GetShareLinkUniqueIPCount shared_db (ShareLink.ID limited_link)).
Proof.
  split; [reflexivity |]. split; [reflexivity |].
  apply (ip_limit_bounds_addresses (fun ip => ip) "h"
           [mkRequest 1 "10.0.0.1" "ua"; mkRequest 2 "10.0.0.2" "ua";
            mkRequest 3 "10.0.0.3" "ua"] shared_db limited_link 2
           eq_refl eq_refl).
Defined.

(** Revoking the link of [shared_db], through X12. *)
Lemma revoked_link_is_refused_witness :
  GetShareLinkByToken "h" shared_db = Some (shared_db, Ok (Some limited_link)) /\
  exists db',
    RevokeShareLink (ShareLink.ID limited_link) shared_db = Some (db', Ok tt) /\
    shared_request (fun ip => ip) 1 "h" "10.0.0.1" "ua" db' =
      Some (db', Ok (Denied Revoked)).
Proof.
  split; [reflexivity |].
  destruct (revoked_link_is_refused (fun ip => ip) "h" shared_db limited_link
              eq_refl) as (db' & H1 & _ & H3 & _).
  exists db'. split; [exact H1 | apply H3].
Defined.

(** Deleting the link of [shared_db], through X13. *)
Lemma deleted_link_is_unknown_witness :
  NoDup (List.map ShareLink.TokenHash (share_links shared_db)) /\
  NoDup (List.map ShareLink.ID (share_links shared_db)) /\
  GetShareLinkByToken "h" shared_db = Some (shared_db, Ok (Some limited_link)) /\
  exists db',
    DeleteShareLink (ShareLink.ID limited_link) shared_db = Some (db', Ok tt) /\
    shared_request (fun ip => ip) 1 "h" "10.0.0.1" "ua" db' =
      Some (db', Ok UnknownToken) /\
    pages db' = pages shared_db.
Proof.
  assert (H1 : NoDup (List.map ShareLink.TokenHash (share_links shared_db)))
    by solve_nodup.
  assert (H2 : NoDup (List.map ShareLink.ID (share_links shared_db)))
    by solve_nodup.
  split; [exact H1 |]. split; [exact H2 |]. split; [reflexivity |].
  destruct (deleted_link_is_unknown (fun ip => ip) "h" shared_db limited_link
              H1 H2 eq_refl) as (db' & D1 & D2 & _ & _ & D5 & _).
  exists db'. split; [exact D1 |]. split; [apply D2 | exact D5].
Defined.

(** Seven requests of one client within a window of [empty_limiter],
    which allows five, through X15. *)
Lemma rate_limit_window_witness :
  (forall e, RateLimit.requests empty_limiter "c" = Some e ->
             RateLimit.expiresAt e < 0) /\
  Forall (fun t => t <= 0 + RateLimit.window empty_limiter) [1; 2; 3; 4; 5; 60] /\
  snd (allow_all "c" [0; 1; 2; 3; 4; 5; 60] empty_limiter) =
    [true; true; true; true; true; false; false] /\
  snd (RateLimit.allow 61 "c"
         (fst (allow_all "c" [0; 1; 2; 3; 4; 5; 60] empty_limiter))) = true.
Proof.
  assert (H1 : forall e, RateLimit.requests empty_limiter "c" = Some e ->
                         RateLimit.expiresAt e < 0)
    by (intros e He; discriminate He).
  assert (H2 : Forall (fun t => t <= 0 + RateLimit.window empty_limiter)
                 [1; 2; 3; 4; 5; 60]) by solve_forall.
  split; [exact H1 |]. split; [exact H2 |].
  destruct (rate_limit_window empty_limiter "c" 0 [1; 2; 3; 4; 5; 60] H1 H2)
    as (A1 & _ & _ & A4).
  split; [exact A1 |]. apply A4. cbn. lia.
Defined.

(** A round of cleanup before a request of a client that is over its
    limit, through X16. *)
Lemma cleanup_is_invisible_witness :
  30 <= 40 /\
  snd (RateLimit.allow 40 "c"
         (RateLimit.cleanup 30
            (fst (allow_all "c" [0; 1; 2; 3; 4; 5] empty_limiter)))) =
  snd (RateLimit.allow 40 "c"
         (fst (allow_all "c" [0; 1; 2; 3; 4; 5] empty_limiter))).
Proof.
  split; [lia |].
  apply (cleanup_is_invisible
           (fst (allow_all "c" [0; 1; 2; 3; 4; 5] empty_limiter)) "c" 30 40).
  lia.
Defined.

(** Three failed logins from one address at [empty_login_limiter], which
    allows three attempts, through X17. *)
Lemma login_lockout_witness :
  RateLimit.attempts empty_login_limiter "10.0.0.1" = None /\
  Z.of_nat (length [1; 2]) + 1 = RateLimit.maxAttempts empty_login_limiter /\
  RateLimit.attempts (fst (fail_all "10.0.0.1" ([1; 2] ++ [3]) empty_login_limiter))
    "10.0.0.1" =
    Some (RateLimit.mkAttempt 3 (Some 3) 3) /\
  RateLimit.Login 100 "10.0.0.1" false true
    (fst (fail_all "10.0.0.1" ([1; 2] ++ [3]) empty_login_limiter)) =
    (fst (fail_all "10.0.0.1" ([1; 2] ++ [3]) empty_login_limiter),
     RateLimit.TooManyRequests (3 + 900 - 100)).
Proof.
  split; [reflexivity |]. split; [reflexivity |].
  destruct (login_lockout empty_login_limiter "10.0.0.1" [1; 2] 3 eq_refl eq_refl)
    as (_ & A2 & A3 & _).
  split; [exact A2 |]. apply A3. cbn. lia.
Defined.

(** Two requests for the link of [shared_db], one with a user agent of
    six hundred bytes, through X25. *)
Lemma access_log_is_bounded_witness :
  Forall (fun a => (String.length (ShareLinkAccess.UserAgent a) <= 500)%nat)
    (share_link_access shared_db) /\
  Forall (fun a => (String.length (ShareLinkAccess.UserAgent a) <= 500)%nat)
    (share_link_access
       (fst (serve (fun ip => ip) "h"
               [mkRequest 1 "10.0.0.1" "ua";
                mkRequest 2 "10.0.0.2" (String.concat "" (List.repeat "aaaaaaaaaa" 60))] shared_db))).
Proof.
  split; [constructor |].
  apply (access_log_is_bounded (fun ip => ip) "h"
           [mkRequest 1 "10.0.0.1" "ua";
            mkRequest 2 "10.0.0.2" (String.concat "" (List.repeat "aaaaaaaaaa" 60))] shared_db).
  constructor.
Defined.
